(** * distributed-backup: a shallow embedding of the transfer, signaling and
    peer packages, and the properties of their specification.

    The development follows the layout of the Go repository:

    - [Go]               the fragments of the Go runtime and standard library
                         the packages rely on (errors, [uint8] conversion,
                         [encoding/binary] over byte streams, [os] files);
    - [passwordmanager]  pkg/passwordmanager: the [Crypto] interface and
                         local_saver.go;
    - [crypto]           pkg/crypto: AES-CBC with PKCS#7 padding, over an
                         abstract block cipher;
    - [filemanager]      pkg/filemanager/backupper.go;
    - [signal]           pkg/signal/file_io.go, over a scripted network;
    - [peer]             pkg/peer/webrtc.go, its callbacks as events;
    - [scenario]         the inputs of the worked examples.

    The properties follow the definitions, package by package.

    Go strings are byte sequences: a [string] here is a Go [string], a
    [list byte] is a Go [[]byte], and [list_byte_of_string] /
    [string_of_list_byte] are the two conversions. *)

From Stdlib Require Import ZArith NArith Strings.Byte Ascii String List Bool Lia.
From stdpp Require Import base option list strings pretty gmap.

Local Open Scope string_scope.
Local Open Scope list_scope.
Local Open Scope nat_scope.

(* ===================================================================== *)
(** * Go runtime and standard library fragments *)
(* ===================================================================== *)

Module Go.

(** The [error] values the modelled code creates, returns or tests for. *)
Inductive error : Type :=
| io_EOF
| io_ErrUnexpectedEOF
| fs_ErrNotExist (path : string)
| errResponseStatus (status : Z) (* errors.Errorf("response status: %s", ...) *)
| ErrNoCandidatesFound           (* pkg/signal/error.go *)
| errBadPadding                  (* pkcs7pad *)
| runtime_panic (msg : string)   (* a panic that ends the call *)
| errOther (msg : string).

Inductive result (A : Type) : Type :=
| Ok (a : A)
| Err (e : error).
Arguments Ok {A} a.
Arguments Err {A} e.

(** [if err != nil { return err }] chains. *)
Definition bind {A B} (r : result A) (k : A -> result B) : result B :=
  match r with
  | Ok a => k a
  | Err e => Err e
  end.

(** The same, for code that also threads a state (a reader position, the
    file system, the network): the state reached at the failure is kept. *)
Definition io (S A : Type) : Type := S -> result A * S.

Definition io_ret {S A} (a : A) : io S A := fun s => (Ok a, s).
Definition io_fail {S A} (e : error) : io S A := fun s => (Err e, s).
(** A plain [result] inside stateful code, and stateful code run on a
    state of its own (a local buffer). *)
Definition io_lift {S A} (r : result A) : io S A := fun s => (r, s).
Definition io_local {S S' A} (m : io S' A) (s' : S') : io S A :=
  io_lift (fst (m s')).

(** Code that touches one component of a paired state. *)
Definition io_on_fst {S T A} (m : io S A) : io (S * T) A :=
  fun '(s, t) => let '(r, s') := m s in (r, (s', t)).
Definition io_on_snd {S T A} (m : io T A) : io (S * T) A :=
  fun '(s, t) => let '(r, t') := m t in (r, (s, t')).

Definition io_bind {S A B} (m : io S A) (k : A -> io S B) : io S B :=
  fun s =>
    match m s with
    | (Ok a, s') => k a s'
    | (Err e, s') => (Err e, s')
    end.

(** [uint8(n)] for a non-negative [int]: the low eight bits. *)
Definition uint8 (n : nat) : byte :=
  match Byte.of_nat (n mod 256) with
  | Some b => b
  | None => x00
  end.

(** ** io.Writer *)

Class Writer (W : Type) : Type :=
  Write : W -> list byte -> result W.

(** [bytes.Buffer], and every sink that accepts what it is given: the
    bytes written so far. *)
Definition Buffer : Type := list byte.

#[export] Instance Buffer_Writer : Writer Buffer :=
  fun buf p => Ok (buf ++ p).

(** ** io.Reader

    A reader is modelled by the bytes it still has to deliver before it
    reports end of file. *)
Definition Reader : Type := list byte.

(** [io.ReadFull(r, buf)] with [len(buf) = n]. *)
Definition io_ReadFull (n : nat) : io Reader (list byte) :=
  fun r =>
    if Nat.eqb n 0 then (Ok [], r)
    else if Nat.eqb (length r) 0 then (Err io_EOF, r)
    else if Nat.ltb (length r) n then (Err io_ErrUnexpectedEOF, [])
    else (Ok (take n r), drop n r).

(** [io.ReadAll(r)] and the reading side of [io.Copy]: everything up to
    end of file. *)
Definition io_ReadAll : io Reader (list byte) :=
  fun r => (Ok r, []).

(** ** encoding/binary (the byte order is immaterial for [uint8] data) *)

Definition binary_Write_uint8 {W} `{Writer W} (w : W) (data : byte) : result W :=
  Write w [data].

Definition binary_Write_bytes {W} `{Writer W} (w : W) (data : list byte) : result W :=
  Write w data.

Definition binary_Read_uint8 : io Reader byte :=
  io_bind (io_ReadFull 1)
          (fun bs => io_ret (match bs with b :: _ => b | [] => x00 end)).

(** [binary.Read(r, order, b)] for [b := make([]byte, n)]. *)
Definition binary_Read_bytes (n : nat) : io Reader (list byte) :=
  io_ReadFull n.

(** ** os: a flat file system, path to content

    Only regular files are represented; [os.Stat] fails exactly when the
    path is absent, and removing or renaming a present file succeeds.
    Whether a file can be created is for the [Disk] below. *)
Abbreviation FS := (gmap string (list byte)).

Definition os_Stat (path : string) (fs : FS) : bool :=
  bool_decide (is_Some (fs !! path)).

Definition os_ReadFile (path : string) : io FS (list byte) :=
  fun fs =>
    match fs !! path with
    | Some data => (Ok data, fs)
    | None => (Err (fs_ErrNotExist path), fs)
    end.

Definition os_WriteFile (path : string) (data : list byte) : io FS unit :=
  fun fs => (Ok tt, <[path := data]> fs).

Definition os_Remove (path : string) : io FS unit :=
  fun fs =>
    match fs !! path with
    | Some _ => (Ok tt, delete path fs)
    | None => (Err (fs_ErrNotExist path), fs)
    end.

Definition os_Rename (oldpath newpath : string) : io FS unit :=
  fun fs =>
    match fs !! oldpath with
    | Some data => (Ok tt, <[newpath := data]> (delete oldpath fs))
    | None => (Err (fs_ErrNotExist oldpath), fs)
    end.

(** ** What the operating system answers when a file is written

    Whether [os.Create] creates the file depends on directories,
    permissions and links, which the flat file system does not hold; so
    does the point at which [io.Copy] gives up. Both answers are the
    environment's: [os_Create] is the error of [os.Create(path)], if any,
    and [io_Copy] is how [io.Copy(f, r)] ends early, if it does. *)
Record CopyFailure : Type := {
  bytesRead : nat;
  bytesWritten : nat;
  copyError : error
}.

Record Disk : Type := {
  os_Create : string -> FS -> option error;
  io_Copy : string -> list byte -> option CopyFailure
}.

(** ** An unbuffered [chan struct{}]

    A send and a receive meet; whichever comes first blocks its goroutine
    until the other arrives. The channel is the number of goroutines
    blocked on either side and the number of values handed over. *)
Record Chan : Type := {
  senders : nat;
  receivers : nat;
  delivered : nat
}.

Definition make_chan : Chan :=
  {| senders := 0; receivers := 0; delivered := 0 |}.

(** [ch <- struct{}{}], by a goroutine of its own. *)
Definition chan_send (ch : Chan) : Chan :=
  match receivers ch with
  | 0 => {| senders := S (senders ch); receivers := 0; delivered := delivered ch |}
  | S waiting => {| senders := senders ch; receivers := waiting;
                    delivered := S (delivered ch) |}
  end.

(** [<-ch], by a goroutine of its own. *)
Definition chan_receive (ch : Chan) : Chan :=
  match senders ch with
  | 0 => {| senders := 0; receivers := S (receivers ch); delivered := delivered ch |}
  | S waiting => {| senders := waiting; receivers := receivers ch;
                    delivered := S (delivered ch) |}
  end.

(** What a channel has seen after [s] sends and [r] receives: every send
    and every receive is either handed over or still blocked, and the two
    sides are never blocked together. *)
Definition chan_after (ch : Chan) (s r : nat) : Prop :=
  delivered ch + senders ch = s
  /\ delivered ch + receivers ch = r
  /\ (senders ch = 0 \/ receivers ch = 0).

(** [fmt.Sprintf("%d", i)] for a non-negative [i]. *)
Definition Sprintf_d (i : nat) : string := pretty i.

(** [strings.Contains(s, substr)]. *)
Fixpoint strings_Contains (s substr : string) : bool :=
  String.prefix substr s ||
  match s with
  | EmptyString => false
  | String _ s' => strings_Contains s' substr
  end.

(** ** path/filepath, with [/] as the separator *)

Definition os_IsPathSeparator (c : ascii) : bool := Ascii.eqb c "/"%char.

Fixpoint dropSeparators (l : list ascii) : list ascii :=
  match l with
  | c :: l' => if os_IsPathSeparator c then dropSeparators l' else l
  | [] => []
  end.

Fixpoint takeElement (l : list ascii) : list ascii :=
  match l with
  | c :: l' => if os_IsPathSeparator c then [] else c :: takeElement l'
  | [] => []
  end.

(** [filepath.Base(path)]: ["."] for the empty path; otherwise the
    trailing separators are stripped and the last element is returned,
    which is ["/"] when nothing but separators was there. *)
Definition filepath_Base (path : string) : string :=
  match path with
  | EmptyString => "."
  | _ =>
      let stripped := dropSeparators (rev (list_ascii_of_string path)) in
      match takeElement stripped with
      | [] => "/"
      | element => string_of_list_ascii (rev element)
      end
  end.

(** ** os.Stat on a file system with directories

    [dirs] are the directories; the regular files are those of the flat
    file system. [os.Stat(path)] followed by [IsDir()]. *)
Definition os_Stat_IsDir (dirs : gset string) (fs : FS) (path : string)
  : result bool :=
  if decide (path ∈ dirs) then Ok true
  else if os_Stat path fs then Ok false
  else Err (fs_ErrNotExist path).

(** [errors.Wrap(cause, message)] and [errors.New(message)], by their
    text. *)
Definition errors_Wrap (cause message : string) : error :=
  errOther (message +:+ ": " +:+ cause).

Definition errors_New (message : string) : error := errOther message.

End Go.

Export Go.

Declare Scope go_scope.
Delimit Scope go_scope with go.
Notation "'let!' x ':=' m 'in' k" := (Go.bind m (fun x => k))
  (at level 10, x name, m at level 100, k at level 200) : go_scope.
Notation "'let*' x ':=' m 'in' k" := (Go.io_bind m (fun x => k))
  (at level 10, x name, m at level 100, k at level 200) : go_scope.
Notation "'let*' ' p ':=' m 'in' k" := (Go.io_bind m (fun p => k))
  (at level 10, p pattern, m at level 100, k at level 200) : go_scope.
Local Open Scope go_scope.

(* ===================================================================== *)
(** * pkg/passwordmanager *)
(* ===================================================================== *)

Module passwordmanager.

(** [type Crypto interface]. *)
Class Crypto (C : Type) : Type := {
  Encrypt : C -> list byte -> list byte;
  Decrypt : C -> list byte -> result (list byte)
}.

Record LocalSaverConfig : Type := { PasswordFile : string }.

Record LocalSaver (C : Type) : Type := {
  cfg : LocalSaverConfig;
  crypto : C
}.
Arguments cfg {C} _.
Arguments crypto {C} _.

Definition writePassword {W} `{Writer W} (w : W) (password : string) : result W :=
  let b := list_byte_of_string password in
  let length := uint8 (length b) in
  let! w := binary_Write_uint8 w length in
  binary_Write_bytes w b.

(** [return string(b), binary.Read(r, binary.BigEndian, b)]: the gc
    toolchain evaluates the call first and converts the filled [b]
    afterwards; the string returned beside an error is dropped by the one
    caller. *)
Definition readPassword : io Reader string :=
  let* length := binary_Read_uint8 in
  let* b := binary_Read_bytes (Byte.to_nat length) in
  io_ret (string_of_list_byte b).

Definition SavePasswords {C} `{Crypto C} (m : LocalSaver C) (p1 p2 : string)
  : io FS unit :=
  let* buf := io_lift (writePassword ([] : Buffer) p1) in
  let* buf := io_lift (writePassword buf p2) in
  let* payload := io_local io_ReadAll buf in
  let encrypted := Encrypt (crypto m) payload in
  os_WriteFile (PasswordFile (cfg m)) encrypted.

Definition GetPasswords {C} `{Crypto C} (m : LocalSaver C)
  : io FS (string * string) :=
  let* payload := os_ReadFile (PasswordFile (cfg m)) in
  let* decrypted := io_lift (Decrypt (crypto m) payload) in
  io_local (let* p1 := readPassword in
            let* p2 := readPassword in
            io_ret (p1, p2))
           (decrypted : Reader).

End passwordmanager.

(* ===================================================================== *)
(** * pkg/crypto *)
(* ===================================================================== *)

Module crypto.

(** [crypto/cipher.Block] as [aes.NewCipher] returns it: the two block
    functions of one key. *)
Record Block : Type := {
  BlockSize : nat;
  EncryptBlock : list byte -> list byte;
  DecryptBlock : list byte -> list byte
}.

(** What the model asks of a block cipher: blocks stay blocks, and
    decrypting an encrypted block gives it back. *)
Definition BlockLaws (b : Block) : Prop :=
  1 <= BlockSize b <= 255 /\
  (forall blk, length blk = BlockSize b ->
               length (EncryptBlock b blk) = BlockSize b) /\
  (forall blk, length blk = BlockSize b ->
               DecryptBlock b (EncryptBlock b blk) = blk).

Record AesCbcConfig : Type := { Key : list byte; IV : list byte }.

Record AesCbc : Type := {
  cfg : AesCbcConfig;
  cipher : Block
}.

(** [aes.NewCipher] is a parameter: it rejects some keys. *)
Definition NewAesCbc (aes_NewCipher : list byte -> result Block)
           (cfg : AesCbcConfig) : result AesCbc :=
  let! cipher := aes_NewCipher (Key cfg) in
  Ok {| cfg := cfg; cipher := cipher |}.

Definition xorByte (a b : byte) : byte :=
  let '(a0, (a1, (a2, (a3, (a4, (a5, (a6, a7))))))) := Byte.to_bits a in
  let '(b0, (b1, (b2, (b3, (b4, (b5, (b6, b7))))))) := Byte.to_bits b in
  Byte.of_bits (xorb a0 b0, (xorb a1 b1, (xorb a2 b2, (xorb a3 b3,
               (xorb a4 b4, (xorb a5 b5, (xorb a6 b6, xorb a7 b7))))))).

Definition xorBytes (a b : list byte) : list byte := zip_with xorByte a b.

(** [pkcs7pad.Pad(buf, size)], for a block size in 1..255. *)
Definition pkcs7pad_Pad (buf : list byte) (size : nat) : list byte :=
  let i := size - length buf mod size in
  buf ++ repeat (uint8 i) i.

(** [pkcs7pad.Unpad(buf)]: the last byte tells the padding length, which
    must be at least one, at most [len(buf)], and repeated that often. *)
Definition pkcs7pad_Unpad (buf : list byte) : result (list byte) :=
  match last buf with
  | None => Err errBadPadding
  | Some p =>
      let padLen := Byte.to_nat p in
      if Nat.leb 1 padLen && Nat.leb padLen (length buf)
         && forallb (Byte.eqb p) (drop (length buf - padLen) buf)
      then Ok (take (length buf - padLen) buf)
      else Err errBadPadding
  end.

(** [cipher.NewCBCEncrypter(b, iv).CryptBlocks(dst, src)] over [n] blocks;
    [iv] is one block long. *)
Fixpoint cbcEncryptBlocks (b : Block) (n : nat) (iv src : list byte) : list byte :=
  match n with
  | 0 => []
  | S n' =>
      let c := EncryptBlock b (xorBytes (take (BlockSize b) src) iv) in
      c ++ cbcEncryptBlocks b n' c (drop (BlockSize b) src)
  end.

(** [cipher.NewCBCDecrypter(b, iv).CryptBlocks(dst, src)] over [n] blocks. *)
Fixpoint cbcDecryptBlocks (b : Block) (n : nat) (iv src : list byte) : list byte :=
  match n with
  | 0 => []
  | S n' =>
      let c := take (BlockSize b) src in
      xorBytes (DecryptBlock b c) iv
        ++ cbcDecryptBlocks b n' c (drop (BlockSize b) src)
  end.

(** The padded payload is a whole number of blocks, so [CryptBlocks]
    does not panic here. *)
Definition Encrypt (c : AesCbc) (payload : list byte) : list byte :=
  let payload := pkcs7pad_Pad payload (BlockSize (cipher c)) in
  cbcEncryptBlocks (cipher c) (length payload / BlockSize (cipher c))
                   (IV (cfg c)) payload.

(** [CryptBlocks] panics on input that is not a whole number of blocks. *)
Definition Decrypt (c : AesCbc) (payload : list byte) : result (list byte) :=
  if Nat.eqb (length payload mod BlockSize (cipher c)) 0
  then pkcs7pad_Unpad
         (cbcDecryptBlocks (cipher c) (length payload / BlockSize (cipher c))
                           (IV (cfg c)) payload)
  else Err (runtime_panic "crypto/cipher: input not full blocks").

#[global] Instance AesCbc_Crypto : passwordmanager.Crypto AesCbc := {|
  passwordmanager.Encrypt := Encrypt;
  passwordmanager.Decrypt := Decrypt
|}.

(** A stand-in block cipher for worked examples (AES itself is not
    modelled): the block is xored with the 16-byte key. *)
Definition xorCipher (key : list byte) : Block := {|
  BlockSize := 16;
  EncryptBlock := fun blk => xorBytes blk key;
  DecryptBlock := fun blk => xorBytes blk key
|}.

(** The configuration of internal/app.go, on the stand-in cipher. *)
Definition appCrypto : AesCbc := {|
  cfg := {| Key := list_byte_of_string "AES-128-key-1234";
            IV := list_byte_of_string "IV-1234567890123" |};
  cipher := xorCipher (list_byte_of_string "AES-128-key-1234")
|}.

End crypto.

(* ===================================================================== *)
(** * pkg/filemanager *)
(* ===================================================================== *)

Module filemanager.

Record BackupperConfig : Type := {
  ZipDir : bool;
  SourceEntry : string;
  DestinationDir : string;
  OutputFilename : string;
  Versions : nat; (* uint16 *)
  Password1 : string;
  Password2 : string
}.

(** The [Peer] of a [Backupper] is an [io.ReadWriter]: the sending side
    uses it as a [Writer], the receiving side as the [Reader] of the
    bytes the data channel delivers before it is closed. The receiving
    side runs on that reader and the file system. *)
Definition Receiver : Type := Reader * FS.

Definition os_PathSeparator : string := "/".

Definition writeFilename {W} `{Writer W} (name : string) (w : W) : result W :=
  let b := list_byte_of_string name in
  let length := uint8 (length b) in
  let! w := binary_Write_uint8 w length in
  binary_Write_bytes w b.

(** [os.Open(path)], then [io.Copy(w, f)]. *)
Definition writeFile {W} `{Writer W} (path : string) (w : W) (fs : FS) : result W :=
  match fs !! path with
  | Some content => Write w content
  | None => Err (fs_ErrNotExist path)
  end.

(** [filepath.Base] is a parameter. *)
Definition sendSourceFile {W} `{Writer W} (filepath_Base : string -> string)
           (cfg : BackupperConfig) (peer : W) (fs : FS) : result W :=
  let name := filepath_Base (SourceEntry cfg) in
  let! peer := writeFilename name peer in
  writeFile (SourceEntry cfg) peer fs.

(** [fmt.Sprintf(".%d", i)]. *)
Definition Sprintf_dot_d (i : nat) : string := "." +:+ Sprintf_d i.

(** The file of index [i] in the version chain of [path]: [path] itself
    for index 0, [path.i] above. *)
Definition versionPath (path : string) (i : nat) : string :=
  match i with
  | 0 => path
  | S _ => path +:+ Sprintf_dot_d i
  end.

(** One iteration of the loop of [shiftFileVersions]; errors of
    [os.Remove] and [os.Rename] are logged and otherwise ignored. *)
Definition shiftFileVersion (oldestVersion : nat) (path : string) (i : nat)
           (fs : FS) : FS :=
  let oldVersionPath :=
    if negb (Nat.eqb i 0) then path +:+ Sprintf_dot_d i else path in
  if negb (os_Stat oldVersionPath fs) then fs
  else if Nat.eqb i oldestVersion then snd (os_Remove oldVersionPath fs)
  else
    let newVersionPath := path +:+ Sprintf_dot_d (i + 1) in
    snd (os_Rename oldVersionPath newVersionPath fs).

(** [for i := ...; i >= 0; i--], entered at [i]. *)
Fixpoint shiftFileVersionsFrom (oldestVersion : nat) (path : string) (i : nat)
         (fs : FS) : FS :=
  let fs := shiftFileVersion oldestVersion path i fs in
  match i with
  | 0 => fs
  | S i' => shiftFileVersionsFrom oldestVersion path i' fs
  end.

(** [oldestVersion := int(m.cfg.Versions) - 1] is -1 for a cap of 0, and
    the loop body does not run. *)
Definition shiftFileVersions (cfg : BackupperConfig) (path : string) (fs : FS) : FS :=
  match Versions cfg with
  | 0 => fs
  | S oldestVersion => shiftFileVersionsFrom oldestVersion path oldestVersion fs
  end.

(** [os.Create(path)], then [io.Copy(f, m.peer)]: up to the end of the
    stream, or up to the failure of a read or a write, which leaves what
    was written in the file. A refused [os.Create] reads nothing. *)
Definition saveFile (disk : Disk) (path : string) : io Receiver unit :=
  fun '(peer, fs) =>
    match os_Create disk path fs with
    | Some err => (Err err, (peer, fs))
    | None =>
        match io_Copy disk path peer with
        | Some failure =>
            (Err (copyError failure),
             (drop (bytesRead failure) peer,
              <[path := take (bytesWritten failure) peer]> fs))
        | None => (Ok tt, ([], <[path := peer]> fs))
        end
    end.

Definition receiveFile (disk : Disk) (cfg : BackupperConfig) : io Receiver unit :=
  let* nameLen := io_on_fst binary_Read_uint8 in
  let* name := io_on_fst (binary_Read_bytes (Byte.to_nat nameLen)) in
  let path :=
    (DestinationDir cfg +:+ os_PathSeparator) +:+ string_of_list_byte name in
  let* _ := io_on_snd (fun fs => (Ok tt, shiftFileVersions cfg path fs)) in
  saveFile disk path.

Record Backupper : Type := {
  cfg : BackupperConfig;
  shutdownChan : Chan
}.

(** The texts of [errNotDirectory] and [errIsDirectory] are parameters;
    the registration of [onEstablish] with the peer is not modelled. *)
Definition NewBackupper (errNotDirectory errIsDirectory : string)
           (cfg : BackupperConfig) (dirs : gset string) (fs : FS)
  : result Backupper :=
  let! _ :=
    if negb (Nat.eqb (String.length (DestinationDir cfg)) 0) then
      let! isDir := os_Stat_IsDir dirs fs (DestinationDir cfg) in
      if negb isDir
      then Err (errors_Wrap errNotDirectory (DestinationDir cfg))
      else Ok tt
    else Ok tt in
  let! _ :=
    if negb (Nat.eqb (String.length (SourceEntry cfg)) 0) then
      let! isDir := os_Stat_IsDir dirs fs (SourceEntry cfg) in
      if ZipDir cfg then
        if negb isDir
        then Err (errors_Wrap errNotDirectory (SourceEntry cfg))
        else if Nat.eqb (String.length (OutputFilename cfg)) 0
        then Err (errors_New "output filename is empty")
        else Ok tt
      else
        if isDir
        then Err (errors_Wrap errIsDirectory (SourceEntry cfg))
        else Ok tt
    else Ok tt in
  Ok {| cfg := cfg; shutdownChan := make_chan |}.

End filemanager.

(* ===================================================================== *)
(** * pkg/signal *)
(* ===================================================================== *)

Module signal.

(** ** net/http, as the package uses it *)

Record Request : Type := {
  Method : string;
  URL : string;
  Header : list (string * string);
  ReqBody : list byte
}.

Record Response : Type := {
  StatusCode : Z;
  Body : list byte
}.

Definition StatusOK : Z := 200.
Definition StatusForbidden : Z := 403.
Definition StatusNotFound : Z := 404.
Definition StatusTooManyRequests : Z := 429.

(** The network as one run meets it: what [http.DefaultClient.Do] is
    going to return, call after call, and the requests handed to it so
    far. A call beyond the last answer fails like a call without a
    network. *)
Record Net : Type := {
  answers : list (result Response);
  sent : list Request
}.

Definition errNoAnswer : error := errOther "http: no answer".

(** ** The blobs of the mailbox *)

Record fileIoNode : Type := { Key : string; Name : string }.

Record fileIoFiles : Type := { Nodes : list fileIoNode }.

Definition fileIoFileContentType : Type := string.

Record fileIoFileContent : Type := {
  Type_ : fileIoFileContentType;
  Payload : list byte
}.

Definition fileIoFileContentTypePing : fileIoFileContentType := "ping".
Definition fileIoFileContentTypeSDP : fileIoFileContentType := "sdp".
Definition fileIoFileContentTypeCandidate : fileIoFileContentType := "candidate".

(** [encoding/json] and [mime/multipart] are parameters: how a non-empty
    body is parsed into each of the two blob types, and the
    multipart/form-data body [uploadFile] builds for a named blob (the
    part [file] and the fields [expires], [maxDownloads], [autoDelete]). *)
Record Codec : Type := {
  unmarshalFiles : list byte -> result fileIoFiles;
  unmarshalContent : list byte -> result fileIoFileContent;
  multipartForm : string -> fileIoFileContent -> list byte
}.

Definition json_isSpace (c : byte) : bool :=
  Byte.eqb c " "%byte || Byte.eqb c "009"%byte
  || Byte.eqb c "013"%byte || Byte.eqb c "010"%byte.

(** [json.NewDecoder(body).Decode(v)]: input that ends before any value
    starts is [io.EOF]; anything else is for the parser. *)
Definition json_Decode {A} (unmarshal : list byte -> result A)
           (body : list byte) : result A :=
  if forallb json_isSpace body then Err io_EOF else unmarshal body.

(** ** FileIo *)

Record FileIoConfig : Type := {
  APIKey : string;
  SessionID : string;
  InstanceID : string
}.

(** The handlers registered by [OnSDP] and [OnCandidate] act on a state
    [H] of their owner. *)
Record FileIo (H : Type) : Type := {
  cfg : FileIoConfig;
  sdpHandler : list byte -> H -> H;
  candidateHandler : list byte -> H -> H
}.
Arguments cfg {H} _.
Arguments sdpHandler {H} _ _ _.
Arguments candidateHandler {H} _ _ _.

Definition NewFileIo {H} (cfg : FileIoConfig) : result (FileIo H) :=
  if Nat.eqb (String.length (APIKey cfg)) 0 then Err (errOther "API key is empty")
  else if Nat.eqb (String.length (SessionID cfg)) 0 then Err (errOther "session ID is empty")
  else if Nat.eqb (String.length (InstanceID cfg)) 0 then Err (errOther "instance ID is empty")
  else Ok {| cfg := cfg;
             sdpHandler := fun _ h => h;
             candidateHandler := fun _ h => h |}.

(** [for ... range l { body }] where the body deals with its own errors. *)
Definition range {A S} (l : list A) (body : A -> S -> S) (s : S) : S :=
  fold_left (fun s a => body a s) l s.

Section WithCodec.

Context (codec : Codec) {H : Type}.

(** The loop of [request]: [Do] is called again with the same request
    for as long as the answer is 429 (after a sleep, which is not
    modelled; neither is the delayed unlock of the request mutex). *)
Fixpoint doUntilAnswered (req : Request) (answers : list (result Response))
         (sent : list Request) : result Response * Net :=
  match answers with
  | [] => (Err errNoAnswer, {| answers := []; sent := sent ++ [req] |})
  | Err e :: rest => (Err e, {| answers := rest; sent := sent ++ [req] |})
  | Ok resp :: rest =>
      if Z.eqb (StatusCode resp) StatusTooManyRequests
      then doUntilAnswered req rest (sent ++ [req])
      else (Ok resp, {| answers := rest; sent := sent ++ [req] |})
  end.

(** The request [request] builds: [http.NewRequest] (taken to accept
    the URL), the caller's headers, and the API key. *)
Definition newRequest (s : FileIo H) (method urn : string)
           (headers : list (string * string)) (body : list byte) : Request :=
  let url := "https://file.io" in
  {| Method := method;
     URL := url +:+ urn;
     Header := headers ++ [("Authorization", APIKey (cfg s))];
     ReqBody := body |}.

Definition request (s : FileIo H) (method urn : string)
           (headers : list (string * string)) (body : list byte)
  : io Net Response :=
  fun net =>
    doUntilAnswered (newRequest s method urn headers body)
                    (answers net) (sent net).

Definition findFiles (s : FileIo H) (pattern : string) : io Net fileIoFiles :=
  let urn := "/?search=" +:+ pattern +:+ "&sort=created:asc" in
  let headers := [("Accept", "application/json")] in
  let* resp := request s "GET" urn headers [] in
  if negb (Z.eqb (StatusCode resp) StatusOK)
  then io_fail (errResponseStatus (StatusCode resp))
  else io_lift (json_Decode (unmarshalFiles codec) (Body resp)).

Definition downloadFile (s : FileIo H) (fileKey : string)
  : io Net fileIoFileContent :=
  let urn := "/" +:+ fileKey in
  let headers := [("Accept", "*/*")] in
  let* resp := request s "GET" urn headers [] in
  if negb (Z.eqb (StatusCode resp) StatusOK)
     && negb (Z.eqb (StatusCode resp) StatusNotFound)
  then io_fail (errResponseStatus (StatusCode resp))
  else io_lift (json_Decode (unmarshalContent codec) (Body resp)).

Definition deleteFile (s : FileIo H) (fileKey : string) : io Net unit :=
  let urn := "/" +:+ fileKey in
  let headers := [("Accept", "application/json")] in
  let* resp := request s "DELETE" urn headers [] in
  if negb (Z.eqb (StatusCode resp) StatusOK)
     && negb (Z.eqb (StatusCode resp) StatusForbidden)
  then io_fail (errResponseStatus (StatusCode resp))
  else io_ret tt.

Definition uploadFile (s : FileIo H) (name : string)
           (content : fileIoFileContent) : io Net unit :=
  let boundary := "---011000010111000001101001" in
  let buf := multipartForm codec name content in
  let headers := [("Accept", "application/json");
                  ("Content-Type", "multipart/form-data; boundary=" +:+ boundary)] in
  let* resp := request s "POST" "/" headers buf in
  if negb (Z.eqb (StatusCode resp) StatusOK)
  then io_fail (errResponseStatus (StatusCode resp))
  else io_ret tt.

Definition findPing (s : FileIo H) : io Net fileIoFiles :=
  let pattern := SessionID (cfg s) +:+ "_" +:+ fileIoFileContentTypePing in
  findFiles s pattern.

(** [fmt.Sprintf("%s_%s_%s.json", SessionID, kind, InstanceID)]. *)
Definition entryName (s : FileIo H) (kind : fileIoFileContentType) : string :=
  SessionID (cfg s) +:+ "_" +:+ kind +:+ "_" +:+ InstanceID (cfg s) +:+ ".json".

Definition uploadPing (s : FileIo H) : io Net unit :=
  let filename := entryName s fileIoFileContentTypePing in
  uploadFile s filename {| Type_ := fileIoFileContentTypePing; Payload := [] |}.

Definition uploadSDP (s : FileIo H) (payload : list byte) : io Net unit :=
  let filename := entryName s fileIoFileContentTypeSDP in
  uploadFile s filename {| Type_ := fileIoFileContentTypeSDP; Payload := payload |}.

Definition uploadCandidate (s : FileIo H) (payload : list byte) : io Net unit :=
  let filename := entryName s fileIoFileContentTypeCandidate in
  uploadFile s filename
             {| Type_ := fileIoFileContentTypeCandidate; Payload := payload |}.

Definition SendSDP (s : FileIo H) (payload : list byte) : io Net unit :=
  uploadSDP s payload.

Definition SendCandidate (s : FileIo H) (payload : list byte) : io Net unit :=
  uploadCandidate s payload.

Definition Ping (s : FileIo H) : io Net unit :=
  let* files := findPing s in
  if Nat.eqb (length (Nodes files)) 0
  then let* _ := uploadPing s in io_fail ErrNoCandidatesFound
  else
    fun net =>
      (Ok tt,
       range (Nodes files)
             (fun node net => snd (deleteFile s (Key node) net)) net).

(** The [switch content.Type] of [sniffCandidates]. *)
Definition dispatch (s : FileIo H) (content : fileIoFileContent) (h : H) : H :=
  if String.eqb (Type_ content) fileIoFileContentTypeSDP
  then sdpHandler s (Payload content) h
  else if String.eqb (Type_ content) fileIoFileContentTypeCandidate
  then candidateHandler s (Payload content) h
  else h.

(** The body of the loop of [sniffCandidates]. *)
Definition sniffNode (s : FileIo H) (node : fileIoNode) (st : Net * H)
  : Net * H :=
  let '(net, h) := st in
  if strings_Contains (Name node) (InstanceID (cfg s)) then (net, h)
  else
    match downloadFile s (Key node) net with
    | (Err _, net) => (net, h)
    | (Ok content, net) => (net, dispatch s content h)
    end.

Definition sniffCandidates (s : FileIo H) : io (Net * H) unit :=
  let* files := io_on_fst (findFiles s (SessionID (cfg s))) in
  fun st => (Ok tt, range (Nodes files) (sniffNode s) st).

(** [findFiles] returns a nil listing beside an error, and the loop
    then ends the program on a nil dereference. *)
Definition cleanUp (s : FileIo H) : io Net unit :=
  fun net =>
    match findFiles s (SessionID (cfg s)) net with
    | (Err _, net) => (Err (runtime_panic "nil pointer dereference"), net)
    | (Ok files, net) =>
        (Ok tt,
         range (Nodes files)
               (fun node net => snd (deleteFile s (Key node) net)) net)
    end.

End WithCodec.

End signal.

(* ===================================================================== *)
(** * pkg/peer *)
(* ===================================================================== *)

Module peer.

(** ** pion/webrtc, as the handlers meet it *)

Inductive PeerConnectionState : Type :=
| PeerConnectionStateNew
| PeerConnectionStateConnecting
| PeerConnectionStateConnected
| PeerConnectionStateDisconnected
| PeerConnectionStateFailed
| PeerConnectionStateClosed.

Inductive SDPType : Type :=
| SDPTypeOffer
| SDPTypePranswer
| SDPTypeAnswer
| SDPTypeRollback.

Record SessionDescription : Type := {
  Type_ : SDPType;
  SDP : string
}.

(** A candidate, by its [ToJSON().Candidate] string. *)
Record ICECandidate : Type := { Candidate : string }.

(** What the handlers read from the connection. *)
Record PeerConnection : Type := {
  RemoteDescription : option SessionDescription;
  LocalDescription : option SessionDescription;
  ConnectionState : PeerConnectionState
}.

(** What the connection answers to the calls of one [onSignalSDP].
    [SetRemoteDescription] records the description before it has checked
    all of it, so the connection may hold a description it has refused:
    [RemoteDescriptionRecorded] tells whether [RemoteDescription()]
    reports the description after a refusal. *)
Record Answers : Type := {
  SetRemoteDescription : option error;
  RemoteDescriptionRecorded : bool;
  CreateAnswer : result SessionDescription;
  SetLocalDescription : option error
}.

(** [encoding/json] on session descriptions is a parameter. *)
Record Json : Type := {
  Unmarshal : list byte -> result SessionDescription;
  Marshal : SessionDescription -> result (list byte)
}.

(** ** [type Signal interface], the sending half *)

Class Signal (S : Type) : Type := {
  SendSDP : list byte -> io S unit;
  SendCandidate : list byte -> io S unit
}.

(** [signal.FileIo] is one, on the network. *)
Definition FileIo_Signal (codec : signal.Codec) {H} (s : signal.FileIo H)
  : Signal signal.Net := {|
  SendSDP := signal.SendSDP codec s;
  SendCandidate := signal.SendCandidate codec s
|}.

(** A mailbox that accepts every posting and keeps them in order. *)
Inductive Posting : Type :=
| PostedSDP (payload : list byte)
| PostedCandidate (payload : list byte).

Definition Mailbox : Type := list Posting.

#[global] Instance Mailbox_Signal : Signal Mailbox := {|
  SendSDP := fun payload mbox => (Ok tt, mbox ++ [PostedSDP payload]);
  SendCandidate := fun payload mbox => (Ok tt, mbox ++ [PostedCandidate payload])
|}.

(** ** WebRTC

    The connection runs every callback in a goroutine of its own, so a
    handler blocked in its send on [shutdownChan] does not hold back the
    next one. The candidates mutex is not modelled: handlers run one at a
    time. *)
Record WebRTC (S : Type) : Type := {
  signal : S;
  conn : PeerConnection;
  candidates : list ICECandidate;
  shutdownChan : Chan
}.
Arguments signal {S} _.
Arguments conn {S} _.
Arguments candidates {S} _.
Arguments shutdownChan {S} _.

Section WithSignal.

Context {Sg : Type} `{Signal Sg} (json : Json).

Definition with_signal (p : WebRTC Sg) (sg : Sg) : WebRTC Sg :=
  {| signal := sg; conn := conn p;
     candidates := candidates p; shutdownChan := shutdownChan p |}.

Definition with_conn (p : WebRTC Sg) (c : PeerConnection) : WebRTC Sg :=
  {| signal := signal p; conn := c;
     candidates := candidates p; shutdownChan := shutdownChan p |}.

Definition with_candidates (p : WebRTC Sg) (cs : list ICECandidate) : WebRTC Sg :=
  {| signal := signal p; conn := conn p;
     candidates := cs; shutdownChan := shutdownChan p |}.

Definition NewWebRTC (sg : Sg) : WebRTC Sg :=
  {| signal := sg;
     conn := {| RemoteDescription := None;
                LocalDescription := None;
                ConnectionState := PeerConnectionStateNew |};
     candidates := [];
     shutdownChan := make_chan |}.

Definition signalSendCandidate (payload : list byte) : io (WebRTC Sg) unit :=
  fun p =>
    match ConnectionState (conn p) with
    | PeerConnectionStateClosed => (Ok tt, p)
    | _ => let '(r, sg) := SendCandidate payload (signal p) in
           (r, with_signal p sg)
    end.

Definition onConnICECandidate (candidate : option ICECandidate)
           (p : WebRTC Sg) : WebRTC Sg :=
  match candidate with
  | None => p
  | Some candidate =>
      match RemoteDescription (conn p) with
      | None => with_candidates p (candidates p ++ [candidate])
      | Some _ =>
          let payload := list_byte_of_string (Candidate candidate) in
          snd (signalSendCandidate payload p)
      end
  end.

Definition onSignalSDPOffer (a : Answers) : io (WebRTC Sg) unit :=
  let* answer := io_lift (CreateAnswer a) in
  let* payload := io_lift (Marshal json answer) in
  let* _ := (fun p => let '(r, sg) := SendSDP payload (signal p) in
                      (r, with_signal p sg)) in
  fun p =>
    match SetLocalDescription a with
    | Some e => (Err e, p)
    | None =>
        (Ok tt,
         with_conn p {| RemoteDescription := RemoteDescription (conn p);
                        LocalDescription := Some answer;
                        ConnectionState := ConnectionState (conn p) |})
    end.

(** The loop that ends [onSignalSDP]: it returns at the first send that
    fails. *)
Fixpoint sendCandidates (cs : list ICECandidate) (p : WebRTC Sg) : WebRTC Sg :=
  match cs with
  | [] => p
  | candidate :: cs =>
      let payload := list_byte_of_string (Candidate candidate) in
      match signalSendCandidate payload p with
      | (Ok _, p) => sendCandidates cs p
      | (Err _, p) => p
      end
  end.

Definition onSignalSDP (payload : list byte) (a : Answers)
           (p : WebRTC Sg) : WebRTC Sg :=
  match Unmarshal json payload with
  | Err _ => p
  | Ok sdp =>
      match SetRemoteDescription a with
      | Some _ =>
          if RemoteDescriptionRecorded a
          then with_conn p {| RemoteDescription := Some sdp;
                              LocalDescription := LocalDescription (conn p);
                              ConnectionState := ConnectionState (conn p) |}
          else p
      | None =>
          let p := with_conn p {| RemoteDescription := Some sdp;
                                  LocalDescription := LocalDescription (conn p);
                                  ConnectionState := ConnectionState (conn p) |} in
          match Type_ sdp with
          | SDPTypeOffer =>
              match onSignalSDPOffer a p with
              | (Err _, p) => p
              | (Ok _, p) => sendCandidates (candidates p) p
              end
          | _ => sendCandidates (candidates p) p
          end
      end
  end.

Definition onConnStateChange (state : PeerConnectionState)
           (p : WebRTC Sg) : WebRTC Sg :=
  match state with
  | PeerConnectionStateDisconnected
  | PeerConnectionStateFailed
  | PeerConnectionStateClosed =>
      {| signal := signal p; conn := conn p;
         candidates := candidates p;
         shutdownChan := chan_send (shutdownChan p) |}
  | _ => p
  end.

(** A goroutine of the owner receives from [Done()]. *)
Definition receiveDone (p : WebRTC Sg) : WebRTC Sg :=
  {| signal := signal p; conn := conn p;
     candidates := candidates p;
     shutdownChan := chan_receive (shutdownChan p) |}.

(** ** The callbacks, as events of one run *)

Inductive Event : Type :=
| ICECandidateEvent (candidate : option ICECandidate)
| SignalSDPEvent (payload : list byte) (a : Answers)
| ConnectionStateChangeEvent (state : PeerConnectionState)
| DoneReceiveEvent.

(** The connection records its new state before it calls the handler. *)
Definition step (p : WebRTC Sg) (ev : Event) : WebRTC Sg :=
  match ev with
  | ICECandidateEvent candidate => onConnICECandidate candidate p
  | SignalSDPEvent payload a => onSignalSDP payload a p
  | ConnectionStateChangeEvent state =>
      onConnStateChange state
        (with_conn p {| RemoteDescription := RemoteDescription (conn p);
                        LocalDescription := LocalDescription (conn p);
                        ConnectionState := state |})
  | DoneReceiveEvent => receiveDone p
  end.

Definition run (events : list Event) (p : WebRTC Sg) : WebRTC Sg :=
  fold_left step events p.

(** The transitions into [disconnected], [failed] or [closed] among
    the events. *)
Definition isTerminalTransition (ev : Event) : bool :=
  match ev with
  | ConnectionStateChangeEvent PeerConnectionStateDisconnected
  | ConnectionStateChangeEvent PeerConnectionStateFailed
  | ConnectionStateChangeEvent PeerConnectionStateClosed => true
  | _ => false
  end.

Definition terminalTransitions (events : list Event) : nat :=
  length (filter (fun ev => isTerminalTransition ev = true) events).

(** The receives from [Done()] among the events. *)
Definition isDoneReceive (ev : Event) : bool :=
  match ev with
  | DoneReceiveEvent => true
  | _ => false
  end.

Definition doneReceives (events : list Event) : nat :=
  length (filter (fun ev => isDoneReceive ev = true) events).

End WithSignal.

(** ** Dial

    [registerDataChannel] only installs the [OnOpen] callback of the
    channel: the data channel is not part of the model. *)

(** What the connection answers to the calls of one [offer]. *)
Record OfferAnswers : Type := {
  CreateDataChannel : option error;
  CreateOffer : result SessionDescription;
  SetLocalOffer : option error
}.

(** [errors.Is(err, signal.ErrNoCandidatesFound)]: no error of the model
    wraps another. *)
Definition isErrNoCandidatesFound (err : error) : bool :=
  match err with
  | ErrNoCandidatesFound => true
  | _ => false
  end.

Section WithPing.

Context {Sg : Type} `{Signal Sg} (json : Json).

(** [Ping] of the [Signal] interface. *)
Context (Ping : io Sg unit).

Definition waitOffer : io (WebRTC Sg) unit := io_ret tt.

Definition offer (a : OfferAnswers) : io (WebRTC Sg) unit :=
  fun p =>
    match CreateDataChannel a with
    | Some e => (Err e, p)
    | None =>
        match CreateOffer a with
        | Err e => (Err e, p)
        | Ok offer =>
            match SetLocalOffer a with
            | Some e => (Err e, p)
            | None =>
                let p :=
                  with_conn p {| RemoteDescription := RemoteDescription (conn p);
                                 LocalDescription := Some offer;
                                 ConnectionState := ConnectionState (conn p) |} in
                match Marshal json offer with
                | Err e => (Err e, p)
                | Ok payload =>
                    let '(r, sg) := SendSDP payload (signal p) in
                    (r, with_signal p sg)
                end
            end
        end
    end.

Definition Dial (a : OfferAnswers) : io (WebRTC Sg) unit :=
  fun p =>
    match Ping (signal p) with
    | (Err err, sg) =>
        if negb (isErrNoCandidatesFound err)
        then (Err err, with_signal p sg)
        else waitOffer (with_signal p sg)
    | (Ok _, sg) => offer a (with_signal p sg)
    end.

End WithPing.

(** An event after which the connection reports a remote description: a
    session description that unmarshals and that the connection accepts,
    or refuses after recording it. *)
Definition recordsRemoteDescription (json : Json) (ev : Event) : bool :=
  match ev with
  | SignalSDPEvent payload a =>
      match Unmarshal json payload, SetRemoteDescription a with
      | Ok _, None => true
      | Ok _, Some _ => RemoteDescriptionRecorded a
      | Err _, _ => false
      end
  | _ => false
  end.

End peer.

(* ===================================================================== *)
(** * internal/app.go *)
(* ===================================================================== *)

Module internal.

(** The flags, as [parseCmdline] leaves them, and what [Setup] builds.
    The signalling state of the peer is the network; the handlers that
    [NewWebRTC] registers with the signalling are the events of
    [peer.run]. *)
Record App : Type := {
  encryptionMode : bool;
  password1 : string;
  password2 : string;
  sessionUUID : string;
  instanceUUID : string;
  apiKey : string;
  zipDir : bool;
  sourceEntry : string;
  outputFilename : string;
  destinationDir : string;
  fileVersions : nat; (* uint16 *)
  passwordFile : string;

  passwordManager : option (passwordmanager.LocalSaver crypto.AesCbc);
  crypto : option crypto.AesCbc;
  fileManager : option filemanager.Backupper;
  peer : option (peer.WebRTC signal.Net);
  signal : option (signal.FileIo (peer.WebRTC signal.Net))
}.

(** How a call ends: it returns, it returns an error that
    [errors.Wrap] has given a message, or it panics. *)
Inductive Outcome (A : Type) : Type :=
| Returned (a : A)
| Failed (message : string) (cause : error)
| Panicked (message : string).
Arguments Returned {A} _.
Arguments Failed {A} _ _.
Arguments Panicked {A} _.

(** [errors.Wrap(err, message)] on what a call returned: nil stays nil,
    and a panic never reaches it. *)
Definition wrap {A} (r : result A) (message : string) : Outcome A :=
  match r with
  | Ok a => Returned a
  | Err (runtime_panic m) => Panicked m
  | Err e => Failed message e
  end.

Section WithWorld.

(** [aes.NewCipher], the texts of the two directory errors of
    pkg/filemanager, the outcome of [api.NewPeerConnection], and the
    network, the directories and the files as the program finds them. *)
Context (aes_NewCipher : list byte -> result crypto.Block)
        (errNotDirectory errIsDirectory : string)
        (NewPeerConnection : option error)
        (net : signal.Net) (dirs : gset string).

Definition setupPasswordManager (a : App) : Outcome App :=
  match wrap (crypto.NewAesCbc aes_NewCipher
                {| crypto.Key := list_byte_of_string "AES-128-key-1234";
                   crypto.IV := list_byte_of_string "IV-1234567890123" |})
             "password manager crypto" with
  | Returned c =>
      Returned
        {| encryptionMode := encryptionMode a;
           password1 := password1 a; password2 := password2 a;
           sessionUUID := sessionUUID a; instanceUUID := instanceUUID a;
           apiKey := apiKey a; zipDir := zipDir a;
           sourceEntry := sourceEntry a; outputFilename := outputFilename a;
           destinationDir := destinationDir a; fileVersions := fileVersions a;
           passwordFile := passwordFile a;
           passwordManager :=
             Some {| passwordmanager.cfg :=
                       {| passwordmanager.PasswordFile := passwordFile a |};
                     passwordmanager.crypto := c |};
           crypto := Some c;
           fileManager := fileManager a; peer := peer a; signal := signal a |}
  | Failed message cause => Failed message cause
  | Panicked m => Panicked m
  end.

Definition setupBackupMode (a : App) (fs : FS) : Outcome App :=
  match wrap (signal.NewFileIo
                {| signal.APIKey := apiKey a;
                   signal.SessionID := sessionUUID a;
                   signal.InstanceID := instanceUUID a |})
             "signaling" with
  | Failed message cause => Failed message cause
  | Panicked m => Panicked m
  | Returned sg =>
      match wrap (match NewPeerConnection with
                  | Some e => Err e
                  | None => Ok (peer.NewWebRTC net)
                  end)
                 "peer connection" with
      | Failed message cause => Failed message cause
      | Panicked m => Panicked m
      | Returned p =>
          match wrap (match passwordManager a with
                      | Some m => fst (passwordmanager.GetPasswords m fs)
                      | None => Ok ("", "")
                      end)
                     "password manager" with
          | Failed message cause => Failed message cause
          | Panicked m => Panicked m
          | Returned (password1, password2) =>
              match wrap (filemanager.NewBackupper errNotDirectory errIsDirectory
                            {| filemanager.ZipDir := zipDir a;
                               filemanager.SourceEntry := sourceEntry a;
                               filemanager.DestinationDir := destinationDir a;
                               filemanager.OutputFilename := outputFilename a;
                               filemanager.Versions := fileVersions a;
                               filemanager.Password1 := password1;
                               filemanager.Password2 := password2 |}
                            dirs fs)
                         "file manager" with
              | Failed message cause => Failed message cause
              | Panicked m => Panicked m
              | Returned fm =>
                  Returned
                    {| encryptionMode := encryptionMode a;
                       password1 := internal.password1 a;
                       password2 := internal.password2 a;
                       sessionUUID := sessionUUID a; instanceUUID := instanceUUID a;
                       apiKey := apiKey a; zipDir := zipDir a;
                       sourceEntry := sourceEntry a;
                       outputFilename := outputFilename a;
                       destinationDir := destinationDir a;
                       fileVersions := fileVersions a;
                       passwordFile := passwordFile a;
                       passwordManager := passwordManager a;
                       crypto := crypto a;
                       fileManager := Some fm;
                       peer := Some p;
                       signal := Some sg |}
              end
          end
      end
  end.

(** [Setup], after [parseCmdline]. *)
Definition Setup (a : App) (fs : FS) : Outcome App :=
  match (if negb (Nat.eqb (String.length (passwordFile a)) 0)
         then setupPasswordManager a
         else Returned a) with
  | Failed message cause => Failed message cause
  | Panicked m => Panicked m
  | Returned a =>
      if encryptionMode a then Returned a else setupBackupMode a fs
  end.

(** [SavePasswords] on a nil [*LocalSaver] fills its buffer and then
    reads [m.crypto]. *)
Definition runEncryptionMode (a : App) (fs : FS) : Outcome unit * FS :=
  match passwordManager a with
  | None => (Panicked "nil pointer dereference", fs)
  | Some m =>
      let '(err, fs) :=
        passwordmanager.SavePasswords m (password1 a) (password2 a) fs in
      (wrap err "password manager", fs)
  end.

(** [Run]; the backup mode, with its goroutines, is a parameter. *)
Definition Run (runBackupMode : App -> FS -> Outcome unit * FS)
           (a : App) (fs : FS) : Outcome unit * FS :=
  if encryptionMode a then runEncryptionMode a fs else runBackupMode a fs.

End WithWorld.

End internal.

(* ===================================================================== *)
(** * Worked scenarios *)
(* ===================================================================== *)

Module scenario.

(** A receiver started with [-d=/out -v=V]. *)
Definition receiver (V : nat) : filemanager.BackupperConfig := {|
  filemanager.ZipDir := false;
  filemanager.SourceEntry := "";
  filemanager.DestinationDir := "/out";
  filemanager.OutputFilename := "";
  filemanager.Versions := V;
  filemanager.Password1 := "";
  filemanager.Password2 := ""
|}.

(** The destination directory after two receives of [a.txt] with
    [-v=2]. *)
Definition twoVersions : FS :=
  {[ "/out/a.txt" := list_byte_of_string "world";
     "/out/a.txt.1" := list_byte_of_string "hello" ]}.

(** A name with a parent-directory segment, and a name too long for the
    length byte. *)
Definition escapingName : string := "../evil.txt".
Definition longName : string := string_of_list_byte (repeat "a"%byte 300).

(** A disk on which [/out] is a directory without a directory of its own.
    [os.Create] refuses [/out/], [/out/.] and [/out/..], which name
    directories, and a file under the missing [/out/nodir]; it creates
    every other file of the worked examples, and [io.Copy] runs to the end
    of the stream. *)
Definition disk : Disk := {|
  os_Create := fun path _ =>
    if String.eqb path "/out/" || String.eqb path "/out/."
       || String.eqb path "/out/.."
    then Some (errOther ("open " +:+ path +:+ ": is a directory"))
    else if String.eqb path "/out/nodir/evil.txt"
    then Some (fs_ErrNotExist path)
    else None;
  io_Copy := fun _ _ => None
|}.

(** The same disk with room for two more bytes. *)
Definition fullDisk : Disk := {|
  os_Create := os_Create disk;
  io_Copy := fun _ content =>
    if Nat.leb (length content) 2 then None
    else Some {| bytesRead := length content;
                 bytesWritten := 2;
                 copyError := errOther "no space left on device" |}
|}.

(** An instance of a session, with handlers that record what they are
    handed. *)
Definition fileIo : signal.FileIo (list (string * list byte)) := {|
  signal.cfg := {| signal.APIKey := "key";
                   signal.SessionID := "91c04021";
                   signal.InstanceID := "inst-A" |};
  signal.sdpHandler := fun payload h => h ++ [("sdp", payload)];
  signal.candidateHandler := fun payload h => h ++ [("candidate", payload)]
|}.

(** A network whose next answer is [status] with an empty body. *)
Definition answering (status : Z) : signal.Net := {|
  signal.answers := [Ok {| signal.StatusCode := status; signal.Body := [] |}];
  signal.sent := []
|}.

(** A stand-in for the JSON and multipart codecs (they are not modelled):
    it knows the bodies of the worked examples, by name. *)
Definition peerPing : signal.fileIoNode :=
  {| signal.Key := "k1"; signal.Name := "91c04021_ping_inst-B.json" |}.
Definition peerSDP : signal.fileIoNode :=
  {| signal.Key := "k2"; signal.Name := "91c04021_sdp_inst-B.json" |}.
Definition ownCandidate : signal.fileIoNode :=
  {| signal.Key := "k3"; signal.Name := "91c04021_candidate_inst-A.json" |}.

Definition codec : signal.Codec := {|
  signal.unmarshalFiles := fun body =>
    let body := string_of_list_byte body in
    if String.eqb body "no entries" then Ok {| signal.Nodes := [] |}
    else if String.eqb body "one ping" then Ok {| signal.Nodes := [peerPing] |}
    else if String.eqb body "sdp and own candidate"
    then Ok {| signal.Nodes := [peerSDP; ownCandidate] |}
    else Err (errOther "json: cannot unmarshal");
  signal.unmarshalContent := fun body =>
    let body := string_of_list_byte body in
    if String.eqb body "an offer"
    then Ok {| signal.Type_ := "sdp"; signal.Payload := list_byte_of_string "offer" |}
    else Err (errOther "json: cannot unmarshal");
  signal.multipartForm := fun name content =>
    list_byte_of_string name ++ list_byte_of_string (signal.Type_ content)
      ++ signal.Payload content
|}.

Definition answer (status : Z) (body : string) : result signal.Response :=
  Ok {| signal.StatusCode := status; signal.Body := list_byte_of_string body |}.

Definition network (answers : list (result signal.Response)) : signal.Net :=
  {| signal.answers := answers; signal.sent := [] |}.

(** A stand-in for the JSON codec of session descriptions, two
    candidates, and a connection that accepts what it is asked. *)
Definition json : peer.Json := {|
  peer.Unmarshal := fun payload =>
    let payload := string_of_list_byte payload in
    if String.eqb payload "offer"
    then Ok {| peer.Type_ := peer.SDPTypeOffer; peer.SDP := "offer" |}
    else if String.eqb payload "answer"
    then Ok {| peer.Type_ := peer.SDPTypeAnswer; peer.SDP := "answer" |}
    else Err (errOther "json: cannot unmarshal");
  peer.Marshal := fun sdp => Ok (list_byte_of_string (peer.SDP sdp))
|}.

Definition c1 : peer.ICECandidate := {| peer.Candidate := "candidate:1" |}.
Definition c2 : peer.ICECandidate := {| peer.Candidate := "candidate:2" |}.

Definition accepting : peer.Answers := {|
  peer.SetRemoteDescription := None;
  peer.RemoteDescriptionRecorded := true;
  peer.CreateAnswer := Ok {| peer.Type_ := peer.SDPTypeAnswer; peer.SDP := "answer" |};
  peer.SetLocalDescription := None
|}.

(** A connection that refuses the description it is handed, after
    recording it or before. *)
Definition refusing (recorded : bool) : peer.Answers := {|
  peer.SetRemoteDescription := Some (errOther "SetRemoteDescription refused");
  peer.RemoteDescriptionRecorded := recorded;
  peer.CreateAnswer := Ok {| peer.Type_ := peer.SDPTypeAnswer; peer.SDP := "answer" |};
  peer.SetLocalDescription := None
|}.

Definition freshPeer : peer.WebRTC peer.Mailbox := peer.NewWebRTC [].

(** A sender started with [-s=/t/a.txt]. *)
Definition sender : filemanager.BackupperConfig := {|
  filemanager.ZipDir := false;
  filemanager.SourceEntry := "/t/a.txt";
  filemanager.DestinationDir := "";
  filemanager.OutputFilename := "";
  filemanager.Versions := 1;
  filemanager.Password1 := "";
  filemanager.Password2 := ""
|}.

(** A run with [-e -1 qwerty -2 asdfgh] and, when [passfile] is not
    empty, [-p passfile]. *)
Definition encrypting (passfile : string) : internal.App := {|
  internal.encryptionMode := true;
  internal.password1 := "qwerty";
  internal.password2 := "asdfgh";
  internal.sessionUUID := "";
  internal.instanceUUID := "inst-A";
  internal.apiKey := "";
  internal.zipDir := false;
  internal.sourceEntry := "";
  internal.outputFilename := "";
  internal.destinationDir := "";
  internal.fileVersions := 1;
  internal.passwordFile := passfile;
  internal.passwordManager := None;
  internal.crypto := None;
  internal.fileManager := None;
  internal.peer := None;
  internal.signal := None
|}.

(** A receiver started with [-u 91c04021 -a key -d /out -p /t/p.bin]. *)
Definition receiving : internal.App := {|
  internal.encryptionMode := false;
  internal.password1 := "";
  internal.password2 := "";
  internal.sessionUUID := "91c04021";
  internal.instanceUUID := "inst-A";
  internal.apiKey := "key";
  internal.zipDir := false;
  internal.sourceEntry := "";
  internal.outputFilename := "";
  internal.destinationDir := "/out";
  internal.fileVersions := 1;
  internal.passwordFile := "/t/p.bin";
  internal.passwordManager := None;
  internal.crypto := None;
  internal.fileManager := None;
  internal.peer := None;
  internal.signal := None
|}.

(** [aes.NewCipher] of the worked examples: the stand-in cipher, for
    keys of 16 bytes. *)
Definition aes_NewCipher (key : list byte) : result crypto.Block :=
  if Nat.eqb (length key) 16 then Ok (crypto.xorCipher key)
  else Err (errOther "crypto/aes: invalid key size").

End scenario.


(* ===================================================================== *)
(** * Properties *)
(* ===================================================================== *)

Section GoFacts.

Lemma uint8_to_nat (n : nat) : Byte.to_nat (uint8 n) = n mod 256.
Proof.
  unfold uint8.
  destruct (Byte.of_nat (n mod 256)) as [b|] eqn:E.
  - by apply Byte.to_of_nat.
  - apply Byte.of_nat_None_iff in E.
    pose proof (Nat.mod_upper_bound n 256). lia.
Qed.

Lemma uint8_small (n : nat) : n <= 255 -> Byte.to_nat (uint8 n) = n.
Proof. intros Hn. rewrite uint8_to_nat. apply Nat.mod_small. lia. Qed.

Lemma length_list_byte_of_string (s : string) :
  length (list_byte_of_string s) = String.length s.
Proof.
  unfold list_byte_of_string. rewrite length_map.
  induction s as [|a s IH]; simpl; [done | by rewrite IH].
Qed.

End GoFacts.

(** ** pkg/crypto: decryption undoes encryption *)

Section CryptoFacts.

Lemma xorByte_involutive (a b : byte) : crypto.xorByte (crypto.xorByte a b) b = a.
Proof.
  unfold crypto.xorByte.
  destruct (Byte.to_bits a) as (a0 & a1 & a2 & a3 & a4 & a5 & a6 & a7) eqn:Ea.
  destruct (Byte.to_bits b) as (b0 & b1 & b2 & b3 & b4 & b5 & b6 & b7) eqn:Eb.
  rewrite Byte.to_bits_of_bits.
  rewrite !xorb_assoc, !xorb_nilpotent, !xorb_false_r.
  rewrite <- Ea. apply Byte.of_bits_to_bits.
Qed.

Lemma xorBytes_involutive (a b : list byte) :
  length a <= length b -> crypto.xorBytes (crypto.xorBytes a b) b = a.
Proof.
  unfold crypto.xorBytes. revert b.
  induction a as [|x a IH]; intros [|y b] Hlen; simpl in *; try done; try lia.
  rewrite xorByte_involutive, IH; [done | lia].
Qed.

Lemma length_xorBytes (a b : list byte) :
  length a = length b -> length (crypto.xorBytes a b) = length a.
Proof.
  unfold crypto.xorBytes. intros Hlen. rewrite length_zip_with. lia.
Qed.

Lemma length_cbcEncryptBlocks (b : crypto.Block) (n : nat) :
  crypto.BlockLaws b ->
  forall iv src,
    length iv = crypto.BlockSize b ->
    length src = n * crypto.BlockSize b ->
    length (crypto.cbcEncryptBlocks b n iv src) = n * crypto.BlockSize b.
Proof.
  intros (Hbs & Hlen & _).
  induction n as [|n IH]; intros iv src Hiv Hsrc; simpl; [done|].
  simpl in Hsrc.
  assert (Hblk : length (crypto.xorBytes (take (crypto.BlockSize b) src) iv)
                 = crypto.BlockSize b).
  { rewrite length_xorBytes; rewrite length_take; lia. }
  rewrite length_app, Hlen by done.
  rewrite IH; [done | by apply Hlen | rewrite length_drop; lia].
Qed.

Lemma cbc_round_trip (b : crypto.Block) (n : nat) :
  crypto.BlockLaws b ->
  forall iv src,
    length iv = crypto.BlockSize b ->
    length src = n * crypto.BlockSize b ->
    crypto.cbcDecryptBlocks b n iv (crypto.cbcEncryptBlocks b n iv src) = src.
Proof.
  intros Hlaws. pose proof Hlaws as (Hbs & Hlen & Hinv).
  induction n as [|n IH]; intros iv src Hiv Hsrc; simpl in *.
  - by destruct src.
  - set (blk := crypto.xorBytes (take (crypto.BlockSize b) src) iv).
    assert (Hblk : length blk = crypto.BlockSize b).
    { unfold blk. rewrite length_xorBytes; rewrite length_take; lia. }
    assert (Hc : length (crypto.EncryptBlock b blk) = crypto.BlockSize b)
      by by apply Hlen.
    rewrite take_app_length' by done.
    rewrite drop_app_length' by done.
    rewrite Hinv by done.
    unfold blk at 1. rewrite xorBytes_involutive by (rewrite length_take; lia).
    rewrite IH; [apply take_drop | done | rewrite length_drop; lia].
Qed.

Lemma length_pkcs7pad_Pad (buf : list byte) (size : nat) :
  1 <= size ->
  length (crypto.pkcs7pad_Pad buf size) = (length buf / size + 1) * size.
Proof.
  intros Hsize. unfold crypto.pkcs7pad_Pad.
  rewrite length_app, repeat_length.
  pose proof (Nat.div_mod_eq (length buf) size).
  pose proof (Nat.mod_upper_bound (length buf) size).
  nia.
Qed.

Lemma pkcs7pad_Unpad_Pad (buf : list byte) (size : nat) :
  1 <= size <= 255 ->
  crypto.pkcs7pad_Unpad (crypto.pkcs7pad_Pad buf size) = Ok buf.
Proof.
  intros Hsize. unfold crypto.pkcs7pad_Unpad, crypto.pkcs7pad_Pad.
  pose proof (Nat.mod_upper_bound (length buf) size).
  set (i := size - length buf mod size).
  assert (Hi : 1 <= i <= 255) by lia.
  destruct i as [|i'] eqn:Ei; [lia|]. rewrite <- Ei in *.
  assert (Hlast : last (buf ++ repeat (uint8 i) i) = Some (uint8 i)).
  { generalize (uint8 i). intros x. rewrite Ei. simpl.
    rewrite repeat_cons, app_assoc. apply last_snoc. }
  rewrite Hlast. rewrite uint8_small by lia.
  rewrite length_app, repeat_length.
  replace (length buf + i - i) with (length buf) by lia.
  rewrite drop_app_length, take_app_length.
  assert (Hall : forallb (Byte.eqb (uint8 i)) (repeat (uint8 i) i) = true).
  { apply forallb_forall. intros x Hx. apply repeat_spec in Hx. subst x.
    by apply Byte.byte_dec_lb. }
  rewrite Hall.
  destruct (Nat.leb_spec 1 i); [|lia].
  destruct (Nat.leb_spec i (length buf + i)); [done | lia].
Qed.

Lemma AesCbc_Decrypt_Encrypt (c : crypto.AesCbc) (payload : list byte) :
  crypto.BlockLaws (crypto.cipher c) ->
  length (crypto.IV (crypto.cfg c)) = crypto.BlockSize (crypto.cipher c) ->
  crypto.Decrypt c (crypto.Encrypt c payload) = Ok payload.
Proof.
  intros Hlaws Hiv. pose proof Hlaws as (Hbs & _).
  unfold crypto.Decrypt, crypto.Encrypt.
  set (bs := crypto.BlockSize (crypto.cipher c)) in *.
  set (padded := crypto.pkcs7pad_Pad payload bs).
  assert (Hpad : length padded = (length payload / bs + 1) * bs)
    by (apply length_pkcs7pad_Pad; lia).
  assert (Hn : length padded / bs = length payload / bs + 1)
    by (rewrite Hpad; apply Nat.div_mul; lia).
  rewrite Hn.
  rewrite (length_cbcEncryptBlocks _ _ Hlaws) by done.
  rewrite Nat.Div0.mod_mul, Nat.eqb_refl.
  rewrite Nat.div_mul by lia.
  rewrite (cbc_round_trip _ _ Hlaws) by done.
  by apply pkcs7pad_Unpad_Pad.
Qed.

Lemma xorCipher_laws (key : list byte) :
  length key = 16 -> crypto.BlockLaws (crypto.xorCipher key).
Proof.
  intros Hkey. repeat split; simpl; try lia.
  - intros blk Hblk. rewrite length_xorBytes; lia.
  - intros blk Hblk. apply xorBytes_involutive. lia.
Qed.

End CryptoFacts.

(** ** Reading back what was written *)

Section ReaderFacts.

Lemma io_ReadFull_app (bs rest : list byte) :
  io_ReadFull (length bs) (bs ++ rest) = (Ok bs, rest).
Proof.
  unfold io_ReadFull.
  destruct bs as [|b bs]; [done|].
  cbn [length Nat.eqb app].
  destruct (Nat.ltb_spec (S (length (bs ++ rest))) (S (length bs))) as [Hlt|_].
  - rewrite length_app in Hlt. lia.
  - change (b :: bs ++ rest) with ((b :: bs) ++ rest).
    change (S (length bs)) with (length (b :: bs)).
    by rewrite take_app_length, drop_app_length.
Qed.

Lemma binary_Read_uint8_cons (b : byte) (rest : list byte) :
  binary_Read_uint8 (b :: rest) = (Ok b, rest).
Proof.
  unfold binary_Read_uint8, io_bind.
  change (b :: rest) with ([b] ++ rest).
  change 1 with (length [b]).
  by rewrite io_ReadFull_app.
Qed.

Lemma binary_Read_bytes_app (n : nat) (bs rest : list byte) :
  n = length bs -> binary_Read_bytes n (bs ++ rest) = (Ok bs, rest).
Proof. intros ->. apply io_ReadFull_app. Qed.

Lemma writePassword_Buffer (buf : Buffer) (password : string) :
  passwordmanager.writePassword buf password
  = Ok (buf ++ uint8 (String.length password) :: list_byte_of_string password).
Proof.
  unfold passwordmanager.writePassword, binary_Write_uint8, binary_Write_bytes.
  unfold Write, Buffer_Writer. cbn [bind].
  by rewrite length_list_byte_of_string, <- app_assoc.
Qed.

Lemma readPassword_written (password : string) (rest : list byte) :
  String.length password <= 255 ->
  passwordmanager.readPassword
    (uint8 (String.length password) :: list_byte_of_string password ++ rest)
  = (Ok password, rest).
Proof.
  intros Hlen. unfold passwordmanager.readPassword, io_bind.
  rewrite binary_Read_uint8_cons, uint8_small by done.
  rewrite binary_Read_bytes_app by (by rewrite length_list_byte_of_string).
  unfold io_ret. by rewrite string_of_list_byte_of_string.
Qed.

End ReaderFacts.

(** ** pkg/passwordmanager *)

(** C1. Password round-trip: for passwords [p1] and [p2] of at most 255
    bytes each, and a [Crypto] whose [Decrypt] undoes its [Encrypt],
    [SavePasswords] succeeds and stores the encryption of the plaintext
    [u8 len(p1) | p1 | u8 len(p2) | p2], each length byte holding the exact
    length, and [GetPasswords] on the resulting file system returns
    exactly [(p1, p2)]. *)
Theorem SavePasswords_GetPasswords_round_trip
    (C : Type) `(passwordmanager.Crypto C) (m : passwordmanager.LocalSaver C)
    (p1 p2 : string) (fs : FS) :
  (forall payload,
      passwordmanager.Decrypt (passwordmanager.crypto m)
        (passwordmanager.Encrypt (passwordmanager.crypto m) payload)
      = Ok payload) ->
  String.length p1 <= 255 ->
  String.length p2 <= 255 ->
  let plaintext :=
    uint8 (String.length p1) :: list_byte_of_string p1
      ++ uint8 (String.length p2) :: list_byte_of_string p2 in
  let fs' :=
    <[passwordmanager.PasswordFile (passwordmanager.cfg m) :=
        passwordmanager.Encrypt (passwordmanager.crypto m) plaintext]> fs in
  passwordmanager.SavePasswords m p1 p2 fs = (Ok tt, fs')
  /\ Byte.to_nat (uint8 (String.length p1)) = String.length p1
  /\ Byte.to_nat (uint8 (String.length p2)) = String.length p2
  /\ passwordmanager.GetPasswords m fs' = (Ok (p1, p2), fs').
Proof.
  intros Hcrypto Hp1 Hp2 plaintext fs'.
  split; [|split; [|split]].
  - unfold passwordmanager.SavePasswords, io_bind, io_lift, io_local.
    rewrite writePassword_Buffer. rewrite writePassword_Buffer.
    reflexivity.
  - by apply uint8_small.
  - by apply uint8_small.
  - unfold passwordmanager.GetPasswords, io_bind, io_lift, io_local, os_ReadFile.
    subst fs'. rewrite lookup_insert_eq, Hcrypto.
    subst plaintext. cbn [fst].
    rewrite readPassword_written by done.
    rewrite <- (app_nil_r (list_byte_of_string p2)).
    by rewrite readPassword_written.
Qed.

Lemma SavePasswords_GetPasswords_round_trip_witness :
  let m := {| passwordmanager.cfg := {| passwordmanager.PasswordFile := "/t/p.bin" |};
              passwordmanager.crypto := crypto.appCrypto |} in
  exists fs' : FS,
    passwordmanager.SavePasswords m "qwerty" "asdfgh" ∅ = (Ok tt, fs')
    /\ passwordmanager.GetPasswords m fs' = (Ok ("qwerty", "asdfgh"), fs').
Proof.
  intros m.
  destruct (SavePasswords_GetPasswords_round_trip
              crypto.AesCbc crypto.AesCbc_Crypto m "qwerty" "asdfgh" ∅)
    as (Hsave & _ & _ & Hget).
  - intros payload. apply AesCbc_Decrypt_Encrypt.
    + apply xorCipher_laws. reflexivity.
    + reflexivity.
  - simpl. lia.
  - simpl. lia.
  - eexists. split; [exact Hsave | exact Hget].
Defined.

(** ** pkg/filemanager: version rotation *)

Section VersionChain.

Lemma string_length_app (a b : string) :
  String.length (a +:+ b) = String.length a + String.length b.
Proof. induction a as [|c a IH]; simpl; [done | by rewrite IH]. Qed.

Lemma versionPath_inj (path : string) (i j : nat) :
  filemanager.versionPath path i = filemanager.versionPath path j -> i = j.
Proof.
  unfold filemanager.versionPath, filemanager.Sprintf_dot_d, Sprintf_d.
  destruct i as [|i], j as [|j]; intros Heq; try done.
  - apply (f_equal String.length) in Heq.
    rewrite string_length_app in Heq. simpl in Heq. lia.
  - apply (f_equal String.length) in Heq.
    rewrite string_length_app in Heq. simpl in Heq. lia.
  - apply (inj (String.append path)) in Heq.
    cbn [String.append] in Heq. injection Heq as Heq.
    by apply pretty_nat_inj in Heq.
Qed.

Lemma versionPath_ne (path : string) (i j : nat) :
  i <> j -> filemanager.versionPath path i <> filemanager.versionPath path j.
Proof. intros Hne Heq. by apply Hne, (versionPath_inj path). Qed.

(** The paths the loop body computes are those of the chain. *)
Lemma oldVersionPath_versionPath (path : string) (i : nat) :
  (if negb (Nat.eqb i 0) then path +:+ filemanager.Sprintf_dot_d i else path)
  = filemanager.versionPath path i.
Proof. by destruct i. Qed.

Lemma newVersionPath_versionPath (path : string) (i : nat) :
  path +:+ filemanager.Sprintf_dot_d (i + 1) = filemanager.versionPath path (S i).
Proof. by rewrite Nat.add_1_r. Qed.

(** The body at the oldest index removes that file. *)
Lemma shiftFileVersion_oldest (path : string) (o : nat) (fs : FS) :
  filemanager.shiftFileVersion o path o fs
  = delete (filemanager.versionPath path o) fs.
Proof.
  unfold filemanager.shiftFileVersion.
  rewrite oldVersionPath_versionPath, Nat.eqb_refl.
  unfold os_Stat, os_Remove.
  destruct (fs !! filemanager.versionPath path o) as [d|] eqn:E.
  - rewrite bool_decide_eq_true_2 by eauto. done.
  - rewrite bool_decide_eq_false_2 by (by intros [? ?]).
    simpl. by rewrite delete_id.
Qed.

(** The body below the oldest index renames a present file one index up
    and skips an absent one. *)
Lemma shiftFileVersion_rename (path : string) (o i : nat) (fs : FS) :
  i <> o ->
  filemanager.shiftFileVersion o path i fs
  = match fs !! filemanager.versionPath path i with
    | Some d => <[filemanager.versionPath path (S i) := d]>
                  (delete (filemanager.versionPath path i) fs)
    | None => fs
    end.
Proof.
  intros Hne. unfold filemanager.shiftFileVersion.
  rewrite oldVersionPath_versionPath, newVersionPath_versionPath.
  apply Nat.eqb_neq in Hne. rewrite Hne.
  unfold os_Stat, os_Rename.
  destruct (fs !! filemanager.versionPath path i) as [d|] eqn:E.
  - rewrite bool_decide_eq_true_2 by eauto. done.
  - rewrite bool_decide_eq_false_2 by (by intros [? ?]). done.
Qed.

(** One iteration, read through lookups: index [i] is vacated, its file (if
    any) is at index [i + 1] unless [i] is the oldest index, and no other
    path changes. The slot above [i] is free when the loop gets there. *)
Lemma shiftFileVersion_lookup (path : string) (o i : nat) (fs : FS) :
  i <= o ->
  (i < o -> fs !! filemanager.versionPath path (S i) = None) ->
  let fs1 := filemanager.shiftFileVersion o path i fs in
  fs1 !! filemanager.versionPath path i = None
  /\ (i < o -> fs1 !! filemanager.versionPath path (S i)
               = fs !! filemanager.versionPath path i)
  /\ (forall p, p <> filemanager.versionPath path i ->
                (i < o -> p <> filemanager.versionPath path (S i)) ->
                fs1 !! p = fs !! p).
Proof.
  intros Hio Hfree fs1. subst fs1.
  destruct (decide (i = o)) as [->|Hne].
  - rewrite shiftFileVersion_oldest. split; [|split].
    + apply lookup_delete_eq.
    + lia.
    + intros p Hp _. by rewrite lookup_delete_ne.
  - rewrite shiftFileVersion_rename by done.
    assert (Hlt : i < o) by lia.
    assert (Hidx : filemanager.versionPath path (S i)
                   <> filemanager.versionPath path i)
      by (apply versionPath_ne; lia).
    destruct (fs !! filemanager.versionPath path i) as [d|] eqn:E.
    + split; [|split].
      * rewrite lookup_insert_ne by done. apply lookup_delete_eq.
      * intros _. apply lookup_insert_eq.
      * intros p Hp Hp'. rewrite lookup_insert_ne by (apply not_eq_sym; auto).
        by rewrite lookup_delete_ne.
    + split; [done|]. split; [auto | done].
Qed.

(** The loop entered at [i]: every index up to [i] moves one up (as far as
    the oldest index allows), index 0 ends up vacant, and nothing else
    changes. *)
Lemma shiftFileVersionsFrom_lookup (path : string) (o : nat) :
  forall (i : nat) (fs : FS),
    i <= o ->
    (i < o -> fs !! filemanager.versionPath path (S i) = None) ->
    let fs' := filemanager.shiftFileVersionsFrom o path i fs in
    fs' !! filemanager.versionPath path 0 = None
    /\ (forall j, j <= i -> j < o ->
                  fs' !! filemanager.versionPath path (S j)
                  = fs !! filemanager.versionPath path j)
    /\ (forall p, p <> filemanager.versionPath path 0 ->
                  (forall j, j <= i -> j < o ->
                             p <> filemanager.versionPath path (S j)) ->
                  fs' !! p = fs !! p).
Proof.
  induction i as [|i IH]; intros fs Hio Hfree fs'; subst fs'.
  - cbn [filemanager.shiftFileVersionsFrom].
    destruct (shiftFileVersion_lookup path o 0 fs Hio Hfree) as (H0 & H1 & Hrest).
    split; [done|]. split.
    + intros j Hj Hlt. assert (j = 0) as -> by lia. auto.
    + intros p Hp Hp'. apply Hrest; [done|]. intros Hlt. apply Hp'; lia.
  - cbn [filemanager.shiftFileVersionsFrom].
    destruct (shiftFileVersion_lookup path o (S i) fs Hio Hfree)
      as (H0 & H1 & Hrest).
    set (fs1 := filemanager.shiftFileVersion o path (S i) fs) in *.
    destruct (IH fs1) as (IH0 & IHshift & IHrest); [lia | done |].
    split; [done|]. split.
    + intros j Hj Hlt. destruct (decide (j = S i)) as [->|Hne].
      * rewrite IHrest.
        -- by apply H1.
        -- apply versionPath_ne. lia.
        -- intros j' Hj' _. apply versionPath_ne. lia.
      * rewrite IHshift by lia.
        apply Hrest; [apply versionPath_ne; lia |].
        intros _. apply versionPath_ne. lia.
    + intros p Hp Hp'. rewrite IHrest.
      * apply Hrest.
        -- destruct (decide (S i <= o)); [|lia].
           apply (Hp' i); lia.
        -- intros Hlt. apply Hp'; lia.
      * done.
      * intros j Hj Hlt. apply Hp'; lia.
Qed.

End VersionChain.

(** C3. Version rotation: on a gap-free chain of [k <= V] files at
    [path, path.1, ..., path.(k-1)], with cap [V >= 1],
    [shiftFileVersions] leaves [path] absent; moves the file of every
    index [i] with [i + 1 < V] to index [i + 1] (absent indices stay
    absent: they are skipped); leaves nothing at index [V - 1] or above of
    what was at index [V - 1] (the oldest file is deleted); leaves the
    files exactly at the indices [1 .. min k (V - 1)], without gaps; is
    [delete path] when [V = 1]; and changes no path outside the chain. *)
Theorem shiftFileVersions_rotates_chain
    (cfg : filemanager.BackupperConfig) (path : string) (fs : FS) (k : nat) :
  1 <= filemanager.Versions cfg ->
  k <= filemanager.Versions cfg ->
  (forall i, is_Some (fs !! filemanager.versionPath path i) <-> i < k) ->
  let V := filemanager.Versions cfg in
  let fs' := filemanager.shiftFileVersions cfg path fs in
  fs' !! path = None
  /\ (forall i, i + 1 < V ->
                fs' !! filemanager.versionPath path (i + 1)
                = fs !! filemanager.versionPath path i)
  /\ (forall i, V <= i -> fs' !! filemanager.versionPath path i = None)
  /\ (forall i, is_Some (fs' !! filemanager.versionPath path i)
                <-> 1 <= i <= Nat.min k (V - 1))
  /\ (V = 1 -> fs' = delete path fs)
  /\ (forall p, (forall i, p <> filemanager.versionPath path i) ->
                fs' !! p = fs !! p).
Proof.
  intros HV Hk Hchain V fs'. subst V fs'.
  unfold filemanager.shiftFileVersions.
  destruct (filemanager.Versions cfg) as [|o] eqn:EV; [lia|].
  assert (Habove : forall i, S o <= i -> fs !! filemanager.versionPath path i = None).
  { intros i Hi. apply eq_None_not_Some. rewrite Hchain. lia. }
  destruct (shiftFileVersionsFrom_lookup path o o fs) as (H0 & Hshift & Hrest);
    [done | lia |].
  set (fs' := filemanager.shiftFileVersionsFrom o path o fs) in *.
  assert (Hhigh : forall i, S o <= i -> fs' !! filemanager.versionPath path i = None).
  { intros i Hi. rewrite Hrest.
    - by apply Habove.
    - apply versionPath_ne. lia.
    - intros j Hj Hlt. apply versionPath_ne. lia. }
  split; [exact H0|]. split; [|split; [|split; [|split]]].
  - intros i Hi. rewrite Nat.add_1_r. apply Hshift; lia.
  - exact Hhigh.
  - intros i. destruct i as [|i].
    + rewrite H0.
      split; [by intros [? ?] | lia].
    + destruct (decide (i < o)) as [Hlt|Hge].
      * rewrite Hshift by lia. rewrite Hchain. lia.
      * rewrite Hhigh by lia. split; [by intros [? ?] | lia].
  - intros HV1. assert (o = 0) as -> by lia.
    subst fs'. cbn [filemanager.shiftFileVersionsFrom].
    by rewrite shiftFileVersion_oldest.
  - intros p Hp. apply Hrest; [apply Hp|]. intros j _ _. apply Hp.
Qed.

Lemma twoVersions_chain (i : nat) :
  is_Some (scenario.twoVersions !! filemanager.versionPath "/out/a.txt" i)
  <-> i < 2.
Proof.
  unfold scenario.twoVersions.
  destruct i as [|[|i]].
  - split; [lia | by eexists].
  - split; [lia | by eexists].
  - rewrite lookup_insert_ne
      by exact (versionPath_ne "/out/a.txt" 0 (S (S i)) ltac:(lia)).
    rewrite lookup_singleton_ne
      by exact (versionPath_ne "/out/a.txt" 1 (S (S i)) ltac:(lia)).
    split; [by intros [? ?] | lia].
Qed.

Lemma shiftFileVersions_rotates_chain_witness :
  let fs' := filemanager.shiftFileVersions (scenario.receiver 2) "/out/a.txt"
               scenario.twoVersions in
  fs' !! "/out/a.txt" = None
  /\ fs' !! "/out/a.txt.1" = Some (list_byte_of_string "world")
  /\ fs' !! "/out/a.txt.2" = None.
Proof.
  intros fs'.
  destruct (shiftFileVersions_rotates_chain
              (scenario.receiver 2) "/out/a.txt" scenario.twoVersions 2)
    as (Hpath & Hshift & Hcap & _).
  - simpl. lia.
  - simpl. lia.
  - exact twoVersions_chain.
  - split; [exact Hpath|]. split.
    + exact (Hshift 0 ltac:(simpl; lia)).
    + exact (Hcap 2 ltac:(simpl; lia)).
Defined.

(** ** pkg/filemanager: framing *)

Section Framing.

Lemma writeFilename_Buffer (name : string) (buf : Buffer) :
  filemanager.writeFilename name buf
  = Ok (buf ++ uint8 (String.length name) :: list_byte_of_string name).
Proof.
  unfold filemanager.writeFilename, binary_Write_uint8, binary_Write_bytes.
  unfold Write, Buffer_Writer. cbn [bind].
  by rewrite length_list_byte_of_string, <- app_assoc.
Qed.

(** A complete header followed by [content]: the receiver takes the name
    as it comes, rotates the versions at its path and saves the content
    there. *)
Lemma receiveFile_frame
    (disk : Disk) (cfg : filemanager.BackupperConfig)
    (name content : list byte) (fs : FS) :
  length name <= 255 ->
  let path := (filemanager.DestinationDir cfg +:+ filemanager.os_PathSeparator)
                +:+ string_of_list_byte name in
  filemanager.receiveFile disk cfg (uint8 (length name) :: name ++ content, fs)
  = filemanager.saveFile disk path
      (content, filemanager.shiftFileVersions cfg path fs).
Proof.
  intros Hlen path. subst path.
  unfold filemanager.receiveFile, io_bind, io_on_fst, io_on_snd.
  rewrite binary_Read_uint8_cons, uint8_small by done.
  by rewrite binary_Read_bytes_app.
Qed.

Lemma saveFile_created (disk : Disk) (path : string) (content : list byte) (fs : FS) :
  os_Create disk path fs = None ->
  io_Copy disk path content = None ->
  filemanager.saveFile disk path (content, fs)
  = (Ok tt, ([], <[path := content]> fs)).
Proof. intros Hcreate Hcopy. unfold filemanager.saveFile. by rewrite Hcreate, Hcopy. Qed.

Lemma saveFile_refused (disk : Disk) (path : string) (content : list byte)
    (fs : FS) (err : error) :
  os_Create disk path fs = Some err ->
  filemanager.saveFile disk path (content, fs) = (Err err, (content, fs)).
Proof. intros Hcreate. unfold filemanager.saveFile. by rewrite Hcreate. Qed.

Lemma saveFile_interrupted (disk : Disk) (path : string) (content : list byte)
    (fs : FS) (failure : CopyFailure) :
  os_Create disk path fs = None ->
  io_Copy disk path content = Some failure ->
  filemanager.saveFile disk path (content, fs)
  = (Err (copyError failure),
     (drop (bytesRead failure) content,
      <[path := take (bytesWritten failure) content]> fs)).
Proof. intros Hcreate Hcopy. unfold filemanager.saveFile. by rewrite Hcreate, Hcopy. Qed.

(** The raw-mode sender and the receiver, end to end: the source file
    arrives under the base name of its path. *)
Lemma sendSourceFile_receiveFile
    (disk : Disk) (filepath_Base : string -> string)
    (sender receiver : filemanager.BackupperConfig)
    (content : list byte) (senderFS receiverFS : FS) :
  senderFS !! filemanager.SourceEntry sender = Some content ->
  String.length (filepath_Base (filemanager.SourceEntry sender)) <= 255 ->
  let path := (filemanager.DestinationDir receiver +:+ filemanager.os_PathSeparator)
                +:+ filepath_Base (filemanager.SourceEntry sender) in
  os_Create disk path (filemanager.shiftFileVersions receiver path receiverFS) = None ->
  io_Copy disk path content = None ->
  exists frame : Buffer,
    filemanager.sendSourceFile filepath_Base sender ([] : Buffer) senderFS = Ok frame
    /\ filemanager.receiveFile disk receiver (frame, receiverFS)
       = (Ok tt, ([], <[path := content]>
                        (filemanager.shiftFileVersions receiver path receiverFS))).
Proof.
  intros Hsrc Hlen path Hcreate Hcopy. subst path.
  unfold filemanager.sendSourceFile, filemanager.writeFile.
  rewrite writeFilename_Buffer, Hsrc. cbn [bind app].
  eexists. split; [reflexivity|].
  unfold Write, Buffer_Writer. rewrite <- app_comm_cons.
  rewrite <- (length_list_byte_of_string
                (filepath_Base (filemanager.SourceEntry sender))).
  rewrite receiveFile_frame by (by rewrite length_list_byte_of_string).
  rewrite string_of_list_byte_of_string.
  by apply saveFile_created.
Qed.

End Framing.

(** C4 (as the code has it). For a filename [n] of 1 to 255 bytes and any
    content [c], what the sender writes ([writeFilename], then the content)
    is the frame [u8 len(n) | n | c], the length byte holding the exact
    length, and [receiveFile] on that frame takes exactly [n] as the name:
    it rotates the versions at [DestinationDir/n] and calls [os.Create]
    there. When [os.Create] accepts the path and [io.Copy] runs to the
    end, the frame is consumed entirely and exactly [c] is saved under
    [n]. When [os.Create] refuses, [receiveFile] returns its error and
    [c] is left unread; when [io.Copy] stops early, [receiveFile] returns
    its error and the file holds what was written of [c]. *)
Theorem framing_round_trip
    (disk : Disk) (cfg : filemanager.BackupperConfig)
    (n : string) (c : list byte) (fs : FS) :
  1 <= String.length n <= 255 ->
  let path := (filemanager.DestinationDir cfg +:+ "/") +:+ n in
  let rotated := filemanager.shiftFileVersions cfg path fs in
  exists frame : Buffer,
    (let! w := filemanager.writeFilename n ([] : Buffer) in Write w c) = Ok frame
    /\ frame = uint8 (String.length n) :: list_byte_of_string n ++ c
    /\ Byte.to_nat (uint8 (String.length n)) = String.length n
    /\ (os_Create disk path rotated = None ->
        io_Copy disk path c = None ->
        filemanager.receiveFile disk cfg (frame, fs)
        = (Ok tt, ([], <[path := c]> rotated)))
    /\ (forall err,
           os_Create disk path rotated = Some err ->
           filemanager.receiveFile disk cfg (frame, fs) = (Err err, (c, rotated)))
    /\ (forall failure,
           os_Create disk path rotated = None ->
           io_Copy disk path c = Some failure ->
           filemanager.receiveFile disk cfg (frame, fs)
           = (Err (copyError failure),
              (drop (bytesRead failure) c,
               <[path := take (bytesWritten failure) c]> rotated))).
Proof.
  intros [_ Hlen] path rotated. subst path rotated.
  exists (uint8 (String.length n) :: list_byte_of_string n ++ c).
  assert (Hframe :
            filemanager.receiveFile disk cfg
              (uint8 (String.length n) :: list_byte_of_string n ++ c, fs)
            = filemanager.saveFile disk ((filemanager.DestinationDir cfg +:+ "/") +:+ n)
                (c, filemanager.shiftFileVersions cfg
                      ((filemanager.DestinationDir cfg +:+ "/") +:+ n) fs)).
  { rewrite <- (length_list_byte_of_string n).
    rewrite receiveFile_frame by (by rewrite length_list_byte_of_string).
    by rewrite string_of_list_byte_of_string. }
  split; [|split; [done|split; [|split; [|split]]]].
  - by rewrite writeFilename_Buffer.
  - by apply uint8_small.
  - intros Hcreate Hcopy. etrans; [exact Hframe|]. by apply saveFile_created.
  - intros err Hcreate. etrans; [exact Hframe|]. by apply saveFile_refused.
  - intros failure Hcreate Hcopy. etrans; [exact Hframe|].
    by apply saveFile_interrupted.
Qed.

Lemma framing_round_trip_witness :
  exists frame : Buffer,
    (let! w := filemanager.writeFilename "a.txt" ([] : Buffer) in
     Write w (list_byte_of_string "hello")) = Ok frame
    /\ filemanager.receiveFile scenario.disk (scenario.receiver 1) (frame, ∅)
       = (Ok tt, ([], {[ "/out/a.txt" := list_byte_of_string "hello" ]}))
    /\ filemanager.receiveFile scenario.fullDisk (scenario.receiver 1) (frame, ∅)
       = (Err (errOther "no space left on device"),
          ([], {[ "/out/a.txt" := list_byte_of_string "he" ]})).
Proof.
  destruct (framing_round_trip scenario.disk (scenario.receiver 1) "a.txt"
              (list_byte_of_string "hello") ∅)
    as (frame & Hsend & Hframe & _ & Hrecv & _ & _); [simpl; lia|].
  destruct (framing_round_trip scenario.fullDisk (scenario.receiver 1) "a.txt"
              (list_byte_of_string "hello") ∅)
    as (frame' & _ & Hframe' & _ & _ & _ & Hfull); [simpl; lia|].
  exists frame. split; [exact Hsend|]. split.
  - apply Hrecv; reflexivity.
  - rewrite Hframe, <- Hframe'.
    apply (Hfull {| bytesRead := 5; bytesWritten := 2;
                    copyError := errOther "no space left on device" |});
      reflexivity.
Defined.

(** C4 (as stated) fails: [.] is a filename of one byte, and its frame is
    not decoded into a name and a content. With [-v=0] nothing is rotated;
    [os.Create] refuses [/out/.], a directory, so [receiveFile] returns
    that error; the content is left unread and no file holds it. *)
Lemma framing_round_trip_counterexample :
  1 <= String.length "." <= 255
  /\ (let! w := filemanager.writeFilename "." ([] : Buffer) in
      Write w (list_byte_of_string "hello"))
     = Ok (uint8 1 :: list_byte_of_string "." ++ list_byte_of_string "hello")
  /\ filemanager.receiveFile scenario.disk (scenario.receiver 0)
       (uint8 1 :: list_byte_of_string "." ++ list_byte_of_string "hello", ∅)
     = (Err (errOther "open /out/.: is a directory"),
        (list_byte_of_string "hello", ∅)).
Proof. split; [simpl; lia|]. split; reflexivity. Qed.

(** C2 (as the code has it). [receiveFile] applies no check to the received
    name: for a frame whose name contains a path separator it rotates the
    versions at [DestinationDir + "/" + name] and calls [os.Create] there,
    as for any other name. When [os.Create] accepts the path and
    [io.Copy] runs to the end, it reports success and the content is saved
    at that path, which may lie outside the destination directory. It
    fails only with the error of [os.Create], the content left unread, or
    with the error of [io.Copy]. *)
Theorem receiveFile_accepts_path_separators
    (disk : Disk) (cfg : filemanager.BackupperConfig)
    (name content : list byte) (fs : FS) :
  length name <= 255 ->
  strings_Contains (string_of_list_byte name) filemanager.os_PathSeparator = true ->
  let path := (filemanager.DestinationDir cfg +:+ "/") +:+ string_of_list_byte name in
  let rotated := filemanager.shiftFileVersions cfg path fs in
  let received :=
    filemanager.receiveFile disk cfg (uint8 (length name) :: name ++ content, fs) in
  (os_Create disk path rotated = None ->
   io_Copy disk path content = None ->
   received = (Ok tt, ([], <[path := content]> rotated)))
  /\ (forall err,
         os_Create disk path rotated = Some err ->
         received = (Err err, (content, rotated)))
  /\ (forall failure,
         os_Create disk path rotated = None ->
         io_Copy disk path content = Some failure ->
         received
         = (Err (copyError failure),
            (drop (bytesRead failure) content,
             <[path := take (bytesWritten failure) content]> rotated))).
Proof.
  intros Hlen _ path rotated received. subst received rotated path.
  rewrite receiveFile_frame by done.
  split; [|split].
  - intros Hcreate Hcopy. by apply saveFile_created.
  - intros err Hcreate. by apply saveFile_refused.
  - intros failure Hcreate Hcopy. by apply saveFile_interrupted.
Qed.

Lemma receiveFile_accepts_path_separators_witness :
  filemanager.receiveFile scenario.disk (scenario.receiver 1)
    (uint8 11 :: list_byte_of_string scenario.escapingName
       ++ list_byte_of_string "x", ∅)
  = (Ok tt, ([], {[ "/out/../evil.txt" := list_byte_of_string "x" ]}))
  /\ filemanager.receiveFile scenario.disk (scenario.receiver 1)
       (uint8 14 :: list_byte_of_string "nodir/evil.txt"
          ++ list_byte_of_string "x", ∅)
     = (Err (fs_ErrNotExist "/out/nodir/evil.txt"), (list_byte_of_string "x", ∅)).
Proof.
  destruct (receiveFile_accepts_path_separators scenario.disk (scenario.receiver 1)
              (list_byte_of_string scenario.escapingName)
              (list_byte_of_string "x") ∅)
    as (Hcreated & _ & _); [simpl; lia | reflexivity |].
  destruct (receiveFile_accepts_path_separators scenario.disk (scenario.receiver 1)
              (list_byte_of_string "nodir/evil.txt")
              (list_byte_of_string "x") ∅)
    as (_ & Hrefused & _); [simpl; lia | reflexivity |].
  split.
  - etrans; [apply Hcreated; reflexivity | reflexivity].
  - etrans; [apply Hrefused; reflexivity | reflexivity].
Defined.

(** C2 (as stated) fails: the frame naming [../evil.txt] is not rejected;
    on a disk that creates the file, the receiver reports success and
    [/out/../evil.txt] holds the content. *)
Lemma receiveFile_rejects_separator_counterexample :
  strings_Contains scenario.escapingName filemanager.os_PathSeparator = true
  /\ filemanager.receiveFile scenario.disk (scenario.receiver 1)
       (uint8 11 :: list_byte_of_string scenario.escapingName
          ++ list_byte_of_string "x", ∅)
     = (Ok tt, ([], {[ "/out/../evil.txt" := list_byte_of_string "x" ]})).
Proof. split; reflexivity. Qed.

(** C10. A filename longer than 255 bytes does not make the header encoder
    fail: on a writer that accepts its input, [writeFilename] writes the
    single byte [len(name) mod 256] followed by all the bytes of the name,
    so the declared length differs from the number of name bytes written. *)
Theorem writeFilename_truncates_length (name : string) (buf : Buffer) :
  255 < String.length name ->
  filemanager.writeFilename name buf
  = Ok (buf ++ uint8 (String.length name) :: list_byte_of_string name)
  /\ Byte.to_nat (uint8 (String.length name)) = String.length name mod 256
  /\ length (list_byte_of_string name) = String.length name
  /\ Byte.to_nat (uint8 (String.length name)) <> length (list_byte_of_string name).
Proof.
  intros Hlong.
  split; [apply writeFilename_Buffer|].
  split; [apply uint8_to_nat|].
  split; [apply length_list_byte_of_string|].
  rewrite uint8_to_nat, length_list_byte_of_string.
  pose proof (Nat.mod_upper_bound (String.length name) 256). lia.
Qed.

Lemma writeFilename_truncates_length_witness :
  filemanager.writeFilename scenario.longName ([] : Buffer)
  = Ok (uint8 300 :: repeat "a"%byte 300)
  /\ Byte.to_nat (uint8 300) = 44.
Proof.
  destruct (writeFilename_truncates_length scenario.longName [])
    as (Hw & Hlen & _).
  - vm_compute. lia.
  - split; [exact Hw | reflexivity].
Defined.

(** ** pkg/signal: requests and status codes *)

Section Requests.

Context (codec : signal.Codec) {H : Type}.

(** [request] sends its request once or more (once per 429 answer, and
    once more), and nothing else. *)
Lemma doUntilAnswered_sent (req : signal.Request)
    (answers : list (result signal.Response)) :
  forall (sent : list signal.Request) r net',
    signal.doUntilAnswered req answers sent = (r, net') ->
    exists k, signal.sent net' = sent ++ repeat req (S k).
Proof.
  induction answers as [|[resp|e] rest IH]; intros sent r net' Hrun;
    cbn [signal.doUntilAnswered] in Hrun.
  - injection Hrun as _ <-. by exists 0.
  - destruct (Z.eqb (signal.StatusCode resp) signal.StatusTooManyRequests).
    + apply IH in Hrun as [k Hk]. exists (S k).
      rewrite Hk, <- app_assoc. done.
    + injection Hrun as _ <-. by exists 0.
  - injection Hrun as _ <-. by exists 0.
Qed.

Lemma request_sent (s : signal.FileIo H) (method urn : string)
    (headers : list (string * string)) (body : list byte)
    (net net' : signal.Net) r :
  signal.request s method urn headers body net = (r, net') ->
  exists k, signal.sent net'
            = signal.sent net
                ++ repeat (signal.newRequest s method urn headers body) (S k).
Proof. apply doUntilAnswered_sent. Qed.

(** A 429 never leaves [request]. *)
Lemma doUntilAnswered_not_429 (req : signal.Request)
    (answers : list (result signal.Response)) :
  forall (sent : list signal.Request) resp net',
    signal.doUntilAnswered req answers sent = (Ok resp, net') ->
    signal.StatusCode resp <> signal.StatusTooManyRequests.
Proof.
  induction answers as [|[resp0|e] rest IH]; intros sent resp net' Hrun;
    cbn [signal.doUntilAnswered] in Hrun; try done.
  destruct (Z.eqb_spec (signal.StatusCode resp0) signal.StatusTooManyRequests).
  - by apply IH in Hrun.
  - by injection Hrun as <- _.
Qed.

End Requests.

(** C9 (as the code has it). Given the response [request] hands back (never
    a 429, which [request] retries), [downloadFile] succeeds only for the
    statuses 200 and 404, and under either status it returns what the JSON
    decoder makes of the body, content or error, verbatim: a 404 is decoded
    like a 200 and is not replaced by empty content. [deleteFile] succeeds
    exactly for the statuses 200 and 403. Any other status is returned as a
    response-status error. *)
Theorem downloadFile_deleteFile_status_allow_lists
    (codec : signal.Codec) (H : Type) (s : signal.FileIo H) (fileKey : string)
    (net netG netD : signal.Net) (respG respD : signal.Response) :
  signal.request s "GET" ("/" +:+ fileKey) [("Accept", "*/*")] [] net
    = (Ok respG, netG) ->
  signal.request s "DELETE" ("/" +:+ fileKey) [("Accept", "application/json")] [] net
    = (Ok respD, netD) ->
  (forall content n, signal.downloadFile codec s fileKey net = (Ok content, n) ->
                     signal.StatusCode respG = 200%Z \/ signal.StatusCode respG = 404%Z)
  /\ (signal.StatusCode respG = 200%Z \/ signal.StatusCode respG = 404%Z ->
      signal.downloadFile codec s fileKey net
      = (signal.json_Decode (signal.unmarshalContent codec) (signal.Body respG), netG))
  /\ (signal.StatusCode respG <> 200%Z -> signal.StatusCode respG <> 404%Z ->
      signal.downloadFile codec s fileKey net
      = (Err (errResponseStatus (signal.StatusCode respG)), netG))
  /\ (signal.StatusCode respD = 200%Z \/ signal.StatusCode respD = 403%Z ->
      signal.deleteFile s fileKey net = (Ok tt, netD))
  /\ (signal.StatusCode respD <> 200%Z -> signal.StatusCode respD <> 403%Z ->
      signal.deleteFile s fileKey net
      = (Err (errResponseStatus (signal.StatusCode respD)), netD))
  /\ signal.StatusCode respG <> 429%Z
  /\ signal.StatusCode respD <> 429%Z.
Proof.
  intros Hget Hdel.
  assert (Hdown :
    signal.downloadFile codec s fileKey net
    = (if negb (Z.eqb (signal.StatusCode respG) 200)
          && negb (Z.eqb (signal.StatusCode respG) 404)
       then Err (errResponseStatus (signal.StatusCode respG))
       else signal.json_Decode (signal.unmarshalContent codec) (signal.Body respG),
       netG)).
  { unfold signal.downloadFile, io_bind. rewrite Hget.
    unfold signal.StatusOK, signal.StatusNotFound.
    destruct (negb (Z.eqb (signal.StatusCode respG) 200) && _); reflexivity. }
  assert (Hrm :
    signal.deleteFile s fileKey net
    = (if negb (Z.eqb (signal.StatusCode respD) 200)
          && negb (Z.eqb (signal.StatusCode respD) 403)
       then Err (errResponseStatus (signal.StatusCode respD))
       else Ok tt,
       netD)).
  { unfold signal.deleteFile, io_bind. rewrite Hdel.
    unfold signal.StatusOK, signal.StatusForbidden.
    destruct (negb (Z.eqb (signal.StatusCode respD) 200) && _); reflexivity. }
  repeat split.
  - intros content n Hok. rewrite Hdown in Hok.
    destruct (Z.eqb_spec (signal.StatusCode respG) 200); [by left|].
    destruct (Z.eqb_spec (signal.StatusCode respG) 404); [by right|].
    discriminate Hok.
  - intros [Hst|Hst]; rewrite Hdown, Hst; reflexivity.
  - intros Hn1 Hn2. rewrite Hdown.
    apply Z.eqb_neq in Hn1, Hn2. by rewrite Hn1, Hn2.
  - intros [Hst|Hst]; rewrite Hrm, Hst; reflexivity.
  - intros Hn1 Hn2. rewrite Hrm.
    apply Z.eqb_neq in Hn1, Hn2. by rewrite Hn1, Hn2.
  - exact (doUntilAnswered_not_429 _ _ _ _ _ Hget).
  - exact (doUntilAnswered_not_429 _ _ _ _ _ Hdel).
Qed.

Lemma downloadFile_deleteFile_status_allow_lists_witness :
  signal.downloadFile scenario.codec scenario.fileIo "k2"
    (scenario.network [scenario.answer 200 "an offer"])
  = (Ok {| signal.Type_ := "sdp"; signal.Payload := list_byte_of_string "offer" |},
     {| signal.answers := [];
        signal.sent := [signal.newRequest scenario.fileIo "GET" "/k2"
                          [("Accept", "*/*")] []] |})
  /\ signal.deleteFile scenario.fileIo "k2"
       (scenario.network [scenario.answer 200 "an offer"])
     = (Ok tt,
        {| signal.answers := [];
           signal.sent := [signal.newRequest scenario.fileIo "DELETE" "/k2"
                             [("Accept", "application/json")] []] |}).
Proof.
  destruct (downloadFile_deleteFile_status_allow_lists
              scenario.codec _ scenario.fileIo "k2"
              (scenario.network [scenario.answer 200 "an offer"])
              {| signal.answers := [];
                 signal.sent := [signal.newRequest scenario.fileIo "GET" "/k2"
                                   [("Accept", "*/*")] []] |}
              {| signal.answers := [];
                 signal.sent := [signal.newRequest scenario.fileIo "DELETE" "/k2"
                                   [("Accept", "application/json")] []] |}
              {| signal.StatusCode := 200;
                 signal.Body := list_byte_of_string "an offer" |}
              {| signal.StatusCode := 200;
                 signal.Body := list_byte_of_string "an offer" |})
    as (_ & Hdown & _ & Hdel & _).
  - reflexivity.
  - reflexivity.
  - split.
    + rewrite Hdown by (by left). reflexivity.
    + apply Hdel. by left.
Defined.

(** C9 (as stated) fails: a 404 whose body is empty is not turned into
    empty content; whatever the JSON parser, the decoder's [io.EOF] comes
    back as the error of the download. *)
Lemma downloadFile_not_found_counterexample :
  (forall codec : signal.Codec,
      signal.downloadFile codec scenario.fileIo "k2" (scenario.answering 404)
      = (Err io_EOF,
         {| signal.answers := [];
            signal.sent := [signal.newRequest scenario.fileIo "GET" "/k2"
                              [("Accept", "*/*")] []] |}))
  /\ ~ (exists (codec : signal.Codec) (net' : signal.Net),
           signal.downloadFile codec scenario.fileIo "k2" (scenario.answering 404)
           = (Ok {| signal.Type_ := ""; signal.Payload := [] |}, net')).
Proof.
  assert (Hrun : forall codec : signal.Codec,
      signal.downloadFile codec scenario.fileIo "k2" (scenario.answering 404)
      = (Err io_EOF,
         {| signal.answers := [];
            signal.sent := [signal.newRequest scenario.fileIo "GET" "/k2"
                              [("Accept", "*/*")] []] |}))
    by (intros codec; reflexivity).
  split; [exact Hrun|].
  intros (codec & net' & Hok). rewrite Hrun in Hok. discriminate Hok.
Qed.

(** ** pkg/signal: role election and the polling loop *)

Section Mailbox.

Context (codec : signal.Codec) {H : Type}.

Lemma findFiles_sent (s : signal.FileIo H) (pattern : string)
    (net net' : signal.Net) r :
  signal.findFiles codec s pattern net = (r, net') ->
  exists k, signal.sent net'
            = signal.sent net
                ++ repeat (signal.newRequest s "GET"
                             ("/?search=" +:+ pattern +:+ "&sort=created:asc")
                             [("Accept", "application/json")] []) (S k).
Proof.
  unfold signal.findFiles, io_bind. intros Hrun.
  destruct (signal.request s "GET" _ _ _ net) as [[resp|e] net1] eqn:Hreq.
  - apply request_sent in Hreq.
    destruct (negb _) in Hrun; injection Hrun as _ <-; exact Hreq.
  - apply request_sent in Hreq. injection Hrun as _ <-. exact Hreq.
Qed.

Lemma uploadFile_sent (s : signal.FileIo H) (name : string)
    (content : signal.fileIoFileContent) (net net' : signal.Net) r :
  signal.uploadFile codec s name content net = (r, net') ->
  exists k, signal.sent net'
            = signal.sent net
                ++ repeat (signal.newRequest s "POST" "/"
                             [("Accept", "application/json");
                              ("Content-Type",
                               "multipart/form-data; boundary=---011000010111000001101001")]
                             (signal.multipartForm codec name content)) (S k).
Proof.
  unfold signal.uploadFile, io_bind. intros Hrun.
  destruct (signal.request s "POST" _ _ _ net) as [[resp|e] net1] eqn:Hreq.
  - apply request_sent in Hreq.
    destruct (negb _) in Hrun; injection Hrun as _ <-; exact Hreq.
  - apply request_sent in Hreq. injection Hrun as _ <-. exact Hreq.
Qed.

Lemma deleteFile_sent (s : signal.FileIo H) (fileKey : string) (net : signal.Net) :
  exists k, signal.sent (snd (signal.deleteFile s fileKey net))
            = signal.sent net
                ++ repeat (signal.newRequest s "DELETE" ("/" +:+ fileKey)
                             [("Accept", "application/json")] []) (S k).
Proof.
  unfold signal.deleteFile, io_bind.
  destruct (signal.request s "DELETE" _ _ _ net) as [[resp|e] net1] eqn:Hreq.
  - apply request_sent in Hreq. by destruct (negb _ && _).
  - apply request_sent in Hreq. done.
Qed.

(** The deleting loop of [Ping] and [cleanUp]: every entry of the listing
    gets its DELETE, in listing order, once or more (a 429 is retried). *)
Lemma delete_range_sent (s : signal.FileIo H) (nodes : list signal.fileIoNode) :
  forall net : signal.Net,
  exists attempts : list nat,
    length attempts = length nodes
    /\ signal.sent
         (signal.range nodes
            (fun node net => snd (signal.deleteFile s (signal.Key node) net)) net)
       = signal.sent net
           ++ concat (zip_with
                        (fun node k =>
                           repeat (signal.newRequest s "DELETE"
                                     ("/" +:+ signal.Key node)
                                     [("Accept", "application/json")] []) (S k))
                        nodes attempts).
Proof.
  unfold signal.range.
  induction nodes as [|node nodes IH]; intros net.
  - exists []. split; [done|]. cbn. by rewrite app_nil_r.
  - cbn [fold_left].
    destruct (deleteFile_sent s (signal.Key node) net) as [k Hk].
    destruct (IH (snd (signal.deleteFile s (signal.Key node) net)))
      as (attempts & Hlen & Hsent).
    exists (k :: attempts). split; [cbn; by rewrite Hlen|].
    rewrite Hsent, Hk. cbn [zip_with concat]. by rewrite <- app_assoc.
Qed.

(** Entries of the own instance leave no trace in the polling loop. *)
Lemma sniffNode_own (s : signal.FileIo H) (node : signal.fileIoNode)
    (st : signal.Net * H) :
  strings_Contains (signal.Name node) (signal.InstanceID (signal.cfg s)) = true ->
  signal.sniffNode codec s node st = st.
Proof. intros Hown. destruct st as [net h]. cbn. by rewrite Hown. Qed.

Lemma sniff_range_filter (s : signal.FileIo H) (nodes : list signal.fileIoNode) :
  forall st : signal.Net * H,
    signal.range nodes (signal.sniffNode codec s) st
    = signal.range
        (filter (fun node =>
                   strings_Contains (signal.Name node)
                                    (signal.InstanceID (signal.cfg s)) = false)
                nodes)
        (signal.sniffNode codec s) st.
Proof.
  unfold signal.range.
  induction nodes as [|node nodes IH]; intros st; [done|].
  cbn [fold_left]. rewrite filter_cons.
  destruct (strings_Contains (signal.Name node) _) eqn:Hown.
  - rewrite decide_False by done. rewrite sniffNode_own by done. apply IH.
  - rewrite decide_True by done. cbn [fold_left]. apply IH.
Qed.

End Mailbox.

Lemma Forall_repeat {A} (P : A -> Prop) (x : A) (n : nat) :
  P x -> Forall P (repeat x n).
Proof. intros Hx. induction n; by constructor. Qed.

(** C7 (as the code has it). Role election, for every state of the
    mailbox. [Ping] first searches: it hands [Do] a GET for
    [https://file.io/?search=${SessionID}_ping&sort=created:asc], with the
    API key as [Authorization]; when the search fails, [Ping] returns its
    error. When the search lists no entry, [Ping] uploads the ping entry
    named [${SessionID}_ping_${InstanceID}.json] in a POST to
    [https://file.io/]; it returns [ErrNoCandidatesFound] when the upload
    is accepted and the error of the upload when it is not. When the
    search lists at least one entry, [Ping] sends a DELETE for
    [https://file.io/key] for every listed entry, in listing order, and
    returns success whatever the deletions answer. A hand-over that
    follows a 429 repeats the request; of a repeated POST only the method,
    the URL and the headers are stated, its body having been read by the
    first hand-over. *)
Theorem Ping_role_election
    (codec : signal.Codec) (H : Type) (s : signal.FileIo H) (net : signal.Net) :
  let accept := ("Accept", "application/json") in
  let authorization := ("Authorization", signal.APIKey (signal.cfg s)) in
  let contentType :=
    ("Content-Type", "multipart/form-data; boundary=---011000010111000001101001") in
  let search :=
    {| signal.Method := "GET";
       signal.URL := "https://file.io" +:+ "/?search="
                       +:+ (signal.SessionID (signal.cfg s) +:+ "_" +:+ "ping")
                       +:+ "&sort=created:asc";
       signal.Header := [accept; authorization];
       signal.ReqBody := [] |} in
  let upload :=
    {| signal.Method := "POST";
       signal.URL := "https://file.io/";
       signal.Header := [accept; contentType; authorization];
       signal.ReqBody :=
         signal.multipartForm codec
           (signal.SessionID (signal.cfg s) +:+ "_" +:+ "ping"
              +:+ "_" +:+ signal.InstanceID (signal.cfg s) +:+ ".json")
           {| signal.Type_ := "ping"; signal.Payload := [] |} |} in
  let delete := fun node =>
    {| signal.Method := "DELETE";
       signal.URL := "https://file.io" +:+ "/" +:+ signal.Key node;
       signal.Header := [accept; authorization];
       signal.ReqBody := [] |} in
  (forall r net1,
      signal.findPing codec s net = (r, net1) ->
      exists k, signal.sent net1 = signal.sent net ++ repeat search (S k))
  /\ (forall e net1,
         signal.findPing codec s net = (Err e, net1) ->
         signal.Ping codec s net = (Err e, net1))
  /\ (forall files net1,
         signal.findPing codec s net = (Ok files, net1) ->
         signal.Nodes files = [] ->
         forall r net2,
           signal.uploadPing codec s net1 = (r, net2) ->
           signal.Ping codec s net
           = (match r with
              | Ok _ => Err ErrNoCandidatesFound
              | Err e => Err e
              end, net2)
           /\ exists retries,
               signal.sent net2 = signal.sent net1 ++ upload :: retries
               /\ Forall (fun req => signal.Method req = "POST"
                                     /\ signal.URL req = "https://file.io/"
                                     /\ signal.Header req
                                        = [accept; contentType; authorization])
                         retries)
  /\ (forall files net1,
         signal.findPing codec s net = (Ok files, net1) ->
         signal.Nodes files <> [] ->
         exists (net2 : signal.Net) (attempts : list nat),
           signal.Ping codec s net = (Ok tt, net2)
           /\ length attempts = length (signal.Nodes files)
           /\ signal.sent net2
              = signal.sent net1
                  ++ concat (zip_with (fun node k => repeat (delete node) (S k))
                                      (signal.Nodes files) attempts)).
Proof.
  intros accept authorization contentType search upload delete.
  split; [|split; [|split]].
  - intros r net1 Hfind.
    exact (findFiles_sent codec s _ _ _ _ Hfind).
  - intros e net1 Hfind. unfold signal.Ping, io_bind. by rewrite Hfind.
  - intros files net1 Hfind Hnone r net2 Hup. split.
    + unfold signal.Ping, io_bind. rewrite Hfind, Hnone. cbn [length Nat.eqb].
      rewrite Hup. by destruct r.
    + destruct (uploadFile_sent codec s _ _ _ _ _ Hup) as [k Hsent].
      exists (repeat upload k). split; [exact Hsent|].
      by apply Forall_repeat.
  - intros files net1 Hfind Hsome.
    destruct (delete_range_sent s (signal.Nodes files) net1)
      as (attempts & Hlen & Hsent).
    eexists _, attempts. split; [|split; [exact Hlen | exact Hsent]].
    unfold signal.Ping, io_bind. rewrite Hfind.
    destruct (signal.Nodes files) as [|node nodes]; [done|]. reflexivity.
Qed.

Lemma Ping_role_election_witness :
  signal.Ping scenario.codec scenario.fileIo
    (scenario.network [scenario.answer 200 "no entries"; scenario.answer 200 ""])
  = (Err ErrNoCandidatesFound,
     {| signal.answers := [];
        signal.sent :=
          [{| signal.Method := "GET";
              signal.URL := "https://file.io/?search=91c04021_ping&sort=created:asc";
              signal.Header := [("Accept", "application/json");
                                ("Authorization", "key")];
              signal.ReqBody := [] |};
           {| signal.Method := "POST";
              signal.URL := "https://file.io/";
              signal.Header :=
                [("Accept", "application/json");
                 ("Content-Type",
                  "multipart/form-data; boundary=---011000010111000001101001");
                 ("Authorization", "key")];
              signal.ReqBody :=
                signal.multipartForm scenario.codec "91c04021_ping_inst-A.json"
                  {| signal.Type_ := "ping"; signal.Payload := [] |} |}] |}).
Proof.
  destruct (Ping_role_election scenario.codec _ scenario.fileIo
              (scenario.network
                 [scenario.answer 200 "no entries"; scenario.answer 200 ""]))
    as (_ & _ & Hnone & _).
  destruct (Hnone {| signal.Nodes := [] |}
              {| signal.answers := [scenario.answer 200 ""];
                 signal.sent :=
                   [{| signal.Method := "GET";
                       signal.URL :=
                         "https://file.io/?search=91c04021_ping&sort=created:asc";
                       signal.Header := [("Accept", "application/json");
                                         ("Authorization", "key")];
                       signal.ReqBody := [] |}] |}
              eq_refl eq_refl (Ok tt)
              {| signal.answers := [];
                 signal.sent :=
                   [{| signal.Method := "GET";
                       signal.URL :=
                         "https://file.io/?search=91c04021_ping&sort=created:asc";
                       signal.Header := [("Accept", "application/json");
                                         ("Authorization", "key")];
                       signal.ReqBody := [] |};
                    {| signal.Method := "POST";
                       signal.URL := "https://file.io/";
                       signal.Header :=
                         [("Accept", "application/json");
                          ("Content-Type",
                           "multipart/form-data; boundary=---011000010111000001101001");
                          ("Authorization", "key")];
                       signal.ReqBody :=
                         signal.multipartForm scenario.codec
                           "91c04021_ping_inst-A.json"
                           {| signal.Type_ := "ping"; signal.Payload := [] |} |}] |}
              eq_refl)
    as [Hping _].
  exact Hping.
Defined.

(** C7 (as stated) fails: with no ping entry in the mailbox and the upload
    of the own ping refused (a 500), [Ping] does not report that no
    candidate was found; it returns the error of the upload. *)
Lemma Ping_upload_refused_counterexample :
  signal.findPing scenario.codec scenario.fileIo
    (scenario.network [scenario.answer 200 "no entries"; scenario.answer 500 ""])
  = (Ok {| signal.Nodes := [] |},
     {| signal.answers := [scenario.answer 500 ""];
        signal.sent :=
          [{| signal.Method := "GET";
              signal.URL := "https://file.io/?search=91c04021_ping&sort=created:asc";
              signal.Header := [("Accept", "application/json");
                                ("Authorization", "key")];
              signal.ReqBody := [] |}] |})
  /\ fst (signal.Ping scenario.codec scenario.fileIo
            (scenario.network
               [scenario.answer 200 "no entries"; scenario.answer 500 ""]))
     = Err (errResponseStatus 500)
  /\ errResponseStatus 500 <> ErrNoCandidatesFound.
Proof. split; [reflexivity|]. split; [reflexivity | discriminate]. Qed.

(** C8. Mailbox author-exclusion: the polling loop gives the same result
    on a listing as on that listing without the entries whose name contains
    the own [InstanceID]; such an entry is neither downloaded nor handed to
    a handler. An entry of another author is downloaded and, when the
    download succeeds, dispatched by its type: [sdp] to the SDP handler,
    [candidate] to the candidate handler, any other type to neither; a
    failed download is skipped. *)
Theorem sniffCandidates_author_exclusion
    (codec : signal.Codec) (H : Type) (s : signal.FileIo H) :
  (forall (net : signal.Net) (h : H),
      signal.sniffCandidates codec s (net, h)
      = match signal.findFiles codec s (signal.SessionID (signal.cfg s)) net with
        | (Err e, net1) => (Err e, (net1, h))
        | (Ok files, net1) =>
            (Ok tt,
             signal.range
               (filter (fun node =>
                          strings_Contains (signal.Name node)
                                           (signal.InstanceID (signal.cfg s)) = false)
                       (signal.Nodes files))
               (signal.sniffNode codec s) (net1, h))
        end)
  /\ (forall node net h,
         strings_Contains (signal.Name node) (signal.InstanceID (signal.cfg s)) = true ->
         signal.sniffNode codec s node (net, h) = (net, h))
  /\ (forall node net h,
         strings_Contains (signal.Name node) (signal.InstanceID (signal.cfg s)) = false ->
         signal.sniffNode codec s node (net, h)
         = match signal.downloadFile codec s (signal.Key node) net with
           | (Err _, net') => (net', h)
           | (Ok content, net') =>
               (net',
                if String.eqb (signal.Type_ content) "sdp"
                then signal.sdpHandler s (signal.Payload content) h
                else if String.eqb (signal.Type_ content) "candidate"
                then signal.candidateHandler s (signal.Payload content) h
                else h)
           end).
Proof.
  split; [|split].
  - intros net h. unfold signal.sniffCandidates, io_bind, io_on_fst.
    destruct (signal.findFiles codec s _ net) as [[files|e] net1]; [|done].
    by rewrite sniff_range_filter.
  - intros node net h Hown. by apply sniffNode_own.
  - intros node net h Hother. cbn. rewrite Hother. reflexivity.
Qed.

Lemma sniffCandidates_author_exclusion_witness :
  signal.sniffCandidates scenario.codec scenario.fileIo
    (scenario.network
       [scenario.answer 200 "sdp and own candidate"; scenario.answer 200 "an offer"],
     [])
  = (Ok tt,
     ({| signal.answers := [];
         signal.sent :=
           [signal.newRequest scenario.fileIo "GET"
              "/?search=91c04021&sort=created:asc"
              [("Accept", "application/json")] [];
            signal.newRequest scenario.fileIo "GET" "/k2" [("Accept", "*/*")] []] |},
      [("sdp", list_byte_of_string "offer")])).
Proof.
  destruct (sniffCandidates_author_exclusion scenario.codec _ scenario.fileIo)
    as (Hpoll & _ & _).
  rewrite Hpoll. reflexivity.
Defined.

(** ** pkg/peer: the terminal notification *)

Section DoneSignal.

Context {Sg : Type} `{peer.Signal Sg} (json : peer.Json).

Lemma shutdownChan_signalSendCandidate (payload : list byte) (p : peer.WebRTC Sg) :
  peer.shutdownChan (snd (peer.signalSendCandidate payload p)) = peer.shutdownChan p.
Proof.
  unfold peer.signalSendCandidate.
  destruct (peer.ConnectionState (peer.conn p)); try done;
    by destruct (peer.SendCandidate payload (peer.signal p)).
Qed.

Lemma shutdownChan_sendCandidates (cs : list peer.ICECandidate) :
  forall p : peer.WebRTC Sg,
    peer.shutdownChan (peer.sendCandidates cs p) = peer.shutdownChan p.
Proof.
  induction cs as [|c cs IH]; intros p; [done|].
  cbn [peer.sendCandidates].
  pose proof (shutdownChan_signalSendCandidate
                (list_byte_of_string (peer.Candidate c)) p) as Hsend.
  destruct (peer.signalSendCandidate _ p) as [[?|?] p']; cbn [snd] in Hsend.
  - by rewrite IH.
  - done.
Qed.

Lemma shutdownChan_onSignalSDPOffer (a : peer.Answers) (p : peer.WebRTC Sg) :
  peer.shutdownChan (snd (peer.onSignalSDPOffer json a p)) = peer.shutdownChan p.
Proof.
  unfold peer.onSignalSDPOffer, io_bind, io_lift.
  destruct (peer.CreateAnswer a) as [answer|?]; [|done].
  destruct (peer.Marshal json answer) as [payload|?]; [|done].
  destruct (peer.SendSDP payload (peer.signal p)) as [[?|?] sg]; [|done].
  by destruct (peer.SetLocalDescription a).
Qed.

Lemma shutdownChan_onSignalSDP (payload : list byte) (a : peer.Answers)
    (p : peer.WebRTC Sg) :
  peer.shutdownChan (peer.onSignalSDP json payload a p) = peer.shutdownChan p.
Proof.
  unfold peer.onSignalSDP.
  destruct (peer.Unmarshal json payload) as [sdp|?]; [|done].
  destruct (peer.SetRemoteDescription a);
    [by destruct (peer.RemoteDescriptionRecorded a)|].
  set (p1 := peer.with_conn p _).
  assert (Hp1 : peer.shutdownChan p1 = peer.shutdownChan p) by done.
  destruct (peer.Type_ sdp); try (by rewrite shutdownChan_sendCandidates).
  pose proof (shutdownChan_onSignalSDPOffer a p1) as Hoffer.
  destruct (peer.onSignalSDPOffer json a p1) as [[?|?] p2]; cbn [snd] in Hoffer.
  - rewrite shutdownChan_sendCandidates. congruence.
  - congruence.
Qed.

Lemma shutdownChan_onConnICECandidate (candidate : option peer.ICECandidate)
    (p : peer.WebRTC Sg) :
  peer.shutdownChan (peer.onConnICECandidate candidate p) = peer.shutdownChan p.
Proof.
  unfold peer.onConnICECandidate.
  destruct candidate as [c|]; [|done].
  destruct (peer.RemoteDescription (peer.conn p)); [|done].
  apply shutdownChan_signalSendCandidate.
Qed.

(** Only a terminal transition sends, and only a receive from [Done()]
    receives. *)
Lemma shutdownChan_step (p : peer.WebRTC Sg) (ev : peer.Event) :
  peer.shutdownChan (peer.step json p ev)
  = if peer.isTerminalTransition ev then chan_send (peer.shutdownChan p)
    else if peer.isDoneReceive ev then chan_receive (peer.shutdownChan p)
    else peer.shutdownChan p.
Proof.
  destruct ev as [candidate|payload a|state|];
    cbn [peer.step peer.isTerminalTransition peer.isDoneReceive].
  - apply shutdownChan_onConnICECandidate.
  - apply shutdownChan_onSignalSDP.
  - by destruct state.
  - done.
Qed.

Lemma chan_after_send (ch : Chan) (s r : nat) :
  chan_after ch s r -> chan_after (chan_send ch) (S s) r.
Proof.
  unfold chan_after, chan_send. intros (Hs & Hr & Hside).
  destruct (receivers ch) as [|waiting] eqn:E; cbn; lia.
Qed.

Lemma chan_after_receive (ch : Chan) (s r : nat) :
  chan_after ch s r -> chan_after (chan_receive ch) s (S r).
Proof.
  unfold chan_after, chan_receive. intros (Hs & Hr & Hside).
  destruct (senders ch) as [|waiting] eqn:E; cbn; lia.
Qed.

Lemma chan_after_run (events : list peer.Event) :
  forall (p : peer.WebRTC Sg) (s r : nat),
    chan_after (peer.shutdownChan p) s r ->
    chan_after (peer.shutdownChan (peer.run json events p))
               (s + peer.terminalTransitions events)
               (r + peer.doneReceives events).
Proof.
  unfold peer.run, peer.terminalTransitions, peer.doneReceives.
  induction events as [|ev events IH]; intros p s r Hp.
  - cbn. by rewrite !Nat.add_0_r.
  - cbn [fold_left]. rewrite !filter_cons.
    assert (Hstep :
      chan_after (peer.shutdownChan (peer.step json p ev))
                 (s + (if peer.isTerminalTransition ev then 1 else 0))
                 (r + (if peer.isDoneReceive ev then 1 else 0))).
    { rewrite shutdownChan_step.
      destruct ev as [candidate|payload a|state|];
        cbn [peer.isTerminalTransition peer.isDoneReceive];
        try (by rewrite !Nat.add_0_r).
      - destruct state; rewrite ?Nat.add_0_r, ?Nat.add_1_r;
          first [ done | by apply chan_after_send ].
      - rewrite Nat.add_0_r, Nat.add_1_r. by apply chan_after_receive. }
    apply IH in Hstep.
    destruct (peer.isTerminalTransition ev), (peer.isDoneReceive ev);
      rewrite ?decide_True, ?decide_False by done; cbn [length];
      by rewrite <- ?Nat.add_assoc in Hstep.
Qed.

End DoneSignal.

(** C5 (as the code has it). [onConnStateChange] sends on [shutdownChan]
    once for every transition into [disconnected], [failed] or [closed],
    and no other callback and no transition into another state sends:
    over a run from a new peer, the notifications delivered and the
    handlers still blocked in their send add up to the number of terminal
    transitions, and the notifications delivered are as many as the
    smaller of the terminal transitions and the receives from [Done()]. *)
Theorem onConnStateChange_signals_every_terminal_transition
    (Sg : Type) `(peer.Signal Sg) (json : peer.Json) (sg : Sg)
    (events : list peer.Event) :
  let ch := peer.shutdownChan (peer.run json events (peer.NewWebRTC sg)) in
  delivered ch + senders ch = peer.terminalTransitions events
  /\ delivered ch
     = Nat.min (peer.terminalTransitions events) (peer.doneReceives events).
Proof.
  intros ch.
  destruct (chan_after_run json events (peer.NewWebRTC sg) 0 0)
    as (Hs & Hr & Hside).
  { unfold chan_after. cbn. lia. }
  fold ch in Hs, Hr, Hside. cbn [Nat.add] in Hs, Hr. lia.
Qed.

(** C5 (as stated) fails. After disconnected, failed, closed, a reader of
    [Done()] that receives twice is notified twice; one that receives
    once leaves two handlers blocked in their send; and when nobody
    receives (the owner closes the connection after its own wait is
    over), the transition to closed is not notified at all. *)
Lemma done_exactly_once_counterexample :
  delivered
    (peer.shutdownChan
       (peer.run scenario.json
          [peer.ConnectionStateChangeEvent peer.PeerConnectionStateConnecting;
           peer.ConnectionStateChangeEvent peer.PeerConnectionStateConnected;
           peer.ConnectionStateChangeEvent peer.PeerConnectionStateDisconnected;
           peer.DoneReceiveEvent;
           peer.ConnectionStateChangeEvent peer.PeerConnectionStateFailed;
           peer.ConnectionStateChangeEvent peer.PeerConnectionStateClosed;
           peer.DoneReceiveEvent]
          scenario.freshPeer))
  = 2
  /\ peer.shutdownChan
       (peer.run scenario.json
          [peer.DoneReceiveEvent;
           peer.ConnectionStateChangeEvent peer.PeerConnectionStateDisconnected;
           peer.ConnectionStateChangeEvent peer.PeerConnectionStateFailed;
           peer.ConnectionStateChangeEvent peer.PeerConnectionStateClosed]
          scenario.freshPeer)
     = {| senders := 2; receivers := 0; delivered := 1 |}
  /\ peer.shutdownChan
       (peer.run scenario.json
          [peer.ConnectionStateChangeEvent peer.PeerConnectionStateConnecting;
           peer.ConnectionStateChangeEvent peer.PeerConnectionStateConnected;
           peer.ConnectionStateChangeEvent peer.PeerConnectionStateClosed]
          scenario.freshPeer)
     = {| senders := 1; receivers := 0; delivered := 0 |}.
Proof. repeat split. Qed.

(** ** pkg/peer: candidate trickling *)

Section Trickling.

Context (json : peer.Json).

Lemma signalSendCandidate_open (payload : list byte) (p : peer.WebRTC peer.Mailbox) :
  peer.ConnectionState (peer.conn p) <> peer.PeerConnectionStateClosed ->
  peer.signalSendCandidate payload p
  = (Ok tt, peer.with_signal p (peer.signal p ++ [peer.PostedCandidate payload])).
Proof.
  intros Hopen. unfold peer.signalSendCandidate.
  by destruct (peer.ConnectionState (peer.conn p)).
Qed.

Lemma signalSendCandidate_closed {Sg} `{peer.Signal Sg}
    (payload : list byte) (p : peer.WebRTC Sg) :
  peer.ConnectionState (peer.conn p) = peer.PeerConnectionStateClosed ->
  peer.signalSendCandidate payload p = (Ok tt, p).
Proof. intros Hclosed. unfold peer.signalSendCandidate. by rewrite Hclosed. Qed.

(** The flush on an open connection: one posting per buffered candidate,
    in buffer order. *)
Lemma sendCandidates_open (cs : list peer.ICECandidate) :
  forall p : peer.WebRTC peer.Mailbox,
    peer.ConnectionState (peer.conn p) <> peer.PeerConnectionStateClosed ->
    peer.sendCandidates cs p
    = peer.with_signal p
        (peer.signal p
           ++ map (fun c => peer.PostedCandidate
                              (list_byte_of_string (peer.Candidate c))) cs).
Proof.
  induction cs as [|c cs IH]; intros p Hopen.
  - cbn. rewrite app_nil_r. by destruct p.
  - cbn [peer.sendCandidates map].
    rewrite signalSendCandidate_open by done.
    rewrite IH by done.
    unfold peer.with_signal. cbn. by rewrite <- app_assoc.
Qed.

Lemma sendCandidates_closed {Sg} `{peer.Signal Sg} (cs : list peer.ICECandidate) :
  forall p : peer.WebRTC Sg,
    peer.ConnectionState (peer.conn p) = peer.PeerConnectionStateClosed ->
    peer.sendCandidates cs p = p.
Proof.
  induction cs as [|c cs IH]; intros p Hclosed; [done|].
  cbn [peer.sendCandidates].
  rewrite signalSendCandidate_closed by done. by apply IH.
Qed.

(** On any signalling: one send, whose outcome is returned. *)
Lemma signalSendCandidate_sends {Sg} `{peer.Signal Sg}
    (payload : list byte) (p : peer.WebRTC Sg) :
  peer.ConnectionState (peer.conn p) <> peer.PeerConnectionStateClosed ->
  peer.signalSendCandidate payload p
  = (fst (peer.SendCandidate payload (peer.signal p)),
     peer.with_signal p (snd (peer.SendCandidate payload (peer.signal p)))).
Proof.
  intros Hopen. unfold peer.signalSendCandidate.
  destruct (peer.ConnectionState (peer.conn p)); try done;
    by destruct (peer.SendCandidate payload (peer.signal p)).
Qed.

(** The flush on any signalling: the candidates are sent in order up to
    and including the first send that fails. *)
Lemma sendCandidates_prefix {Sg} `{peer.Signal Sg} (cs : list peer.ICECandidate) :
  forall p : peer.WebRTC Sg,
    peer.ConnectionState (peer.conn p) <> peer.PeerConnectionStateClosed ->
    let send := fun sg c =>
      snd (peer.SendCandidate (list_byte_of_string (peer.Candidate c)) sg) in
    let outcome := fun sg c =>
      fst (peer.SendCandidate (list_byte_of_string (peer.Candidate c)) sg) in
    exists n,
      n <= length cs
      /\ peer.sendCandidates cs p
         = peer.with_signal p (fold_left send (take n cs) (peer.signal p))
      /\ (forall i c, i + 1 < n -> cs !! i = Some c ->
                      outcome (fold_left send (take i cs) (peer.signal p)) c = Ok tt)
      /\ (n < length cs ->
          exists c e,
            1 <= n
            /\ cs !! (n - 1) = Some c
            /\ outcome (fold_left send (take (n - 1) cs) (peer.signal p)) c = Err e).
Proof.
  induction cs as [|c cs IH]; intros p Hopen send outcome.
  - exists 0. split; [done|]. split; [by destruct p|].
    split; [intros; lia | cbn; lia].
  - cbn [peer.sendCandidates].
    rewrite signalSendCandidate_sends by done.
    destruct (fst (peer.SendCandidate (list_byte_of_string (peer.Candidate c))
                     (peer.signal p))) as [[]|e] eqn:Hsend.
    + destruct (IH (peer.with_signal p (send (peer.signal p) c)) Hopen)
        as (n & Hn & Hflush & Hbefore & Hlast).
      exists (S n). split; [cbn; lia|]. split; [|split].
      * etrans; [exact Hflush | reflexivity].
      * intros [|i] c' Hi Hc'.
        -- cbn in Hc'. injection Hc' as <-. exact Hsend.
        -- cbn [take fold_left]. apply (Hbefore i c'); [lia | exact Hc'].
      * intros Hlt. cbn [length] in Hlt.
        destruct Hlast as (c' & e & Hone & Hc' & He); [lia|].
        exists c', e. split; [lia|].
        replace (S n - 1) with (S (n - 1)) by lia.
        split; [exact Hc' | exact He].
    + exists 1. split; [cbn; lia|]. split; [reflexivity|]. split.
      * intros; lia.
      * intros _. exists c, e. split; [done|]. split; [done | exact Hsend].
Qed.

End Trickling.

(** C6 (as the code has it), for any signalling, with handlers run one
    at a time. A candidate emitted while the connection reports no remote
    description is appended to the buffer and nothing is sent. A candidate
    emitted while it reports one is sent at once, in one send whatever its
    outcome, and is not buffered; on a closed connection nothing is sent.
    The flush sends the buffered candidates in emission order up to and
    including the first send that fails, and keeps the buffer; on a
    closed connection it sends nothing. [onSignalSDP] flushes when
    [SetRemoteDescription] has returned without an error and, for an
    offer, the answer has been created, marshalled, sent and set. It does
    not flush when the payload does not unmarshal, when
    [SetRemoteDescription] returns an error (the connection then reports
    the description or not, as it has recorded it or not), or when the
    answer to an offer fails at any of its steps (the remote description
    then stays installed). *)
Theorem candidate_buffering_and_flush
    (Sg : Type) (Hsg : peer.Signal Sg) (json : peer.Json) (p : peer.WebRTC Sg) :
  let send := fun sg c =>
    snd (peer.SendCandidate (list_byte_of_string (peer.Candidate c)) sg) in
  let outcome := fun sg c =>
    fst (peer.SendCandidate (list_byte_of_string (peer.Candidate c)) sg) in
  let installed := fun sdp =>
    peer.with_conn p
      {| peer.RemoteDescription := Some sdp;
         peer.LocalDescription := peer.LocalDescription (peer.conn p);
         peer.ConnectionState := peer.ConnectionState (peer.conn p) |} in
  (forall c,
      peer.RemoteDescription (peer.conn p) = None ->
      peer.onConnICECandidate (Some c) p
      = peer.with_candidates p (peer.candidates p ++ [c]))
  /\ (forall c,
         peer.RemoteDescription (peer.conn p) <> None ->
         peer.ConnectionState (peer.conn p) <> peer.PeerConnectionStateClosed ->
         peer.onConnICECandidate (Some c) p
         = peer.with_signal p (send (peer.signal p) c))
  /\ (forall c,
         peer.RemoteDescription (peer.conn p) <> None ->
         peer.ConnectionState (peer.conn p) = peer.PeerConnectionStateClosed ->
         peer.onConnICECandidate (Some c) p = p)
  /\ (forall cs,
         peer.ConnectionState (peer.conn p) <> peer.PeerConnectionStateClosed ->
         exists n,
           n <= length cs
           /\ peer.sendCandidates cs p
              = peer.with_signal p (fold_left send (take n cs) (peer.signal p))
           /\ (forall i c, i + 1 < n -> cs !! i = Some c ->
                           outcome (fold_left send (take i cs) (peer.signal p)) c
                           = Ok tt)
           /\ (n < length cs ->
               exists c e,
                 1 <= n
                 /\ cs !! (n - 1) = Some c
                 /\ outcome (fold_left send (take (n - 1) cs) (peer.signal p)) c
                    = Err e))
  /\ (forall cs,
         peer.ConnectionState (peer.conn p) = peer.PeerConnectionStateClosed ->
         peer.sendCandidates cs p = p)
  /\ (forall payload a sdp,
         peer.Unmarshal json payload = Ok sdp ->
         peer.SetRemoteDescription a = None ->
         peer.Type_ sdp <> peer.SDPTypeOffer ->
         peer.onSignalSDP json payload a p
         = peer.sendCandidates (peer.candidates p) (installed sdp))
  /\ (forall payload a sdp answer answerPayload sg,
         peer.Unmarshal json payload = Ok sdp ->
         peer.SetRemoteDescription a = None ->
         peer.Type_ sdp = peer.SDPTypeOffer ->
         peer.CreateAnswer a = Ok answer ->
         peer.Marshal json answer = Ok answerPayload ->
         peer.SendSDP answerPayload (peer.signal p) = (Ok tt, sg) ->
         peer.SetLocalDescription a = None ->
         peer.onSignalSDP json payload a p
         = peer.sendCandidates (peer.candidates p)
             {| peer.signal := sg;
                peer.conn :=
                  {| peer.RemoteDescription := Some sdp;
                     peer.LocalDescription := Some answer;
                     peer.ConnectionState := peer.ConnectionState (peer.conn p) |};
                peer.candidates := peer.candidates p;
                peer.shutdownChan := peer.shutdownChan p |})
  /\ (forall payload a e,
         peer.Unmarshal json payload = Err e ->
         peer.onSignalSDP json payload a p = p)
  /\ (forall payload a sdp e,
         peer.Unmarshal json payload = Ok sdp ->
         peer.SetRemoteDescription a = Some e ->
         peer.onSignalSDP json payload a p
         = if peer.RemoteDescriptionRecorded a then installed sdp else p)
  /\ (forall payload a sdp,
         peer.Unmarshal json payload = Ok sdp ->
         peer.SetRemoteDescription a = None ->
         peer.Type_ sdp = peer.SDPTypeOffer ->
         (forall e, peer.CreateAnswer a = Err e ->
                    peer.onSignalSDP json payload a p = installed sdp)
         /\ (forall answer e,
                peer.CreateAnswer a = Ok answer ->
                peer.Marshal json answer = Err e ->
                peer.onSignalSDP json payload a p = installed sdp)
         /\ (forall answer answerPayload e sg,
                peer.CreateAnswer a = Ok answer ->
                peer.Marshal json answer = Ok answerPayload ->
                peer.SendSDP answerPayload (peer.signal p) = (Err e, sg) ->
                peer.onSignalSDP json payload a p
                = peer.with_signal (installed sdp) sg)
         /\ (forall answer answerPayload e sg,
                peer.CreateAnswer a = Ok answer ->
                peer.Marshal json answer = Ok answerPayload ->
                peer.SendSDP answerPayload (peer.signal p) = (Ok tt, sg) ->
                peer.SetLocalDescription a = Some e ->
                peer.onSignalSDP json payload a p
                = peer.with_signal (installed sdp) sg)).
Proof.
  intros send outcome installed.
  split; [|split; [|split; [|split; [|split; [|split; [|split; [|split; [|split]]]]]]]].
  - intros c Hnone. unfold peer.onConnICECandidate. by rewrite Hnone.
  - intros c Hsome Hopen. unfold peer.onConnICECandidate.
    destruct (peer.RemoteDescription (peer.conn p)); [|done].
    by rewrite signalSendCandidate_sends.
  - intros c Hsome Hclosed. unfold peer.onConnICECandidate.
    destruct (peer.RemoteDescription (peer.conn p)); [|done].
    by rewrite signalSendCandidate_closed.
  - intros cs Hopen. by apply sendCandidates_prefix.
  - intros cs Hclosed. by apply sendCandidates_closed.
  - intros payload a sdp Hsdp Hset Htype.
    unfold peer.onSignalSDP. rewrite Hsdp, Hset.
    by destruct (peer.Type_ sdp).
  - intros payload a sdp answer answerPayload sg Hsdp Hset Htype Hans Hmar Hsend Hloc.
    unfold peer.onSignalSDP. rewrite Hsdp, Hset, Htype.
    unfold peer.onSignalSDPOffer, io_bind, io_lift.
    rewrite Hans, Hmar. cbn [peer.with_conn peer.signal]. rewrite Hsend, Hloc.
    reflexivity.
  - intros payload a e Hsdp. unfold peer.onSignalSDP. by rewrite Hsdp.
  - intros payload a sdp e Hsdp Hset. unfold peer.onSignalSDP.
    by rewrite Hsdp, Hset.
  - intros payload a sdp Hsdp Hset Htype.
    unfold peer.onSignalSDP. rewrite Hsdp, Hset, Htype.
    unfold peer.onSignalSDPOffer, io_bind, io_lift.
    split; [|split; [|split]].
    + intros e Hans. by rewrite Hans.
    + intros answer e Hans Hmar. by rewrite Hans, Hmar.
    + intros answer answerPayload e sg Hans Hmar Hsend.
      rewrite Hans, Hmar. cbn [peer.with_conn peer.signal]. by rewrite Hsend.
    + intros answer answerPayload e sg Hans Hmar Hsend Hloc.
      rewrite Hans, Hmar. cbn [peer.with_conn peer.signal].
      by rewrite Hsend, Hloc.
Qed.

(** C6 (as stated) fails. The buffer is not drained by a flush: with one
    candidate buffered, a first offer publishes it; a candidate emitted
    next is published at once; a second offer publishes the buffered
    candidate again, after the later one; and the buffer still holds it.
    And an installation need not flush: on the file-sharing mailbox, when
    the upload of the answer is refused (a 500), the remote description
    stays installed, the buffered candidate is not published, and the
    next candidate is. *)
Lemma buffer_flushed_once_counterexample :
  (let p := peer.run scenario.json
              [peer.ICECandidateEvent (Some scenario.c1);
               peer.SignalSDPEvent (list_byte_of_string "offer") scenario.accepting;
               peer.ICECandidateEvent (Some scenario.c2);
               peer.SignalSDPEvent (list_byte_of_string "offer") scenario.accepting]
              scenario.freshPeer in
   peer.signal p
   = [peer.PostedSDP (list_byte_of_string "answer");
      peer.PostedCandidate (list_byte_of_string "candidate:1");
      peer.PostedCandidate (list_byte_of_string "candidate:2");
      peer.PostedSDP (list_byte_of_string "answer");
      peer.PostedCandidate (list_byte_of_string "candidate:1")]
   /\ peer.candidates p = [scenario.c1])
  /\ (let p := @peer.run signal.Net
                 (peer.FileIo_Signal scenario.codec scenario.fileIo) scenario.json
                 [peer.ICECandidateEvent (Some scenario.c1);
                  peer.SignalSDPEvent (list_byte_of_string "offer") scenario.accepting;
                  peer.ICECandidateEvent (Some scenario.c2)]
                 (peer.NewWebRTC
                    (scenario.network [scenario.answer 500 ""; scenario.answer 200 ""])) in
      peer.RemoteDescription (peer.conn p)
      = Some {| peer.Type_ := peer.SDPTypeOffer; peer.SDP := "offer" |}
      /\ peer.candidates p = [scenario.c1]
      /\ map signal.ReqBody (signal.sent (peer.signal p))
         = [signal.multipartForm scenario.codec "91c04021_sdp_inst-A.json"
              {| signal.Type_ := "sdp";
                 signal.Payload := list_byte_of_string "answer" |};
            signal.multipartForm scenario.codec "91c04021_candidate_inst-A.json"
              {| signal.Type_ := "candidate";
                 signal.Payload := list_byte_of_string "candidate:2" |}]).
Proof. repeat split. Qed.

Lemma candidate_buffering_and_flush_witness :
  let net := scenario.network [scenario.answer 500 ""; scenario.answer 200 ""] in
  let p1 := peer.with_candidates (peer.NewWebRTC net) [scenario.c1; scenario.c2] in
  let p2 := @peer.onSignalSDP signal.Net
              (peer.FileIo_Signal scenario.codec scenario.fileIo) scenario.json
              (list_byte_of_string "answer") scenario.accepting p1 in
  peer.candidates p2 = [scenario.c1; scenario.c2]
  /\ map signal.ReqBody (signal.sent (peer.signal p2))
     = [signal.multipartForm scenario.codec "91c04021_candidate_inst-A.json"
          {| signal.Type_ := "candidate";
             signal.Payload := list_byte_of_string "candidate:1" |}]
  /\ signal.answers (peer.signal p2) = [scenario.answer 200 ""].
Proof.
  intros net p1 p2.
  destruct (candidate_buffering_and_flush signal.Net
              (peer.FileIo_Signal scenario.codec scenario.fileIo) scenario.json p1)
    as (_ & _ & _ & _ & _ & Hflush & _).
  assert (Hp2 : p2 = _)
    by exact (Hflush (list_byte_of_string "answer") scenario.accepting
                {| peer.Type_ := peer.SDPTypeAnswer; peer.SDP := "answer" |}
                eq_refl eq_refl ltac:(discriminate)).
  rewrite Hp2. repeat split.
Defined.


(** ** The scenarios of the specification, evaluated *)

(** Second send rotates: [-v=2], [hello] on disk, [world] received. *)
Example second_send_rotates :
  filemanager.receiveFile scenario.disk (scenario.receiver 2)
    (uint8 5 :: list_byte_of_string "a.txt" ++ list_byte_of_string "world",
     {[ "/out/a.txt" := list_byte_of_string "hello" ]})
  = (Ok tt,
     ([], {[ "/out/a.txt" := list_byte_of_string "world";
             "/out/a.txt.1" := list_byte_of_string "hello" ]})).
Proof. vm_compute. reflexivity. Qed.

(** Third send drops the oldest: [-v=2], [world] and [hello] on disk. *)
Example third_send_drops_oldest :
  filemanager.receiveFile scenario.disk (scenario.receiver 2)
    (uint8 5 :: list_byte_of_string "a.txt" ++ list_byte_of_string "!",
     scenario.twoVersions)
  = (Ok tt,
     ([], {[ "/out/a.txt" := list_byte_of_string "!";
             "/out/a.txt.1" := list_byte_of_string "world" ]})).
Proof. vm_compute. reflexivity. Qed.

(** A cap of 0 keeps every file where it is; the new file replaces
    [path]. *)
Example versions_zero_rotates_nothing :
  filemanager.shiftFileVersions (scenario.receiver 0) "/out/a.txt"
    scenario.twoVersions
  = scenario.twoVersions.
Proof. reflexivity. Qed.

(** The later peer finds a ping: the DELETE is answered 500, and [Ping]
    still reports success. *)
Example Ping_ignores_failed_delete :
  signal.Ping scenario.codec scenario.fileIo
    (scenario.network [scenario.answer 200 "one ping"; scenario.answer 500 ""])
  = (Ok tt,
     {| signal.answers := [];
        signal.sent :=
          [signal.newRequest scenario.fileIo "GET"
             "/?search=91c04021_ping&sort=created:asc"
             [("Accept", "application/json")] [];
           signal.newRequest scenario.fileIo "DELETE" "/k1"
             [("Accept", "application/json")] []] |}).
Proof. reflexivity. Qed.

(** A 429 is answered by the same request once more. *)
Example request_retries_429 :
  signal.deleteFile scenario.fileIo "k1"
    (scenario.network [scenario.answer 429 ""; scenario.answer 403 ""])
  = (Ok tt,
     {| signal.answers := [];
        signal.sent :=
          [signal.newRequest scenario.fileIo "DELETE" "/k1"
             [("Accept", "application/json")] [];
           signal.newRequest scenario.fileIo "DELETE" "/k1"
             [("Accept", "application/json")] []] |}).
Proof. reflexivity. Qed.

(** A password file that is not a whole number of blocks. *)
Example Decrypt_short_file :
  passwordmanager.GetPasswords
    {| passwordmanager.cfg := {| passwordmanager.PasswordFile := "/t/p.bin" |};
       passwordmanager.crypto := crypto.appCrypto |}
    {[ "/t/p.bin" := list_byte_of_string "short" ]}
  = (Err (runtime_panic "crypto/cipher: input not full blocks"),
     {[ "/t/p.bin" := list_byte_of_string "short" ]}).
Proof. reflexivity. Qed.

(* ===================================================================== *)
(** * Further properties *)
(* ===================================================================== *)

(** ** pkg/crypto *)

Section CryptoMore.

Lemma length_xorBytes_le (a b : list byte) :
  length (crypto.xorBytes a b) <= length b.
Proof. unfold crypto.xorBytes. rewrite length_zip_with. lia. Qed.

Lemma length_cbcDecryptBlocks_le (b : crypto.Block) (n : nat) :
  forall iv src,
    length iv <= crypto.BlockSize b ->
    length (crypto.cbcDecryptBlocks b n iv src) <= n * crypto.BlockSize b.
Proof.
  induction n as [|n IH]; intros iv src Hiv; cbn [crypto.cbcDecryptBlocks].
  - cbn. lia.
  - rewrite length_app.
    pose proof (length_xorBytes_le
                  (crypto.DecryptBlock b (take (crypto.BlockSize b) src)) iv).
    pose proof (IH (take (crypto.BlockSize b) src) (drop (crypto.BlockSize b) src)
                   ltac:(rewrite length_take; lia)).
    lia.
Qed.

Lemma forallb_eqb_repeat (x : byte) (l : list byte) :
  forallb (Byte.eqb x) l = true -> l = repeat x (length l).
Proof.
  induction l as [|y l IH]; cbn; [done|].
  intros [Hy Hl]%andb_prop. apply Byte.byte_dec_bl in Hy. subst y.
  by rewrite <- IH.
Qed.

(** What [pkcs7pad.Unpad] accepts is some data followed by a padding of
    [n] bytes of value [n], for an [n] from 1 to 255. *)
Lemma pkcs7pad_Unpad_Ok (buf p : list byte) :
  crypto.pkcs7pad_Unpad buf = Ok p ->
  exists n, 1 <= n <= 255 /\ buf = p ++ repeat (uint8 n) n.
Proof.
  unfold crypto.pkcs7pad_Unpad.
  destruct (last buf) as [x|] eqn:Hlast; [|done].
  destruct (Nat.leb_spec 1 (Byte.to_nat x)) as [H1|]; [|done].
  destruct (Nat.leb_spec (Byte.to_nat x) (length buf)) as [H2|]; [|done].
  cbn [andb].
  destruct (forallb _ _) eqn:Hall; [|done].
  intros [= <-]. exists (Byte.to_nat x).
  pose proof (Byte.to_nat_bounded x).
  split; [lia|].
  apply forallb_eqb_repeat in Hall.
  rewrite length_drop in Hall.
  replace (length buf - (length buf - Byte.to_nat x)) with (Byte.to_nat x)
    in Hall by lia.
  assert (Hx : uint8 (Byte.to_nat x) = x).
  { unfold uint8. rewrite Nat.mod_small by lia. by rewrite Byte.of_to_nat. }
  rewrite Hx, <- Hall. by rewrite take_drop.
Qed.

End CryptoMore.

(** X1. [AesCbc]: for a cipher whose block decryption undoes its block
    encryption, and an IV of one block, [Decrypt] gives back what
    [Encrypt] was given; the ciphertext is a whole number of blocks,
    always at least one byte and at most one block longer than the
    plaintext. *)
Theorem AesCbc_Encrypt_then_Decrypt (c : crypto.AesCbc) (payload : list byte) :
  crypto.BlockLaws (crypto.cipher c) ->
  length (crypto.IV (crypto.cfg c)) = crypto.BlockSize (crypto.cipher c) ->
  let bs := crypto.BlockSize (crypto.cipher c) in
  crypto.Decrypt c (crypto.Encrypt c payload) = Ok payload
  /\ length (crypto.Encrypt c payload) = (length payload / bs + 1) * bs
  /\ length payload < length (crypto.Encrypt c payload) <= length payload + bs.
Proof.
  intros Hlaws Hiv bs. pose proof Hlaws as (Hbs & _).
  split; [by apply AesCbc_Decrypt_Encrypt|].
  assert (Hlen : length (crypto.Encrypt c payload) = (length payload / bs + 1) * bs).
  { unfold crypto.Encrypt. fold bs.
    set (padded := crypto.pkcs7pad_Pad payload bs).
    assert (Hpad : length padded = (length payload / bs + 1) * bs)
      by (apply length_pkcs7pad_Pad; lia).
    rewrite Hpad, Nat.div_mul by lia.
    apply length_cbcEncryptBlocks; done. }
  split; [exact Hlen|]. rewrite Hlen.
  pose proof (Nat.div_mod_eq (length payload) bs).
  pose proof (Nat.mod_upper_bound (length payload) bs). nia.
Qed.

Lemma AesCbc_Encrypt_then_Decrypt_witness :
  crypto.Decrypt crypto.appCrypto
    (crypto.Encrypt crypto.appCrypto (list_byte_of_string "sixteen byte msg"))
  = Ok (list_byte_of_string "sixteen byte msg")
  /\ length (crypto.Encrypt crypto.appCrypto (list_byte_of_string "sixteen byte msg"))
     = 32.
Proof.
  destruct (AesCbc_Encrypt_then_Decrypt crypto.appCrypto
              (list_byte_of_string "sixteen byte msg"))
    as (Hround & Hlen & _).
  - apply xorCipher_laws. reflexivity.
  - reflexivity.
  - split; [exact Hround | exact Hlen].
Defined.

(** X2. [AesCbc.Decrypt], with an IV of one block: input that is not a
    whole number of blocks makes [CryptBlocks] panic; empty input is bad
    padding; and whenever it succeeds, the input was a whole number of
    blocks and the result is strictly shorter than the input. *)
Theorem AesCbc_Decrypt_strips_padding (c : crypto.AesCbc) (payload : list byte) :
  1 <= crypto.BlockSize (crypto.cipher c) ->
  length (crypto.IV (crypto.cfg c)) = crypto.BlockSize (crypto.cipher c) ->
  let bs := crypto.BlockSize (crypto.cipher c) in
  (length payload mod bs <> 0 ->
   crypto.Decrypt c payload
   = Err (runtime_panic "crypto/cipher: input not full blocks"))
  /\ (payload = [] -> crypto.Decrypt c payload = Err errBadPadding)
  /\ (forall p, crypto.Decrypt c payload = Ok p ->
                length payload mod bs = 0
                /\ length p < length payload).
Proof.
  intros Hbs Hiv bs. unfold crypto.Decrypt. fold bs.
  split; [|split].
  - intros Hmod. apply Nat.eqb_neq in Hmod. by rewrite Hmod.
  - intros ->. cbn [length]. rewrite Nat.Div0.mod_0_l, Nat.Div0.div_0_l.
    reflexivity.
  - intros p Hok.
    destruct (Nat.eqb_spec (length payload mod bs) 0) as [Hmod|]; [|done].
    split; [done|].
    apply pkcs7pad_Unpad_Ok in Hok as (n & Hn & Hbuf).
    pose proof (length_cbcDecryptBlocks_le (crypto.cipher c)
                  (length payload / bs) (crypto.IV (crypto.cfg c)) payload
                  ltac:(lia)) as Hle.
    rewrite Hbuf, length_app, repeat_length in Hle. fold bs in Hle.
    pose proof (Nat.div_mod_eq (length payload) bs). nia.
Qed.

Lemma AesCbc_Decrypt_strips_padding_witness :
  crypto.Decrypt crypto.appCrypto (list_byte_of_string "short")
  = Err (runtime_panic "crypto/cipher: input not full blocks")
  /\ crypto.Decrypt crypto.appCrypto [] = Err errBadPadding.
Proof.
  destruct (AesCbc_Decrypt_strips_padding crypto.appCrypto
              (list_byte_of_string "short")) as (Hpanic & _).
  - simpl. lia.
  - reflexivity.
  - split; [apply Hpanic; simpl; lia | reflexivity].
Defined.

(** ** pkg/passwordmanager *)

Section ReaderInversion.

Lemma io_ReadFull_Ok (n : nat) (r bs r' : list byte) :
  io_ReadFull n r = (Ok bs, r') -> r = bs ++ r' /\ length bs = n.
Proof.
  unfold io_ReadFull.
  destruct (Nat.eqb_spec n 0) as [->|Hn]; [by intros [= <- <-]|].
  destruct (Nat.eqb (length r) 0); [done|].
  destruct (Nat.ltb_spec (length r) n) as [|Hle]; [done|].
  intros [= <- <-]. split; [by rewrite take_drop|].
  rewrite length_take. lia.
Qed.

Lemma io_ReadFull_enough (n : nat) (r : list byte) :
  n <= length r -> io_ReadFull n r = (Ok (take n r), drop n r).
Proof.
  intros Hle. unfold io_ReadFull.
  destruct (Nat.eqb_spec n 0) as [->|Hn]; [by rewrite take_0, drop_0|].
  destruct (Nat.eqb_spec (length r) 0); [lia|].
  destruct (Nat.ltb_spec (length r) n); [lia | done].
Qed.

Lemma binary_Read_uint8_Ok (r r' : list byte) (b : byte) :
  binary_Read_uint8 r = (Ok b, r') -> r = b :: r'.
Proof.
  unfold binary_Read_uint8, io_bind.
  destruct (io_ReadFull 1 r) as [[bs|e] r1] eqn:Hread; [|done].
  apply io_ReadFull_Ok in Hread as [-> Hlen].
  destruct bs as [|b0 [|? ?]]; try done.
  by intros [= <- <-].
Qed.

Lemma uint8_of_to_nat (b : byte) : uint8 (Byte.to_nat b) = b.
Proof.
  unfold uint8. pose proof (Byte.to_nat_bounded b).
  rewrite Nat.mod_small by lia. by rewrite Byte.of_to_nat.
Qed.

(** What [readPassword] accepts: a length byte, that many bytes of
    password, and whatever follows. *)
Lemma readPassword_Ok (r r' : list byte) (password : string) :
  passwordmanager.readPassword r = (Ok password, r') ->
  r = uint8 (String.length password) :: list_byte_of_string password ++ r'
  /\ String.length password <= 255.
Proof.
  unfold passwordmanager.readPassword, io_bind.
  destruct (binary_Read_uint8 r) as [[b|e] r1] eqn:Hlen; [|done].
  apply binary_Read_uint8_Ok in Hlen as ->.
  unfold binary_Read_bytes.
  destruct (io_ReadFull (Byte.to_nat b) r1) as [[bs|e] r2] eqn:Hbs; [|done].
  apply io_ReadFull_Ok in Hbs as [-> Hbs].
  unfold io_ret. intros [= <- <-].
  rewrite list_byte_of_string_of_list_byte.
  rewrite <- length_list_byte_of_string, list_byte_of_string_of_list_byte.
  rewrite Hbs, uint8_of_to_nat. split; [done|]. apply Byte.to_nat_bounded.
Qed.

End ReaderInversion.

(** X3. [GetPasswords] succeeds exactly on a password file that decrypts
    to [u8 len(p1) | p1 | u8 len(p2) | p2] followed by any bytes, which it
    ignores, and then returns [(p1, p2)]; the passwords it returns are at
    most 255 bytes long; and it leaves the file system as it found it,
    whether it succeeds or not. On an absent file it returns the
    not-exist error. *)
Theorem GetPasswords_reads_the_layout
    (C : Type) `(passwordmanager.Crypto C) (m : passwordmanager.LocalSaver C)
    (fs : FS) :
  snd (passwordmanager.GetPasswords m fs) = fs
  /\ (forall p1 p2,
         fst (passwordmanager.GetPasswords m fs) = Ok (p1, p2)
         <-> exists payload rest,
               fs !! passwordmanager.PasswordFile (passwordmanager.cfg m)
               = Some payload
               /\ passwordmanager.Decrypt (passwordmanager.crypto m) payload
                  = Ok (uint8 (String.length p1) :: list_byte_of_string p1
                          ++ uint8 (String.length p2) :: list_byte_of_string p2
                          ++ rest)
               /\ String.length p1 <= 255
               /\ String.length p2 <= 255)
  /\ (fs !! passwordmanager.PasswordFile (passwordmanager.cfg m) = None ->
      passwordmanager.GetPasswords m fs
      = (Err (fs_ErrNotExist (passwordmanager.PasswordFile (passwordmanager.cfg m))),
         fs)).
Proof.
  unfold passwordmanager.GetPasswords, io_bind, io_lift, io_local, os_ReadFile.
  destruct (fs !! passwordmanager.PasswordFile (passwordmanager.cfg m))
    as [payload|] eqn:Hfile.
  2: { split; [done|]. split; [|done]. intros p1 p2. split; [done|].
       by intros (? & ? & ? & _). }
  destruct (passwordmanager.Decrypt (passwordmanager.crypto m) payload)
    as [decrypted|e] eqn:Hdec.
  2: { split; [done|]. split; [|done]. intros p1 p2. split; [done|].
       intros (? & ? & [= <-] & Hdec' & _). congruence. }
  split; [|split; [|done]].
  - by destruct (passwordmanager.readPassword decrypted) as [[p1|?] r1];
      [destruct (passwordmanager.readPassword r1) as [[p2|?] r2]|].
  - intros p1 p2. split.
    + destruct (passwordmanager.readPassword decrypted) as [[q1|?] r1] eqn:H1;
        [|done].
      destruct (passwordmanager.readPassword r1) as [[q2|?] r2] eqn:H2; [|done].
      cbn. intros [= <- <-].
      apply readPassword_Ok in H1 as [-> Hq1].
      apply readPassword_Ok in H2 as [-> Hq2].
      by exists payload, r2.
    + intros (payload' & rest & [= <-] & Hdec' & Hp1 & Hp2).
      rewrite Hdec in Hdec'. injection Hdec' as ->.
      rewrite readPassword_written by done.
      by rewrite readPassword_written.
Qed.

Lemma GetPasswords_reads_the_layout_witness :
  fst (passwordmanager.GetPasswords
         {| passwordmanager.cfg := {| passwordmanager.PasswordFile := "/t/p.bin" |};
            passwordmanager.crypto := crypto.appCrypto |}
         {[ "/t/p.bin" :=
              crypto.Encrypt crypto.appCrypto
                (uint8 6 :: list_byte_of_string "qwerty"
                   ++ uint8 6 :: list_byte_of_string "asdfgh"
                   ++ list_byte_of_string "trailing bytes") ]})
  = Ok ("qwerty", "asdfgh").
Proof.
  apply (GetPasswords_reads_the_layout crypto.AesCbc crypto.AesCbc_Crypto).
  exists (crypto.Encrypt crypto.appCrypto
            (uint8 6 :: list_byte_of_string "qwerty"
               ++ uint8 6 :: list_byte_of_string "asdfgh"
               ++ list_byte_of_string "trailing bytes")),
         (list_byte_of_string "trailing bytes").
  split; [apply lookup_singleton_eq|]. split.
  - apply AesCbc_Decrypt_Encrypt; [apply xorCipher_laws|]; reflexivity.
  - simpl. lia.
Defined.

(** X4. A first password longer than 255 bytes is saved without an error
    and is not read back: [SavePasswords] writes [len(p1) mod 256] as its
    length byte, so whenever [GetPasswords] succeeds on the saved file its
    first password is only the first [len(p1) mod 256] bytes of [p1]. *)
Theorem SavePasswords_truncates_long_password
    (C : Type) `(passwordmanager.Crypto C) (m : passwordmanager.LocalSaver C)
    (p1 p2 : string) (fs : FS) :
  (forall payload,
      passwordmanager.Decrypt (passwordmanager.crypto m)
        (passwordmanager.Encrypt (passwordmanager.crypto m) payload)
      = Ok payload) ->
  255 < String.length p1 ->
  fst (passwordmanager.SavePasswords m p1 p2 fs) = Ok tt
  /\ forall q1 q2 fs',
      passwordmanager.GetPasswords m (snd (passwordmanager.SavePasswords m p1 p2 fs))
      = (Ok (q1, q2), fs') ->
      q1 = string_of_list_byte
             (take (String.length p1 mod 256) (list_byte_of_string p1))
      /\ String.length q1 = String.length p1 mod 256
      /\ q1 <> p1.
Proof.
  intros Hcrypto Hlong.
  assert (Hsave :
    passwordmanager.SavePasswords m p1 p2 fs
    = (Ok tt,
       <[passwordmanager.PasswordFile (passwordmanager.cfg m) :=
           passwordmanager.Encrypt (passwordmanager.crypto m)
             (uint8 (String.length p1) :: list_byte_of_string p1
                ++ uint8 (String.length p2) :: list_byte_of_string p2)]> fs)).
  { unfold passwordmanager.SavePasswords, io_bind, io_lift, io_local.
    rewrite !writePassword_Buffer. reflexivity. }
  rewrite Hsave. cbn [fst snd].
  split; [done|].
  intros q1 q2 fs'.
  unfold passwordmanager.GetPasswords, io_bind, io_lift, io_local, os_ReadFile.
  rewrite lookup_insert_eq, Hcrypto. cbn [fst].
  unfold passwordmanager.readPassword at 1. unfold io_bind.
  rewrite binary_Read_uint8_cons, uint8_to_nat.
  pose proof (Nat.mod_upper_bound (String.length p1) 256 ltac:(lia)) as Hmod.
  unfold binary_Read_bytes.
  rewrite io_ReadFull_enough
    by (rewrite length_app, length_list_byte_of_string; lia).
  unfold io_ret.
  rewrite take_app_le by (rewrite length_list_byte_of_string; lia).
  remember (String.length p1 mod 256) as t eqn:Ht.
  destruct (passwordmanager.readPassword _) as [[q2'|?] r2]; [|done].
  unfold io_lift. cbn [fst]. intros [= <- <- <-].
  assert (Hlen : String.length
                   (string_of_list_byte (take t (list_byte_of_string p1)))
                 = t).
  { rewrite <- length_list_byte_of_string, list_byte_of_string_of_list_byte.
    rewrite length_take, length_list_byte_of_string. lia. }
  split; [done|]. split; [done|].
  intros Heq. rewrite Heq in Hlen. lia.
Qed.

Lemma SavePasswords_truncates_long_password_witness :
  let m := {| passwordmanager.cfg := {| passwordmanager.PasswordFile := "/t/p.bin" |};
              passwordmanager.crypto := crypto.appCrypto |} in
  fst (passwordmanager.SavePasswords m scenario.longName "asdfgh" ∅) = Ok tt.
Proof.
  intros m.
  destruct (SavePasswords_truncates_long_password
              crypto.AesCbc crypto.AesCbc_Crypto m scenario.longName "asdfgh" ∅)
    as (Hsave & _).
  - intros payload. apply AesCbc_Decrypt_Encrypt.
    + apply xorCipher_laws. reflexivity.
    + reflexivity.
  - vm_compute. lia.
  - exact Hsave.
Defined.

(** ** pkg/filemanager *)

(** X5. One receive on a gap-free chain: for a complete frame whose name
    has a chain of [k <= V] files (cap [V >= 1]), when [os.Create] accepts
    the path after the rotation and [io.Copy] runs to the end, the receive
    succeeds; afterwards the received content is at [path], every file
    that had an index [i] with [i + 1 < V] is at index [i + 1], the chain
    has exactly [min (k + 1) V] files without a gap, and no path outside
    the chain has changed. *)
Theorem receiveFile_extends_chain
    (disk : Disk) (cfg : filemanager.BackupperConfig) (name content : list byte)
    (fs : FS) (k : nat) :
  1 <= filemanager.Versions cfg ->
  k <= filemanager.Versions cfg ->
  length name <= 255 ->
  let path := (filemanager.DestinationDir cfg +:+ "/") +:+ string_of_list_byte name in
  (forall i, is_Some (fs !! filemanager.versionPath path i) <-> i < k) ->
  os_Create disk path (filemanager.shiftFileVersions cfg path fs) = None ->
  io_Copy disk path content = None ->
  exists fs' : FS,
    filemanager.receiveFile disk cfg (uint8 (length name) :: name ++ content, fs)
    = (Ok tt, ([], fs'))
    /\ fs' !! path = Some content
    /\ (forall i, i + 1 < filemanager.Versions cfg ->
                  fs' !! filemanager.versionPath path (i + 1)
                  = fs !! filemanager.versionPath path i)
    /\ (forall i, is_Some (fs' !! filemanager.versionPath path i)
                  <-> i < Nat.min (k + 1) (filemanager.Versions cfg))
    /\ (forall p, (forall i, p <> filemanager.versionPath path i) ->
                  fs' !! p = fs !! p).
Proof.
  intros HV Hk Hname path Hchain Hcreate Hcopy.
  eexists. split.
  { rewrite receiveFile_frame by done. by apply saveFile_created. }
  fold path.
  unfold filemanager.shiftFileVersions.
  destruct (filemanager.Versions cfg) as [|o] eqn:EV; [lia|].
  destruct (shiftFileVersionsFrom_lookup path o o fs) as (H0 & Hshift & Hrest);
    [done | lia |].
  set (fs1 := filemanager.shiftFileVersionsFrom o path o fs) in *.
  assert (Hup : forall i, fs1 !! filemanager.versionPath path (S i)
                          = if decide (i < o) then fs !! filemanager.versionPath path i
                            else None).
  { intros i. destruct (decide (i < o)) as [Hlt|Hge].
    - apply Hshift; lia.
    - rewrite Hrest.
      + apply eq_None_not_Some. rewrite Hchain. lia.
      + apply versionPath_ne. lia.
      + intros j Hj Hlt. apply versionPath_ne. lia. }
  split; [apply lookup_insert_eq|]. split; [|split].
  - intros i Hi. rewrite Nat.add_1_r.
    rewrite lookup_insert_ne
      by exact (versionPath_ne path 0 (S i) ltac:(lia)).
    rewrite Hup. by rewrite decide_True by lia.
  - intros [|i].
    + change (filemanager.versionPath path 0) with path.
      rewrite lookup_insert_eq. split; [lia | by eexists].
    + rewrite lookup_insert_ne
        by exact (versionPath_ne path 0 (S i) ltac:(lia)).
      rewrite Hup. destruct (decide (i < o)).
      * rewrite Hchain. lia.
      * split; [by intros [? ?] | lia].
  - intros p Hp.
    rewrite lookup_insert_ne by (apply not_eq_sym; exact (Hp 0)).
    apply Hrest; [exact (Hp 0)|]. intros j _ _. apply Hp.
Qed.

Lemma receiveFile_extends_chain_witness :
  exists fs' : FS,
    filemanager.receiveFile scenario.disk (scenario.receiver 3)
      (uint8 5 :: list_byte_of_string "a.txt" ++ list_byte_of_string "!",
       scenario.twoVersions)
    = (Ok tt, ([], fs'))
    /\ fs' !! "/out/a.txt" = Some (list_byte_of_string "!")
    /\ fs' !! "/out/a.txt.1" = Some (list_byte_of_string "world")
    /\ fs' !! "/out/a.txt.2" = Some (list_byte_of_string "hello").
Proof.
  destruct (receiveFile_extends_chain scenario.disk (scenario.receiver 3)
              (list_byte_of_string "a.txt") (list_byte_of_string "!")
              scenario.twoVersions 2)
    as (fs' & Hrecv & Hnew & Hshift & _).
  - simpl. lia.
  - simpl. lia.
  - simpl. lia.
  - exact twoVersions_chain.
  - reflexivity.
  - reflexivity.
  - exists fs'. split; [exact Hrecv|]. split; [exact Hnew|]. split.
    + exact (Hshift 0 ltac:(simpl; lia)).
    + exact (Hshift 1 ltac:(simpl; lia)).
Defined.

(** X6. [shiftFileVersions] on any directory content, gaps and stale files
    included: for a cap [V >= 1] it leaves [path] absent and moves
    whatever is at index [i], file or gap, to index [i + 1] as long as
    [i + 1 < V]; it never touches a file of index [V] or above, nor a path
    outside the chain; for a cap of 0 it changes nothing. *)
Theorem shiftFileVersions_shifts_below_cap_only
    (cfg : filemanager.BackupperConfig) (path : string) (fs : FS) :
  let V := filemanager.Versions cfg in
  let fs' := filemanager.shiftFileVersions cfg path fs in
  (1 <= V -> fs' !! path = None)
  /\ (forall i, i + 1 < V ->
                fs' !! filemanager.versionPath path (i + 1)
                = fs !! filemanager.versionPath path i)
  /\ (forall i, V <= i -> 1 <= i ->
                fs' !! filemanager.versionPath path i
                = fs !! filemanager.versionPath path i)
  /\ (forall p, (forall i, p <> filemanager.versionPath path i) ->
                fs' !! p = fs !! p)
  /\ (V = 0 -> fs' = fs).
Proof.
  intros V fs'. subst V fs'. unfold filemanager.shiftFileVersions.
  destruct (filemanager.Versions cfg) as [|o] eqn:EV.
  - repeat split; try done; lia.
  - destruct (shiftFileVersionsFrom_lookup path o o fs) as (H0 & Hshift & Hrest);
      [done | lia |].
    split; [by intros _|]. split; [|split; [|split]].
    + intros i Hi. rewrite Nat.add_1_r. apply Hshift; lia.
    + intros i Hi _. apply Hrest.
      * apply versionPath_ne. lia.
      * intros j Hj Hlt. apply versionPath_ne. lia.
    + intros p Hp. apply Hrest; [apply Hp|]. intros j _ _. apply Hp.
    + done.
Qed.

Section ReceiveCases.

Context (disk : Disk) (cfg : filemanager.BackupperConfig).

Lemma receiveFile_complete_header (nameLen : byte) (tail : list byte) (fs : FS) :
  Byte.to_nat nameLen <= length tail ->
  let path := (filemanager.DestinationDir cfg +:+ "/")
                +:+ string_of_list_byte (take (Byte.to_nat nameLen) tail) in
  filemanager.receiveFile disk cfg (nameLen :: tail, fs)
  = filemanager.saveFile disk path
      (drop (Byte.to_nat nameLen) tail, filemanager.shiftFileVersions cfg path fs).
Proof.
  intros Hlen path. subst path.
  unfold filemanager.receiveFile, io_bind, io_on_fst, io_on_snd.
  rewrite binary_Read_uint8_cons. unfold binary_Read_bytes.
  by rewrite io_ReadFull_enough.
Qed.

Lemma receiveFile_incomplete_header (nameLen : byte) (tail : list byte) (fs : FS) :
  length tail < Byte.to_nat nameLen ->
  filemanager.receiveFile disk cfg (nameLen :: tail, fs)
  = (Err (match tail with [] => io_EOF | _ => io_ErrUnexpectedEOF end), ([], fs)).
Proof.
  intros Hlen.
  unfold filemanager.receiveFile, io_bind, io_on_fst, io_on_snd.
  rewrite binary_Read_uint8_cons. unfold binary_Read_bytes, io_ReadFull.
  destruct (Nat.eqb_spec (Byte.to_nat nameLen) 0) as [Hz|_]; [lia|].
  destruct tail as [|b tail]; [done|].
  cbn [length Nat.eqb].
  destruct (Nat.ltb_spec (S (length tail)) (Byte.to_nat nameLen)) as [_|Hge];
    [done | cbn [length] in Hlen; lia].
Qed.

End ReceiveCases.

(** X8. When [receiveFile] fails. It succeeds exactly on a stream with a
    complete header (a length byte and as many name bytes as it
    announces) whose path [os.Create] accepts after the rotation and whose
    content [io.Copy] copies to the end. A failure is one of three. On an
    incomplete header it returns [io.EOF] (empty stream, or no name byte
    at all) or [io.ErrUnexpectedEOF] (some name bytes, too few), and the
    file system is as it was. On a refused [os.Create] it returns that
    error after the versions at the path have been rotated, the content
    left unread. On an [io.Copy] that stops early it returns that error,
    the versions rotated and the file holding what was written. *)
Theorem receiveFile_failure_cases
    (disk : Disk) (cfg : filemanager.BackupperConfig)
    (stream : list byte) (fs : FS) :
  let pathOf := fun (nameLen : byte) (tail : list byte) =>
    (filemanager.DestinationDir cfg +:+ "/")
      +:+ string_of_list_byte (take (Byte.to_nat nameLen) tail) in
  (fst (filemanager.receiveFile disk cfg (stream, fs)) = Ok tt
   <-> exists nameLen tail,
         stream = nameLen :: tail
         /\ Byte.to_nat nameLen <= length tail
         /\ os_Create disk (pathOf nameLen tail)
              (filemanager.shiftFileVersions cfg (pathOf nameLen tail) fs) = None
         /\ io_Copy disk (pathOf nameLen tail) (drop (Byte.to_nat nameLen) tail)
            = None)
  /\ (forall e rest fs',
         filemanager.receiveFile disk cfg (stream, fs) = (Err e, (rest, fs')) ->
         (fs' = fs
          /\ ((stream = [] /\ e = io_EOF)
              \/ exists nameLen tail,
                  stream = nameLen :: tail
                  /\ length tail < Byte.to_nat nameLen
                  /\ ((tail = [] /\ e = io_EOF)
                      \/ (tail <> [] /\ e = io_ErrUnexpectedEOF))))
         \/ exists nameLen tail,
             stream = nameLen :: tail
             /\ Byte.to_nat nameLen <= length tail
             /\ let path := pathOf nameLen tail in
                let content := drop (Byte.to_nat nameLen) tail in
                let rotated := filemanager.shiftFileVersions cfg path fs in
                (os_Create disk path rotated = Some e
                 /\ rest = content
                 /\ fs' = rotated)
                \/ (os_Create disk path rotated = None
                    /\ exists failure,
                        io_Copy disk path content = Some failure
                        /\ e = copyError failure
                        /\ rest = drop (bytesRead failure) content
                        /\ fs' = <[path := take (bytesWritten failure) content]>
                                   rotated)).
Proof.
  intros pathOf. subst pathOf.
  destruct stream as [|nameLen tail].
  { split.
    - split; [done|]. by intros (? & ? & ? & _).
    - intros e rest fs'. cbn. intros [= <- <- <-]. left. split; [done|]. by left. }
  destruct (Nat.le_gt_cases (Byte.to_nat nameLen) (length tail)) as [Hle|Hgt].
  - rewrite receiveFile_complete_header by done.
    unfold filemanager.saveFile.
    set (path := (filemanager.DestinationDir cfg +:+ "/")
                   +:+ string_of_list_byte (take (Byte.to_nat nameLen) tail)).
    set (content := drop (Byte.to_nat nameLen) tail).
    set (rotated := filemanager.shiftFileVersions cfg path fs).
    destruct (os_Create disk path rotated) as [err|] eqn:Hcreate.
    + split.
      * split; [done|].
        intros (nameLen' & tail' & [= <- <-] & _ & Hcreate' & _).
        fold path rotated in Hcreate'. congruence.
      * intros e rest fs' [= <- <- <-]. right. exists nameLen, tail.
        split; [done|]. split; [done|]. fold path content rotated.
        left. by rewrite Hcreate.
    + destruct (io_Copy disk path content) as [failure|] eqn:Hcopy.
      * split.
        -- split; [done|].
           intros (nameLen' & tail' & [= <- <-] & _ & _ & Hcopy').
           fold path content in Hcopy'. congruence.
        -- intros e rest fs' [= <- <- <-]. right. exists nameLen, tail.
           split; [done|]. split; [done|]. fold path content rotated.
           right. rewrite Hcreate. split; [done|]. by exists failure.
      * split; [|done].
        split; [|done]. intros _. exists nameLen, tail.
        fold path content rotated. by rewrite Hcreate.
  - rewrite receiveFile_incomplete_header by done. split.
    + split; [done|]. intros (nameLen' & tail' & [= <- <-] & Hle & _). lia.
    + intros e rest fs' [= <- <- <-]. left. split; [done|]. right.
      exists nameLen, tail. split; [done|]. split; [done|].
      destruct tail; [by left | by right].
Qed.

Lemma receiveFile_failure_cases_witness :
  fst (filemanager.receiveFile scenario.disk (scenario.receiver 2)
         (uint8 5 :: list_byte_of_string "a.txt" ++ list_byte_of_string "!",
          scenario.twoVersions))
  = Ok tt
  /\ fst (filemanager.receiveFile scenario.disk (scenario.receiver 2)
            (uint8 5 :: list_byte_of_string "a.t", scenario.twoVersions))
     <> Ok tt
  /\ fst (filemanager.receiveFile scenario.disk (scenario.receiver 2)
            (uint8 14 :: list_byte_of_string "nodir/evil.txt"
               ++ list_byte_of_string "!",
             scenario.twoVersions))
     <> Ok tt.
Proof.
  split; [|split].
  - apply (receiveFile_failure_cases scenario.disk (scenario.receiver 2)).
    exists (uint8 5), (list_byte_of_string "a.txt" ++ list_byte_of_string "!").
    split; [reflexivity|]. split; [simpl; lia|]. split; reflexivity.
  - intros Hok.
    apply (receiveFile_failure_cases scenario.disk (scenario.receiver 2)) in Hok
      as (nameLen & tail & [= <- <-] & Hle & _).
    simpl in Hle. lia.
  - intros Hok.
    apply (receiveFile_failure_cases scenario.disk (scenario.receiver 2)) in Hok
      as (nameLen & tail & [= <- <-] & _ & Hcreate & _).
    discriminate Hcreate.
Defined.

Section BaseName.

Lemma takeElement_no_separator (l : list ascii) :
  Forall (fun c => os_IsPathSeparator c = false) (takeElement l).
Proof.
  induction l as [|c l IH]; cbn; [constructor|].
  destruct (os_IsPathSeparator c) eqn:Hc; by constructor.
Qed.

Lemma strings_Contains_separator (s : string) :
  Forall (fun c => os_IsPathSeparator c = false) (list_ascii_of_string s) ->
  strings_Contains s "/" = false.
Proof.
  induction s as [|c s IH]; cbn [list_ascii_of_string]; intros Hall.
  - reflexivity.
  - apply Forall_cons in Hall as [Hc Hs].
    cbn [strings_Contains String.prefix]. rewrite (IH Hs), orb_false_r.
    unfold os_IsPathSeparator in Hc. apply Ascii.eqb_neq in Hc.
    destruct (ascii_dec "/" c) as [Heq|_]; [by subst c | done].
Qed.

(** [filepath.Base] never returns the empty string, and what it returns
    has no separator in it unless it is the root itself. *)
Lemma filepath_Base_single_segment (path : string) :
  filepath_Base path <> ""
  /\ (filepath_Base path = "/"
      \/ strings_Contains (filepath_Base path) "/" = false).
Proof.
  unfold filepath_Base. destruct path as [|c path]; [split; [done | by right]|].
  set (stripped := dropSeparators _).
  pose proof (takeElement_no_separator stripped) as Hall.
  destruct (takeElement stripped) as [|x element] eqn:Helem;
    [split; [done | by left]|].
  split.
  - intros Hempty. apply (f_equal list_ascii_of_string) in Hempty.
    rewrite list_ascii_of_string_of_list_ascii in Hempty.
    apply (f_equal length) in Hempty. rewrite length_rev in Hempty. done.
  - right. apply strings_Contains_separator.
    rewrite list_ascii_of_string_of_list_ascii.
    by apply Forall_rev.
Qed.

End BaseName.

(** X9. The raw-mode sender and the receiver, end to end: [sendSourceFile]
    frames the source file under [filepath.Base] of its path, a name that
    is never empty and holds no separator unless it is the root; when that
    name is at most 255 bytes long, [receiveFile] on the frame saves
    exactly the content of the source file at [DestinationDir/name], after
    rotating the versions there, on every disk that creates the file and
    copies it to the end. *)
Theorem sendSourceFile_arrives_under_base_name
    (disk : Disk) (sender receiver : filemanager.BackupperConfig)
    (content : list byte) (senderFS receiverFS : FS) :
  senderFS !! filemanager.SourceEntry sender = Some content ->
  String.length (filepath_Base (filemanager.SourceEntry sender)) <= 255 ->
  let name := filepath_Base (filemanager.SourceEntry sender) in
  let path := (filemanager.DestinationDir receiver +:+ "/") +:+ name in
  name <> ""
  /\ (name = "/" \/ strings_Contains name filemanager.os_PathSeparator = false)
  /\ exists frame : Buffer,
      filemanager.sendSourceFile filepath_Base sender ([] : Buffer) senderFS
      = Ok frame
      /\ frame = uint8 (String.length name) :: list_byte_of_string name ++ content
      /\ (os_Create disk path
            (filemanager.shiftFileVersions receiver path receiverFS) = None ->
          io_Copy disk path content = None ->
          filemanager.receiveFile disk receiver (frame, receiverFS)
          = (Ok tt, ([], <[path := content]>
                           (filemanager.shiftFileVersions receiver path receiverFS)))).
Proof.
  intros Hsrc Hlen name path.
  destruct (filepath_Base_single_segment (filemanager.SourceEntry sender))
    as [Hne Hseg].
  split; [exact Hne|]. split; [exact Hseg|].
  exists (uint8 (String.length name) :: list_byte_of_string name ++ content).
  split; [|split; [reflexivity|]].
  - unfold filemanager.sendSourceFile, filemanager.writeFile.
    by rewrite writeFilename_Buffer, Hsrc.
  - intros Hcreate Hcopy.
    destruct (sendSourceFile_receiveFile disk filepath_Base sender receiver content
                senderFS receiverFS Hsrc Hlen Hcreate Hcopy)
      as (frame & Hsend & Hrecv).
    unfold filemanager.sendSourceFile, filemanager.writeFile in Hsend.
    rewrite writeFilename_Buffer, Hsrc in Hsend. cbn [bind app] in Hsend.
    unfold Write, Buffer_Writer in Hsend.
    injection Hsend as <-. exact Hrecv.
Qed.

Lemma sendSourceFile_arrives_under_base_name_witness :
  exists frame : Buffer,
    filemanager.sendSourceFile filepath_Base scenario.sender ([] : Buffer)
      {[ "/t/a.txt" := list_byte_of_string "hello" ]}
    = Ok frame
    /\ filemanager.receiveFile scenario.disk (scenario.receiver 1) (frame, ∅)
       = (Ok tt, ([], {[ "/out/a.txt" := list_byte_of_string "hello" ]})).
Proof.
  destruct (sendSourceFile_arrives_under_base_name
              scenario.disk scenario.sender (scenario.receiver 1)
              (list_byte_of_string "hello")
              {[ "/t/a.txt" := list_byte_of_string "hello" ]} ∅)
    as (_ & _ & frame & Hsend & _ & Hrecv).
  - reflexivity.
  - vm_compute. lia.
  - exists frame. split; [exact Hsend | apply Hrecv; reflexivity].
Defined.

(** X10. [NewBackupper] accepts a configuration exactly when the
    destination, if set, is a directory, and the source, if set, is a
    directory together with a non-empty output filename in archive mode,
    or a regular file in raw mode. Nothing else is checked: neither the
    version cap nor the passwords, nor the output filename in raw mode.
    The backupper it returns holds the configuration unchanged. *)
Theorem NewBackupper_accepts_exactly
    (errNotDirectory errIsDirectory : string)
    (cfg : filemanager.BackupperConfig) (dirs : gset string) (fs : FS) :
  let destinationOk :=
    filemanager.DestinationDir cfg = ""
    \/ (filemanager.DestinationDir cfg ∈ dirs) in
  let sourceOk :=
    filemanager.SourceEntry cfg = ""
    \/ (filemanager.ZipDir cfg = true
        /\ (filemanager.SourceEntry cfg ∈ dirs)
        /\ filemanager.OutputFilename cfg <> "")
    \/ (filemanager.ZipDir cfg = false
        /\ (filemanager.SourceEntry cfg ∉ dirs)
        /\ is_Some (fs !! filemanager.SourceEntry cfg)) in
  (destinationOk /\ sourceOk ->
   filemanager.NewBackupper errNotDirectory errIsDirectory cfg dirs fs
   = Ok {| filemanager.cfg := cfg; filemanager.shutdownChan := make_chan |})
  /\ (forall b,
         filemanager.NewBackupper errNotDirectory errIsDirectory cfg dirs fs = Ok b ->
         destinationOk /\ sourceOk).
Proof.
  intros destinationOk sourceOk. subst destinationOk sourceOk.
  unfold filemanager.NewBackupper, os_Stat_IsDir, os_Stat.
  assert (Hlen : forall s : string, Nat.eqb (String.length s) 0 = true <-> s = "").
  { intros [|c s]; cbn; split; done. }
  destruct (Nat.eqb (String.length (filemanager.DestinationDir cfg)) 0) eqn:Hd;
    [apply Hlen in Hd | assert (filemanager.DestinationDir cfg <> "")
                          by (intros Heq; apply Hlen in Heq; congruence)];
    (destruct (Nat.eqb (String.length (filemanager.SourceEntry cfg)) 0) eqn:Hs;
     [apply Hlen in Hs | assert (filemanager.SourceEntry cfg <> "")
                           by (intros Heq; apply Hlen in Heq; congruence)]);
    cbn [negb bind];
    repeat case_decide; cbn [negb bind];
    repeat (case_bool_decide; cbn [negb bind]);
    destruct (filemanager.ZipDir cfg); cbn [negb bind];
    try (destruct (Nat.eqb (String.length (filemanager.OutputFilename cfg)) 0) eqn:Ho;
         [apply Hlen in Ho | assert (filemanager.OutputFilename cfg <> "")
                               by (intros Heq; apply Hlen in Heq; congruence)]);
    (split; [intros [Hdst Hsrc] | intros b Hb]);
    try done; try (by intuition); try (by intuition congruence).
Qed.

Lemma NewBackupper_accepts_exactly_witness :
  filemanager.NewBackupper "not a directory" "is a directory"
    (scenario.receiver 3) {[ "/out" ]} ∅
  = Ok {| filemanager.cfg := scenario.receiver 3;
          filemanager.shutdownChan := make_chan |}.
Proof.
  destruct (NewBackupper_accepts_exactly "not a directory" "is a directory"
              (scenario.receiver 3) {[ "/out" ]} ∅) as [Haccept _].
  apply Haccept. split.
  - right. apply elem_of_singleton. reflexivity.
  - left. reflexivity.
Defined.

(** ** pkg/signal *)

Section SignalMore.

Context (codec : signal.Codec) {H : Type}.

Lemma doUntilAnswered_busy (req : signal.Request) (busy : list signal.Response) :
  Forall (fun resp => signal.StatusCode resp = signal.StatusTooManyRequests) busy ->
  forall (tail : list (result signal.Response)) (sent : list signal.Request),
    signal.doUntilAnswered req (map Ok busy ++ tail) sent
    = signal.doUntilAnswered req tail (sent ++ repeat req (length busy)).
Proof.
  induction 1 as [|resp busy Hresp _ IH]; intros tail sent.
  - cbn. by rewrite app_nil_r.
  - cbn [map app signal.doUntilAnswered]. rewrite Hresp, Z.eqb_refl, IH.
    cbn [length repeat]. by rewrite <- app_assoc.
Qed.

Lemma strings_Contains_prefix (s substr : string) :
  String.prefix substr s = true -> strings_Contains s substr = true.
Proof. intros Hp. destruct s; cbn [strings_Contains]; by rewrite Hp. Qed.

Lemma strings_Contains_app (a s substr : string) :
  strings_Contains s substr = true -> strings_Contains (a +:+ s) substr = true.
Proof.
  intros Hs. induction a as [|c a IH]; [done|].
  change (String c a +:+ s) with (String c (a +:+ s)).
  change (strings_Contains (String c (a +:+ s)) substr)
    with (String.prefix substr (String c (a +:+ s))
          || strings_Contains (a +:+ s) substr).
  rewrite IH. apply orb_true_r.
Qed.

Lemma prefix_app (a b : string) : String.prefix a (a +:+ b) = true.
Proof.
  induction a as [|c a IH]; [by destruct b|].
  change (String c a +:+ b) with (String c (a +:+ b)).
  cbn [String.prefix]. destruct (ascii_dec c c); [exact IH | done].
Qed.

End SignalMore.

(** X11. [request] keeps calling [Do] with the same request for as long as
    the answer is a 429: after [n] such answers the next outcome, a
    response of any other status or a transport error, is what it returns,
    the request having been handed to [Do] [n + 1] times; it never returns
    a 429. Every request carries the API key as its [Authorization]
    header. *)
Theorem request_retries_while_429
    (H : Type) (s : signal.FileIo H) (method urn : string)
    (headers : list (string * string)) (body : list byte)
    (busy : list signal.Response) (next : result signal.Response)
    (rest : list (result signal.Response)) (sent : list signal.Request) :
  Forall (fun resp => signal.StatusCode resp = 429%Z) busy ->
  (forall resp, next = Ok resp -> signal.StatusCode resp <> 429%Z) ->
  let req := signal.newRequest s method urn headers body in
  signal.request s method urn headers body
    {| signal.answers := map Ok busy ++ next :: rest; signal.sent := sent |}
  = (next, {| signal.answers := rest;
              signal.sent := sent ++ repeat req (S (length busy)) |})
  /\ signal.request s method urn headers body
       {| signal.answers := map Ok busy; signal.sent := sent |}
     = (Err signal.errNoAnswer,
        {| signal.answers := [];
           signal.sent := sent ++ repeat req (S (length busy)) |})
  /\ In ("Authorization", signal.APIKey (signal.cfg s)) (signal.Header req).
Proof.
  intros Hbusy Hnext req. unfold signal.request. cbn [signal.answers signal.sent].
  fold req. split; [|split].
  - rewrite doUntilAnswered_busy by done.
    change (S (length busy)) with (1 + length busy).
    rewrite Nat.add_comm, repeat_app, app_assoc. cbn [repeat].
    destruct next as [resp|e]; cbn [signal.doUntilAnswered]; [|done].
    specialize (Hnext resp eq_refl). apply Z.eqb_neq in Hnext.
    unfold signal.StatusTooManyRequests. by rewrite Hnext.
  - rewrite <- (app_nil_r (map Ok busy)).
    rewrite doUntilAnswered_busy by done.
    change (S (length busy)) with (1 + length busy).
    rewrite Nat.add_comm, repeat_app, app_assoc. reflexivity.
  - subst req. cbn. apply in_or_app. right. by left.
Qed.

Lemma request_retries_while_429_witness :
  signal.request scenario.fileIo "DELETE" "/k1" [("Accept", "application/json")] []
    (scenario.network
       [scenario.answer 429 ""; scenario.answer 429 ""; scenario.answer 403 ""])
  = (scenario.answer 403 "",
     {| signal.answers := [];
        signal.sent :=
          repeat (signal.newRequest scenario.fileIo "DELETE" "/k1"
                    [("Accept", "application/json")] []) 3 |}).
Proof.
  destruct (request_retries_while_429 _ scenario.fileIo "DELETE" "/k1"
              [("Accept", "application/json")] []
              [ {| signal.StatusCode := 429; signal.Body := [] |};
                {| signal.StatusCode := 429; signal.Body := [] |} ]
              (scenario.answer 403 "") [] [])
    as (Hrun & _).
  - repeat constructor.
  - intros resp [= <-]. discriminate.
  - exact Hrun.
Defined.

(** X12. The search and the upload accept the status 200 only: given the
    response [request] hands back, [findFiles] returns what the JSON
    decoder makes of the body when the status is 200 and a
    response-status error otherwise (a 404 included, unlike the
    download), and [uploadFile] succeeds when the status is 200 and
    returns a response-status error otherwise. *)
Theorem findFiles_uploadFile_accept_200_only
    (codec : signal.Codec) (H : Type) (s : signal.FileIo H)
    (pattern name : string) (content : signal.fileIoFileContent)
    (net netF netU : signal.Net) (respF respU : signal.Response) :
  signal.request s "GET" ("/?search=" +:+ pattern +:+ "&sort=created:asc")
    [("Accept", "application/json")] [] net
    = (Ok respF, netF) ->
  signal.request s "POST" "/"
    [("Accept", "application/json");
     ("Content-Type", "multipart/form-data; boundary=---011000010111000001101001")]
    (signal.multipartForm codec name content) net
    = (Ok respU, netU) ->
  (signal.StatusCode respF = 200%Z ->
   signal.findFiles codec s pattern net
   = (signal.json_Decode (signal.unmarshalFiles codec) (signal.Body respF), netF))
  /\ (signal.StatusCode respF <> 200%Z ->
      signal.findFiles codec s pattern net
      = (Err (errResponseStatus (signal.StatusCode respF)), netF))
  /\ (signal.StatusCode respU = 200%Z ->
      signal.uploadFile codec s name content net = (Ok tt, netU))
  /\ (signal.StatusCode respU <> 200%Z ->
      signal.uploadFile codec s name content net
      = (Err (errResponseStatus (signal.StatusCode respU)), netU)).
Proof.
  intros Hfind Hup.
  unfold signal.findFiles, signal.uploadFile, io_bind. cbn zeta.
  change ("multipart/form-data; boundary=" +:+ "---011000010111000001101001")
    with "multipart/form-data; boundary=---011000010111000001101001".
  rewrite Hfind, Hup. unfold signal.StatusOK.
  repeat split.
  - intros ->. reflexivity.
  - intros Hne. apply Z.eqb_neq in Hne. by rewrite Hne.
  - intros ->. reflexivity.
  - intros Hne. apply Z.eqb_neq in Hne. by rewrite Hne.
Qed.

Lemma findFiles_uploadFile_accept_200_only_witness :
  signal.findFiles scenario.codec scenario.fileIo "91c04021"
    (scenario.network [scenario.answer 404 "no entries"])
  = (Err (errResponseStatus 404),
     {| signal.answers := [];
        signal.sent := [signal.newRequest scenario.fileIo "GET"
                          "/?search=91c04021&sort=created:asc"
                          [("Accept", "application/json")] []] |}).
Proof.
  destruct (findFiles_uploadFile_accept_200_only scenario.codec _ scenario.fileIo
              "91c04021" "n" {| signal.Type_ := "ping"; signal.Payload := [] |}
              (scenario.network [scenario.answer 404 "no entries"])
              {| signal.answers := [];
                 signal.sent := [signal.newRequest scenario.fileIo "GET"
                                   "/?search=91c04021&sort=created:asc"
                                   [("Accept", "application/json")] []] |}
              {| signal.answers := [];
                 signal.sent := [signal.newRequest scenario.fileIo "POST" "/"
                                   [("Accept", "application/json");
                                    ("Content-Type",
                                     "multipart/form-data; boundary=---011000010111000001101001")]
                                   (signal.multipartForm scenario.codec "n"
                                      {| signal.Type_ := "ping"; signal.Payload := [] |})] |}
              {| signal.StatusCode := 404; signal.Body := list_byte_of_string "no entries" |}
              {| signal.StatusCode := 404; signal.Body := list_byte_of_string "no entries" |})
    as (_ & Hfind & _).
  - reflexivity.
  - reflexivity.
  - apply Hfind. discriminate.
Defined.

(** X13. [cleanUp] lists the entries of the session and sends a DELETE for
    every listed entry, those of the own instance included, in listing
    order, whatever the deletions answer. When the listing fails, it goes
    on with the nil listing and the call ends in a nil dereference. *)
Theorem cleanUp_deletes_every_listed_entry
    (codec : signal.Codec) (H : Type) (s : signal.FileIo H) (net : signal.Net) :
  (forall files net1,
      signal.findFiles codec s (signal.SessionID (signal.cfg s)) net
      = (Ok files, net1) ->
      exists (net2 : signal.Net) (attempts : list nat),
        signal.cleanUp codec s net = (Ok tt, net2)
        /\ length attempts = length (signal.Nodes files)
        /\ signal.sent net2
           = signal.sent net1
               ++ concat (zip_with
                            (fun node k =>
                               repeat (signal.newRequest s "DELETE"
                                         ("/" +:+ signal.Key node)
                                         [("Accept", "application/json")] []) (S k))
                            (signal.Nodes files) attempts))
  /\ (forall e net1,
         signal.findFiles codec s (signal.SessionID (signal.cfg s)) net
         = (Err e, net1) ->
         signal.cleanUp codec s net
         = (Err (runtime_panic "nil pointer dereference"), net1)).
Proof.
  split.
  - intros files net1 Hfind.
    destruct (delete_range_sent s (signal.Nodes files) net1)
      as (attempts & Hlen & Hsent).
    eexists _, attempts. split; [|split; [exact Hlen | exact Hsent]].
    unfold signal.cleanUp. by rewrite Hfind.
  - intros e net1 Hfind. unfold signal.cleanUp. by rewrite Hfind.
Qed.

Lemma cleanUp_deletes_every_listed_entry_witness :
  exists (net2 : signal.Net) (attempts : list nat),
    signal.cleanUp scenario.codec scenario.fileIo
      (scenario.network
         [scenario.answer 200 "sdp and own candidate";
          scenario.answer 500 ""; scenario.answer 200 ""])
    = (Ok tt, net2)
    /\ length attempts = 2
    /\ signal.sent net2
       = [signal.newRequest scenario.fileIo "GET"
            "/?search=91c04021&sort=created:asc"
            [("Accept", "application/json")] []]
           ++ concat (zip_with
                        (fun node k =>
                           repeat (signal.newRequest scenario.fileIo "DELETE"
                                     ("/" +:+ signal.Key node)
                                     [("Accept", "application/json")] []) (S k))
                        [scenario.peerSDP; scenario.ownCandidate] attempts).
Proof.
  destruct (cleanUp_deletes_every_listed_entry scenario.codec _ scenario.fileIo
              (scenario.network
                 [scenario.answer 200 "sdp and own candidate";
                  scenario.answer 500 ""; scenario.answer 200 ""]))
    as [Hlisted _].
  exact (Hlisted {| signal.Nodes := [scenario.peerSDP; scenario.ownCandidate] |}
                 {| signal.answers := [scenario.answer 500 ""; scenario.answer 200 ""];
                    signal.sent :=
                      [signal.newRequest scenario.fileIo "GET"
                         "/?search=91c04021&sort=created:asc"
                         [("Accept", "application/json")] []] |}
                 eq_refl).
Defined.

(** X14. What an instance uploads it never polls back. [uploadPing],
    [uploadSDP] and [uploadCandidate] each hand [Do] first a POST to
    [https://file.io/] whose form stores the entry under the name
    [${SessionID}_ping_${InstanceID}.json], [..._sdp_...] and
    [..._candidate_...] respectively, whatever the network answers. Each of
    these names contains the own [InstanceID], so the loop of
    [sniffCandidates] passes over an entry so named without a download or
    a handler call. *)
Theorem own_uploads_are_skipped_by_own_poll
    (codec : signal.Codec) (H : Type) (s : signal.FileIo H)
    (payload : list byte) (net : signal.Net) (key : string) (st : signal.Net * H) :
  let nameOf := fun kind : string =>
    signal.SessionID (signal.cfg s) +:+ "_" +:+ kind +:+ "_"
      +:+ signal.InstanceID (signal.cfg s) +:+ ".json" in
  let posted := fun kind content =>
    {| signal.Method := "POST";
       signal.URL := "https://file.io/";
       signal.Header :=
         [("Accept", "application/json");
          ("Content-Type",
           "multipart/form-data; boundary=---011000010111000001101001");
          ("Authorization", signal.APIKey (signal.cfg s))];
       signal.ReqBody :=
         signal.multipartForm codec (nameOf kind)
           {| signal.Type_ := kind; signal.Payload := content |} |} in
  let skipped := fun kind =>
    strings_Contains (nameOf kind) (signal.InstanceID (signal.cfg s)) = true
    /\ signal.sniffNode codec s
         {| signal.Key := key; signal.Name := nameOf kind |} st
       = st in
  (exists rest,
      signal.sent (snd (signal.uploadPing codec s net))
      = signal.sent net ++ posted "ping" [] :: rest)
  /\ (exists rest,
         signal.sent (snd (signal.uploadSDP codec s payload net))
         = signal.sent net ++ posted "sdp" payload :: rest)
  /\ (exists rest,
         signal.sent (snd (signal.uploadCandidate codec s payload net))
         = signal.sent net ++ posted "candidate" payload :: rest)
  /\ skipped "ping" /\ skipped "sdp" /\ skipped "candidate".
Proof.
  intros nameOf posted skipped.
  assert (Hskipped : forall kind, skipped kind).
  { intros kind.
    assert (Hown : strings_Contains (nameOf kind)
                     (signal.InstanceID (signal.cfg s)) = true).
    { subst nameOf. cbv beta.
      do 4 apply strings_Contains_app.
      apply strings_Contains_prefix, prefix_app. }
    split; [exact Hown|]. by apply sniffNode_own. }
  split; [|split; [|split; [|split; [|split]; apply Hskipped]]].
  - destruct (signal.uploadPing codec s net) as [r net'] eqn:Hup.
    destruct (uploadFile_sent codec s _ _ _ _ _ Hup) as [k Hsent].
    exists (repeat (posted "ping" []) k). exact Hsent.
  - destruct (signal.uploadSDP codec s payload net) as [r net'] eqn:Hup.
    destruct (uploadFile_sent codec s _ _ _ _ _ Hup) as [k Hsent].
    exists (repeat (posted "sdp" payload) k). exact Hsent.
  - destruct (signal.uploadCandidate codec s payload net) as [r net'] eqn:Hup.
    destruct (uploadFile_sent codec s _ _ _ _ _ Hup) as [k Hsent].
    exists (repeat (posted "candidate" payload) k). exact Hsent.
Qed.

Lemma own_uploads_are_skipped_by_own_poll_witness :
  signal.sent (snd (signal.uploadSDP scenario.codec scenario.fileIo
                      (list_byte_of_string "offer")
                      (scenario.network [scenario.answer 200 ""])))
  = [{| signal.Method := "POST";
        signal.URL := "https://file.io/";
        signal.Header :=
          [("Accept", "application/json");
           ("Content-Type",
            "multipart/form-data; boundary=---011000010111000001101001");
           ("Authorization", "key")];
        signal.ReqBody :=
          signal.multipartForm scenario.codec "91c04021_sdp_inst-A.json"
            {| signal.Type_ := "sdp";
               signal.Payload := list_byte_of_string "offer" |} |}]
  /\ signal.sniffNode scenario.codec scenario.fileIo
       {| signal.Key := "k9"; signal.Name := "91c04021_sdp_inst-A.json" |}
       (scenario.network [scenario.answer 200 "an offer"], [])
     = (scenario.network [scenario.answer 200 "an offer"], []).
Proof.
  destruct (own_uploads_are_skipped_by_own_poll scenario.codec _ scenario.fileIo
              (list_byte_of_string "offer")
              (scenario.network [scenario.answer 200 ""]) "k9"
              (scenario.network [scenario.answer 200 "an offer"], []))
    as (_ & _ & _ & _ & [_ Hskipped] & _).
  split; [reflexivity | exact Hskipped].
Defined.

(** ** pkg/peer *)

Section Runs.

Context (json : peer.Json).

Lemma run_app {Sg} `{peer.Signal Sg} (events1 events2 : list peer.Event)
    (p : peer.WebRTC Sg) :
  peer.run json (events1 ++ events2) p
  = peer.run json events2 (peer.run json events1 p).
Proof. unfold peer.run. apply fold_left_app. Qed.

Lemma run_emitted_buffered {Sg} `{peer.Signal Sg} (cs : list peer.ICECandidate) :
  forall p : peer.WebRTC Sg,
    peer.RemoteDescription (peer.conn p) = None ->
    peer.run json (map (fun c => peer.ICECandidateEvent (Some c)) cs) p
    = peer.with_candidates p (peer.candidates p ++ cs).
Proof.
  induction cs as [|c cs IH]; intros p Hnone.
  - cbn. rewrite app_nil_r. by destruct p.
  - cbn [map]. unfold peer.run in *. cbn [fold_left peer.step].
    unfold peer.onConnICECandidate at 1. rewrite Hnone.
    rewrite IH by done.
    unfold peer.with_candidates. cbn. by rewrite <- app_assoc.
Qed.

Lemma run_emitted_published (cs : list peer.ICECandidate) :
  forall p : peer.WebRTC peer.Mailbox,
    peer.RemoteDescription (peer.conn p) <> None ->
    peer.ConnectionState (peer.conn p) <> peer.PeerConnectionStateClosed ->
    peer.run json (map (fun c => peer.ICECandidateEvent (Some c)) cs) p
    = peer.with_signal p
        (peer.signal p
           ++ map (fun c => peer.PostedCandidate
                              (list_byte_of_string (peer.Candidate c))) cs).
Proof.
  induction cs as [|c cs IH]; intros p Hsome Hopen.
  - cbn. rewrite app_nil_r. by destruct p.
  - cbn [map]. unfold peer.run in *. cbn [fold_left peer.step].
    unfold peer.onConnICECandidate at 1.
    destruct (peer.RemoteDescription (peer.conn p)) as [sdp|] eqn:Hsdp; [|done].
    rewrite signalSendCandidate_open by done. cbn [snd].
    rewrite IH by (cbn; by rewrite ?Hsdp).
    unfold peer.with_signal. cbn. by rewrite <- app_assoc.
Qed.

End Runs.

(** X15. Whatever a peer emits around the one session description it
    accepts reaches the mailbox once and in emission order: starting
    without a remote description on a connection that is not closed, the
    candidates emitted before the description are held back, and when it is
    installed they are published in the order of their emission, followed
    by the candidates emitted afterwards, each at its emission. For an
    offer the answer is published first. The buffer ends up holding the
    candidates emitted before the description. *)
Theorem candidates_published_in_emission_order
    (json : peer.Json) (p : peer.WebRTC peer.Mailbox)
    (before after : list peer.ICECandidate)
    (payload : list byte) (a : peer.Answers) (sdp : peer.SessionDescription) :
  peer.RemoteDescription (peer.conn p) = None ->
  peer.ConnectionState (peer.conn p) <> peer.PeerConnectionStateClosed ->
  peer.Unmarshal json payload = Ok sdp ->
  peer.SetRemoteDescription a = None ->
  let emit := map (fun c => peer.ICECandidateEvent (Some c)) in
  let post := fun c => peer.PostedCandidate (list_byte_of_string (peer.Candidate c)) in
  let p' := peer.run json (emit before ++ peer.SignalSDPEvent payload a :: emit after) p in
  peer.candidates p' = peer.candidates p ++ before
  /\ (peer.Type_ sdp <> peer.SDPTypeOffer ->
      peer.signal p'
      = peer.signal p ++ map post (peer.candidates p ++ before ++ after))
  /\ (forall answer answerPayload,
         peer.Type_ sdp = peer.SDPTypeOffer ->
         peer.CreateAnswer a = Ok answer ->
         peer.Marshal json answer = Ok answerPayload ->
         peer.SetLocalDescription a = None ->
         peer.signal p'
         = peer.signal p
             ++ peer.PostedSDP answerPayload
                  :: map post (peer.candidates p ++ before ++ after)).
Proof.
  intros Hnone Hopen Hsdp Hset emit post p'.
  subst p' emit. rewrite run_app.
  change (peer.SignalSDPEvent payload a :: ?l)
    with ([peer.SignalSDPEvent payload a] ++ l).
  rewrite run_app, (run_emitted_buffered json before p) by done.
  set (p1 := peer.with_candidates p (peer.candidates p ++ before)).
  assert (Hopen1 : peer.ConnectionState (peer.conn p1)
                   <> peer.PeerConnectionStateClosed) by done.
  change (peer.run json [peer.SignalSDPEvent payload a] p1)
    with (peer.onSignalSDP json payload a p1).
  unfold peer.onSignalSDP. rewrite Hsdp, Hset.
  split; [|split].
  - destruct (peer.Type_ sdp).
    + unfold peer.onSignalSDPOffer, io_bind, io_lift.
      destruct (peer.CreateAnswer a) as [answer|e]; cbn [fst snd];
        [|by rewrite run_emitted_published].
      destruct (peer.Marshal json answer) as [answerPayload|e]; cbn [fst snd];
        [|by rewrite run_emitted_published].
      cbn [peer.SendSDP peer.Mailbox_Signal].
      destruct (peer.SetLocalDescription a) as [e|];
        [by rewrite run_emitted_published|].
      rewrite sendCandidates_open by done.
      by rewrite run_emitted_published.
    + rewrite sendCandidates_open by done. by rewrite run_emitted_published.
    + rewrite sendCandidates_open by done. by rewrite run_emitted_published.
    + rewrite sendCandidates_open by done. by rewrite run_emitted_published.
  - intros Htype.
    destruct (peer.Type_ sdp); [done|..];
      rewrite sendCandidates_open by done;
      rewrite run_emitted_published by done;
      cbn; by rewrite !map_app, <- !app_assoc.
  - intros answer answerPayload Htype Hans Hmar Hloc. rewrite Htype.
    unfold peer.onSignalSDPOffer, io_bind, io_lift.
    rewrite Hans, Hmar. cbn [peer.SendSDP peer.Mailbox_Signal]. rewrite Hloc.
    rewrite sendCandidates_open by done.
    rewrite run_emitted_published by done.
    cbn. by rewrite !map_app, <- !app_assoc.
Qed.

Lemma candidates_published_in_emission_order_witness :
  peer.signal
    (peer.run scenario.json
       [peer.ICECandidateEvent (Some scenario.c1);
        peer.SignalSDPEvent (list_byte_of_string "answer") scenario.accepting;
        peer.ICECandidateEvent (Some scenario.c2)]
       scenario.freshPeer)
  = [peer.PostedCandidate (list_byte_of_string "candidate:1");
     peer.PostedCandidate (list_byte_of_string "candidate:2")].
Proof.
  destruct (candidates_published_in_emission_order scenario.json scenario.freshPeer
              [scenario.c1] [scenario.c2]
              (list_byte_of_string "answer") scenario.accepting
              {| peer.Type_ := peer.SDPTypeAnswer; peer.SDP := "answer" |})
    as (_ & Hanswer & _).
  - reflexivity.
  - discriminate.
  - reflexivity.
  - reflexivity.
  - apply Hanswer. discriminate.
Defined.

(** X16. Without a recorded remote description nothing is published: from
    a peer whose connection reports no remote description, a run of
    callbacks in which every session description either does not
    unmarshal or is refused by the connection before it has recorded it
    leaves the signalling side untouched, for any signalling
    implementation, and the connection still reports none at its end. The
    condition cannot be dropped: after such a run, a description that the
    connection refuses after recording it is followed by no flush, and
    the next candidate is sent at once while the buffered ones are not. *)
Theorem nothing_published_before_remote_description
    (Sg : Type) (Hsg : peer.Signal Sg) (json : peer.Json)
    (events : list peer.Event) (p : peer.WebRTC Sg) :
  peer.RemoteDescription (peer.conn p) = None ->
  forallb (fun ev => negb (peer.recordsRemoteDescription json ev)) events = true ->
  peer.signal (peer.run json events p) = peer.signal p
  /\ peer.RemoteDescription (peer.conn (peer.run json events p)) = None
  /\ (forall payload a sdp e c,
         peer.Unmarshal json payload = Ok sdp ->
         peer.SetRemoteDescription a = Some e ->
         peer.RemoteDescriptionRecorded a = true ->
         peer.ConnectionState (peer.conn (peer.run json events p))
         <> peer.PeerConnectionStateClosed ->
         let p' := peer.run json
                     (events ++ [peer.SignalSDPEvent payload a;
                                 peer.ICECandidateEvent (Some c)]) p in
         peer.signal p'
         = snd (peer.SendCandidate (list_byte_of_string (peer.Candidate c))
                  (peer.signal p))
         /\ peer.candidates p' = peer.candidates (peer.run json events p)).
Proof.
  intros Hnone Hevents.
  assert (Hrun : peer.signal (peer.run json events p) = peer.signal p
                 /\ peer.RemoteDescription (peer.conn (peer.run json events p)) = None).
  { revert p Hnone Hevents.
    induction events as [|ev events IH]; intros p Hnone Hevents; [done|].
    cbn [forallb] in Hevents. apply andb_true_iff in Hevents as [Hev Hevents].
    unfold peer.run in *. cbn [fold_left].
    assert (Hstep : peer.signal (peer.step json p ev) = peer.signal p
                    /\ peer.RemoteDescription (peer.conn (peer.step json p ev)) = None).
    { destruct ev as [[c|]|payload a|state|]; cbn [peer.step].
      - unfold peer.onConnICECandidate. by rewrite Hnone.
      - done.
      - unfold peer.onSignalSDP. cbn in Hev.
        destruct (peer.Unmarshal json payload); [|done].
        destruct (peer.SetRemoteDescription a); [|done].
        by destruct (peer.RemoteDescriptionRecorded a).
      - by destruct state.
      - done. }
    destruct Hstep as [Hsignal Hnone'].
    destruct (IH (peer.step json p ev) Hnone' Hevents) as [IHsignal IHnone].
    by rewrite IHsignal, Hsignal. }
  destruct Hrun as [Hsignal Hstill].
  split; [exact Hsignal|]. split; [exact Hstill|].
  intros payload a sdp e c Hsdp Hrefused Hrecorded Hopen p'.
  subst p'. rewrite run_app.
  set (q := peer.run json events p) in *.
  unfold peer.run. cbn [fold_left peer.step].
  unfold peer.onSignalSDP. rewrite Hsdp, Hrefused, Hrecorded.
  unfold peer.onConnICECandidate, peer.signalSendCandidate.
  cbn [peer.conn peer.with_conn peer.RemoteDescription peer.ConnectionState
       peer.signal].
  destruct (peer.ConnectionState (peer.conn q)); try done;
    rewrite Hsignal;
    by destruct (peer.SendCandidate _ (peer.signal p)).
Qed.

Lemma nothing_published_before_remote_description_witness :
  peer.signal
    (peer.run scenario.json
       [peer.ICECandidateEvent (Some scenario.c1);
        peer.SignalSDPEvent (list_byte_of_string "not json") scenario.accepting;
        peer.SignalSDPEvent (list_byte_of_string "offer") (scenario.refusing false);
        peer.ConnectionStateChangeEvent peer.PeerConnectionStateConnecting;
        peer.ICECandidateEvent (Some scenario.c2)]
       scenario.freshPeer)
  = []
  /\ peer.signal
       (peer.run scenario.json
          ([peer.ICECandidateEvent (Some scenario.c1)]
             ++ [peer.SignalSDPEvent (list_byte_of_string "offer")
                   (scenario.refusing true);
                 peer.ICECandidateEvent (Some scenario.c2)])
          scenario.freshPeer)
     = [peer.PostedCandidate (list_byte_of_string "candidate:2")].
Proof.
  split.
  - destruct (nothing_published_before_remote_description
                peer.Mailbox peer.Mailbox_Signal scenario.json
                [peer.ICECandidateEvent (Some scenario.c1);
                 peer.SignalSDPEvent (list_byte_of_string "not json")
                   scenario.accepting;
                 peer.SignalSDPEvent (list_byte_of_string "offer")
                   (scenario.refusing false);
                 peer.ConnectionStateChangeEvent peer.PeerConnectionStateConnecting;
                 peer.ICECandidateEvent (Some scenario.c2)]
                scenario.freshPeer)
      as [Hsignal _]; [reflexivity | reflexivity | exact Hsignal].
  - destruct (nothing_published_before_remote_description
                peer.Mailbox peer.Mailbox_Signal scenario.json
                [peer.ICECandidateEvent (Some scenario.c1)]
                scenario.freshPeer)
      as (_ & _ & Hrecorded); [reflexivity | reflexivity |].
    destruct (Hrecorded (list_byte_of_string "offer") (scenario.refusing true)
                {| peer.Type_ := peer.SDPTypeOffer; peer.SDP := "offer" |}
                (errOther "SetRemoteDescription refused") scenario.c2)
      as [Hpublished _]; [reflexivity | reflexivity | reflexivity | discriminate |].
    exact Hpublished.
Defined.

(** X17. [Dial] on the file-sharing mailbox. When the ping search lists no
    entry and the own ping is uploaded, [Dial] returns success without
    creating an offer: the connection is as it was and the peer waits.
    When the search lists an entry, [Dial], after the deletions of [Ping],
    creates the offer, sets it as the local description and uploads it as
    the SDP entry of this instance; what [Dial] returns is what the upload
    returns. When [Ping] fails in another way, [Dial] returns that error
    and leaves the connection as it was. *)
Theorem Dial_waits_or_offers
    (codec : signal.Codec) (H : Type) (s : signal.FileIo H) (json : peer.Json)
    (a : peer.OfferAnswers) (p : peer.WebRTC signal.Net) :
  let Dial := @peer.Dial signal.Net (peer.FileIo_Signal codec s) json
                (signal.Ping codec s) in
  (forall files net1 net2,
      signal.findPing codec s (peer.signal p) = (Ok files, net1) ->
      signal.Nodes files = [] ->
      signal.uploadPing codec s net1 = (Ok tt, net2) ->
      Dial a p = (Ok tt, peer.with_signal p net2))
  /\ (forall files net1 offer payload r net3,
         signal.findPing codec s (peer.signal p) = (Ok files, net1) ->
         signal.Nodes files <> [] ->
         peer.CreateDataChannel a = None ->
         peer.CreateOffer a = Ok offer ->
         peer.SetLocalOffer a = None ->
         peer.Marshal json offer = Ok payload ->
         signal.uploadSDP codec s payload
           (signal.range (signal.Nodes files)
              (fun node net => snd (signal.deleteFile s (signal.Key node) net)) net1)
         = (r, net3) ->
         Dial a p
         = (r, {| peer.signal := net3;
                  peer.conn :=
                    {| peer.RemoteDescription := peer.RemoteDescription (peer.conn p);
                       peer.LocalDescription := Some offer;
                       peer.ConnectionState := peer.ConnectionState (peer.conn p) |};
                  peer.candidates := peer.candidates p;
                  peer.shutdownChan := peer.shutdownChan p |}))
  /\ (forall e net1,
         signal.Ping codec s (peer.signal p) = (Err e, net1) ->
         e <> ErrNoCandidatesFound ->
         Dial a p = (Err e, peer.with_signal p net1)).
Proof.
  intros Dial. subst Dial. unfold peer.Dial. split; [|split].
  - intros files net1 net2 Hfind Hnone Hup.
    unfold signal.Ping, io_bind. rewrite Hfind, Hnone. cbn [length Nat.eqb].
    by rewrite Hup.
  - intros files net1 offer payload r net3 Hfind Hsome Hchan Hoffer Hloc Hmar Hup.
    unfold signal.Ping, io_bind. rewrite Hfind.
    destruct (signal.Nodes files) as [|node nodes] eqn:Hnodes; [done|].
    cbn [length Nat.eqb].
    unfold peer.offer. rewrite Hchan, Hoffer, Hloc, Hmar.
    cbn [peer.SendSDP peer.FileIo_Signal peer.signal peer.with_conn peer.with_signal].
    unfold signal.SendSDP. by rewrite Hup.
  - intros e net1 Hping Hother. rewrite Hping.
    by destruct e.
Qed.

Lemma Dial_waits_or_offers_witness :
  @peer.Dial signal.Net (peer.FileIo_Signal scenario.codec scenario.fileIo)
     scenario.json (signal.Ping scenario.codec scenario.fileIo)
     {| peer.CreateDataChannel := None;
        peer.CreateOffer := Ok {| peer.Type_ := peer.SDPTypeOffer; peer.SDP := "offer" |};
        peer.SetLocalOffer := None |}
     (peer.NewWebRTC
        (scenario.network
           [scenario.answer 200 "one ping"; scenario.answer 200 "";
            scenario.answer 200 ""]))
  = (Ok tt,
     {| peer.signal :=
          {| signal.answers := [];
             signal.sent :=
               [signal.newRequest scenario.fileIo "GET"
                  "/?search=91c04021_ping&sort=created:asc"
                  [("Accept", "application/json")] [];
                signal.newRequest scenario.fileIo "DELETE" "/k1"
                  [("Accept", "application/json")] [];
                signal.newRequest scenario.fileIo "POST" "/"
                  [("Accept", "application/json");
                   ("Content-Type",
                    "multipart/form-data; boundary=---011000010111000001101001")]
                  (signal.multipartForm scenario.codec
                     (signal.entryName scenario.fileIo "sdp")
                     {| signal.Type_ := "sdp";
                        signal.Payload := list_byte_of_string "offer" |})] |};
        peer.conn :=
          {| peer.RemoteDescription := None;
             peer.LocalDescription :=
               Some {| peer.Type_ := peer.SDPTypeOffer; peer.SDP := "offer" |};
             peer.ConnectionState := peer.PeerConnectionStateNew |};
        peer.candidates := [];
        peer.shutdownChan := make_chan |}).
Proof.
  destruct (Dial_waits_or_offers scenario.codec _ scenario.fileIo scenario.json
              {| peer.CreateDataChannel := None;
                 peer.CreateOffer :=
                   Ok {| peer.Type_ := peer.SDPTypeOffer; peer.SDP := "offer" |};
                 peer.SetLocalOffer := None |}
              (peer.NewWebRTC
                 (scenario.network
                    [scenario.answer 200 "one ping"; scenario.answer 200 "";
                     scenario.answer 200 ""])))
    as (_ & Hoffers & _).
  eapply Hoffers.
  - reflexivity.
  - discriminate.
  - reflexivity.
  - reflexivity.
  - reflexivity.
  - reflexivity.
  - reflexivity.
Defined.

(** ** internal/app.go *)

Section AppFacts.

Lemma length_nonempty (s : string) :
  s <> "" -> Nat.eqb (String.length s) 0 = false.
Proof. by destruct s. Qed.

Lemma SavePasswords_writes {C} `{passwordmanager.Crypto C}
    (m : passwordmanager.LocalSaver C) (p1 p2 : string) (fs : FS) :
  passwordmanager.SavePasswords m p1 p2 fs
  = (Ok tt,
     <[passwordmanager.PasswordFile (passwordmanager.cfg m) :=
         passwordmanager.Encrypt (passwordmanager.crypto m)
           (uint8 (String.length p1) :: list_byte_of_string p1
              ++ uint8 (String.length p2) :: list_byte_of_string p2)]> fs).
Proof.
  unfold passwordmanager.SavePasswords, io_bind, io_lift, io_local.
  rewrite writePassword_Buffer. rewrite writePassword_Buffer.
  reflexivity.
Qed.

Lemma GetPasswords_decrypted {C} `{passwordmanager.Crypto C}
    (m : passwordmanager.LocalSaver C) (p1 p2 : string)
    (data : list byte) (fs : FS) :
  fs !! passwordmanager.PasswordFile (passwordmanager.cfg m) = Some data ->
  passwordmanager.Decrypt (passwordmanager.crypto m) data
  = Ok (uint8 (String.length p1) :: list_byte_of_string p1
          ++ uint8 (String.length p2) :: list_byte_of_string p2) ->
  String.length p1 <= 255 ->
  String.length p2 <= 255 ->
  passwordmanager.GetPasswords m fs = (Ok (p1, p2), fs).
Proof.
  intros Hfile Hdec Hp1 Hp2.
  unfold passwordmanager.GetPasswords, io_bind, io_lift, io_local, os_ReadFile.
  rewrite Hfile, Hdec. cbn [fst].
  rewrite readPassword_written by done.
  rewrite <- (app_nil_r (list_byte_of_string p2)).
  by rewrite readPassword_written.
Qed.

End AppFacts.

(** X18. The passwords of an encryption run reach the [Backupper] of a
    later backup run. With a block cipher of 16-byte blocks for the
    built-in key, passwords of at most 255 bytes each and a password
    file named on both command lines: [Setup] of the encryption run
    returns, its [Run] writes the password file, no other, and returns;
    and [Setup] of a backup run on the resulting files, with an API key, a
    session and an instance identifier, hands [NewBackupper] a
    configuration that holds exactly the two passwords of the encryption
    run, and returns with the [Backupper] built from it. *)
Theorem encrypted_passwords_reach_the_backupper
    (aes_NewCipher : list byte -> result crypto.Block)
    (errNotDirectory errIsDirectory : string)
    (NewPeerConnection : option error) (net : signal.Net) (dirs : gset string)
    (runBackupMode : internal.App -> FS -> internal.Outcome unit * FS)
    (blk : crypto.Block) (e b : internal.App) (fs : FS) :
  aes_NewCipher (list_byte_of_string "AES-128-key-1234") = Ok blk ->
  crypto.BlockLaws blk ->
  crypto.BlockSize blk = 16 ->
  internal.encryptionMode e = true ->
  internal.passwordFile e <> "" ->
  String.length (internal.password1 e) <= 255 ->
  String.length (internal.password2 e) <= 255 ->
  internal.encryptionMode b = false ->
  internal.passwordFile b = internal.passwordFile e ->
  internal.apiKey b <> "" ->
  internal.sessionUUID b <> "" ->
  internal.instanceUUID b <> "" ->
  exists (e' : internal.App) (fs' : FS),
    internal.Setup aes_NewCipher errNotDirectory errIsDirectory
      NewPeerConnection net dirs e fs = internal.Returned e'
    /\ internal.Run runBackupMode e' fs = (internal.Returned tt, fs')
    /\ (forall path, path <> internal.passwordFile e -> fs' !! path = fs !! path)
    /\ forall fm,
        filemanager.NewBackupper errNotDirectory errIsDirectory
          {| filemanager.ZipDir := internal.zipDir b;
             filemanager.SourceEntry := internal.sourceEntry b;
             filemanager.DestinationDir := internal.destinationDir b;
             filemanager.OutputFilename := internal.outputFilename b;
             filemanager.Versions := internal.fileVersions b;
             filemanager.Password1 := internal.password1 e;
             filemanager.Password2 := internal.password2 e |}
          dirs fs' = Ok fm ->
        exists b',
          internal.Setup aes_NewCipher errNotDirectory errIsDirectory
            None net dirs b fs' = internal.Returned b'
          /\ internal.fileManager b' = Some fm.
Proof.
  intros Haes Hlaws Hsize Hmode Hfile Hp1 Hp2 Hmodeb Hfileb Hkey Hsession Hinstance.
  set (c := {| crypto.cfg := {| crypto.Key := list_byte_of_string "AES-128-key-1234";
                                crypto.IV := list_byte_of_string "IV-1234567890123" |};
               crypto.cipher := blk |}).
  set (m := {| passwordmanager.cfg :=
                 {| passwordmanager.PasswordFile := internal.passwordFile e |};
               passwordmanager.crypto := c |}).
  eexists _, _. split; [|split; [|split]].
  - unfold internal.Setup. rewrite length_nonempty by done. cbn [negb].
    unfold internal.setupPasswordManager, crypto.NewAesCbc.
    cbn [crypto.Key]. rewrite Haes. cbn [bind internal.wrap internal.encryptionMode].
    rewrite Hmode. reflexivity.
  - unfold internal.Run. cbn [internal.encryptionMode].
    unfold internal.runEncryptionMode.
    cbn [internal.passwordManager internal.password1 internal.password2].
    rewrite SavePasswords_writes. reflexivity.
  - intros path Hpath. by apply lookup_insert_ne.
  - intros fm Hfm.
    unfold internal.Setup. rewrite Hfileb, length_nonempty by done. cbn [negb].
    unfold internal.setupPasswordManager, crypto.NewAesCbc.
    cbn [crypto.Key]. rewrite Haes. cbn [bind internal.wrap internal.encryptionMode].
    rewrite Hmodeb.
    unfold internal.setupBackupMode, signal.NewFileIo.
    cbn [internal.apiKey internal.sessionUUID internal.instanceUUID
         internal.passwordManager signal.APIKey signal.SessionID signal.InstanceID].
    rewrite !length_nonempty by done. cbn [internal.wrap].
    rewrite Hfileb. fold c. fold m.
    rewrite (GetPasswords_decrypted m (internal.password1 e) (internal.password2 e)
               (crypto.Encrypt c
                  (uint8 (String.length (internal.password1 e))
                     :: list_byte_of_string (internal.password1 e)
                     ++ uint8 (String.length (internal.password2 e))
                          :: list_byte_of_string (internal.password2 e)))).
    + cbn [fst internal.wrap internal.zipDir internal.sourceEntry
           internal.destinationDir internal.outputFilename internal.fileVersions].
      subst m c. rewrite Hfm. cbn [internal.wrap].
      eexists. split; [reflexivity|]. reflexivity.
    + cbn [passwordmanager.PasswordFile passwordmanager.cfg m
           passwordmanager.crypto passwordmanager.Encrypt crypto.AesCbc_Crypto].
      apply lookup_insert_eq.
    + cbn [passwordmanager.crypto m passwordmanager.Decrypt crypto.AesCbc_Crypto].
      apply AesCbc_Decrypt_Encrypt; [exact Hlaws|].
      cbn [c crypto.cfg crypto.IV crypto.cipher]. rewrite Hsize. reflexivity.
    + exact Hp1.
    + exact Hp2.
Qed.

Lemma encrypted_passwords_reach_the_backupper_witness :
  exists (e' : internal.App) (fs' : FS),
    internal.Setup scenario.aes_NewCipher "not a directory" "is a directory"
      None (scenario.network []) {[ "/out" ]} (scenario.encrypting "/t/p.bin") ∅
    = internal.Returned e'
    /\ internal.Run (fun _ fs => (internal.Returned tt, fs)) e' ∅
       = (internal.Returned tt, fs')
    /\ exists b',
        internal.Setup scenario.aes_NewCipher "not a directory" "is a directory"
          None (scenario.network []) {[ "/out" ]} scenario.receiving fs'
        = internal.Returned b'
        /\ internal.fileManager b'
           = Some {| filemanager.cfg :=
                       {| filemanager.ZipDir := false;
                          filemanager.SourceEntry := "";
                          filemanager.DestinationDir := "/out";
                          filemanager.OutputFilename := "";
                          filemanager.Versions := 1;
                          filemanager.Password1 := "qwerty";
                          filemanager.Password2 := "asdfgh" |};
                     filemanager.shutdownChan := make_chan |}.
Proof.
  destruct (encrypted_passwords_reach_the_backupper
              scenario.aes_NewCipher "not a directory" "is a directory"
              None (scenario.network []) {[ "/out" ]}
              (fun _ fs => (internal.Returned tt, fs))
              (crypto.xorCipher (list_byte_of_string "AES-128-key-1234"))
              (scenario.encrypting "/t/p.bin") scenario.receiving ∅)
    as (e' & fs' & Hsetup & Hrun & _ & Hbackup).
  - reflexivity.
  - apply xorCipher_laws. reflexivity.
  - reflexivity.
  - reflexivity.
  - discriminate.
  - simpl. lia.
  - simpl. lia.
  - reflexivity.
  - reflexivity.
  - discriminate.
  - discriminate.
  - discriminate.
  - exists e', fs'. split; [exact Hsetup|]. split; [exact Hrun|].
    apply Hbackup.
    unfold filemanager.NewBackupper, os_Stat_IsDir. cbn.
    rewrite decide_True by (apply elem_of_singleton; reflexivity).
    reflexivity.
Defined.

(** X19. An encryption run without a password file ends in a panic: with
    [-e] and no [-p], [Setup] builds no password manager and returns, and
    [Run] calls [SavePasswords] on the nil manager, which dereferences it
    after filling its buffer; nothing is written. *)
Theorem encryption_run_without_password_file_panics
    (aes_NewCipher : list byte -> result crypto.Block)
    (errNotDirectory errIsDirectory : string)
    (NewPeerConnection : option error) (net : signal.Net) (dirs : gset string)
    (runBackupMode : internal.App -> FS -> internal.Outcome unit * FS)
    (a : internal.App) (fs : FS) :
  internal.encryptionMode a = true ->
  internal.passwordFile a = "" ->
  internal.passwordManager a = None ->
  internal.Setup aes_NewCipher errNotDirectory errIsDirectory
    NewPeerConnection net dirs a fs = internal.Returned a
  /\ internal.Run runBackupMode a fs
     = (internal.Panicked "nil pointer dereference", fs).
Proof.
  intros Hmode Hfile Hnil. split.
  - unfold internal.Setup. rewrite Hfile. cbn [String.length Nat.eqb negb].
    by rewrite Hmode.
  - unfold internal.Run, internal.runEncryptionMode. by rewrite Hmode, Hnil.
Qed.

Lemma encryption_run_without_password_file_panics_witness :
  internal.Run (fun _ fs => (internal.Returned tt, fs)) (scenario.encrypting "") ∅
  = (internal.Panicked "nil pointer dereference", ∅).
Proof.
  destruct (encryption_run_without_password_file_panics
              scenario.aes_NewCipher "not a directory" "is a directory"
              None (scenario.network []) ∅
              (fun _ fs => (internal.Returned tt, fs))
              (scenario.encrypting "") ∅)
    as [_ Hrun].
  - reflexivity.
  - reflexivity.
  - reflexivity.
  - exact Hrun.
Defined.

(** X20. [Setup] of a backup run on an unusable password file. With an
    API key, a session and an instance identifier, and a cipher for the
    built-in key: when the file named by [-p] does not exist, [Setup]
    returns the not-exist error under the message [password manager]; when
    its length is not a whole number of cipher blocks, [Setup] does not
    return an error but panics in [CryptBlocks]; when it is empty, [Setup]
    returns the padding error. In none of these cases is a [Backupper]
    built. *)
Theorem backup_setup_on_unusable_password_file
    (aes_NewCipher : list byte -> result crypto.Block)
    (errNotDirectory errIsDirectory : string)
    (net : signal.Net) (dirs : gset string)
    (blk : crypto.Block) (b : internal.App) (fs : FS) :
  aes_NewCipher (list_byte_of_string "AES-128-key-1234") = Ok blk ->
  internal.encryptionMode b = false ->
  internal.passwordFile b <> "" ->
  internal.apiKey b <> "" ->
  internal.sessionUUID b <> "" ->
  internal.instanceUUID b <> "" ->
  let Setup := internal.Setup aes_NewCipher errNotDirectory errIsDirectory
                 None net dirs b fs in
  (fs !! internal.passwordFile b = None ->
   Setup = internal.Failed "password manager"
             (fs_ErrNotExist (internal.passwordFile b)))
  /\ (forall data,
         fs !! internal.passwordFile b = Some data ->
         length data mod crypto.BlockSize blk <> 0 ->
         Setup = internal.Panicked "crypto/cipher: input not full blocks")
  /\ (fs !! internal.passwordFile b = Some [] ->
      Setup = internal.Failed "password manager" errBadPadding).
Proof.
  intros Haes Hmode Hfile Hkey Hsession Hinstance Setup.
  assert (Hsetup :
            Setup
            = match internal.wrap
                      (fst (passwordmanager.GetPasswords
                              {| passwordmanager.cfg :=
                                   {| passwordmanager.PasswordFile :=
                                        internal.passwordFile b |};
                                 passwordmanager.crypto :=
                                   {| crypto.cfg :=
                                        {| crypto.Key :=
                                             list_byte_of_string "AES-128-key-1234";
                                           crypto.IV :=
                                             list_byte_of_string "IV-1234567890123" |};
                                      crypto.cipher := blk |} |} fs))
                      "password manager" with
              | internal.Returned _ => Setup
              | internal.Failed message cause => internal.Failed message cause
              | internal.Panicked m => internal.Panicked m
              end).
  { subst Setup. unfold internal.Setup. rewrite length_nonempty by done.
    cbn [negb].
    unfold internal.setupPasswordManager, crypto.NewAesCbc.
    cbn [crypto.Key]. rewrite Haes. cbn [bind internal.wrap internal.encryptionMode].
    rewrite Hmode.
    unfold internal.setupBackupMode, signal.NewFileIo.
    cbn [internal.apiKey internal.sessionUUID internal.instanceUUID
         internal.passwordManager internal.passwordFile
         signal.APIKey signal.SessionID signal.InstanceID].
    rewrite !length_nonempty by done. cbn [internal.wrap].
    by destruct (internal.wrap _ "password manager") as [[p1 p2]| |]. }
  unfold passwordmanager.GetPasswords, io_bind, io_lift, io_local, os_ReadFile in Hsetup.
  cbn [passwordmanager.PasswordFile passwordmanager.cfg passwordmanager.crypto
       passwordmanager.Decrypt crypto.AesCbc_Crypto] in Hsetup.
  split; [|split].
  - intros Hnone. rewrite Hsetup, Hnone. reflexivity.
  - intros data Hsome Hblocks. rewrite Hsetup, Hsome.
    unfold crypto.Decrypt. cbn [crypto.cipher].
    apply Nat.eqb_neq in Hblocks. rewrite Hblocks. reflexivity.
  - intros Hempty. rewrite Hsetup, Hempty.
    unfold crypto.Decrypt. cbn [length crypto.cipher].
    rewrite Nat.Div0.mod_0_l, Nat.Div0.div_0_l. reflexivity.
Qed.

Lemma backup_setup_on_unusable_password_file_witness :
  internal.Setup scenario.aes_NewCipher "not a directory" "is a directory"
    None (scenario.network []) {[ "/out" ]} scenario.receiving
    {[ "/t/p.bin" := list_byte_of_string "short" ]}
  = internal.Panicked "crypto/cipher: input not full blocks".
Proof.
  destruct (backup_setup_on_unusable_password_file
              scenario.aes_NewCipher "not a directory" "is a directory"
              (scenario.network []) {[ "/out" ]}
              (crypto.xorCipher (list_byte_of_string "AES-128-key-1234"))
              scenario.receiving {[ "/t/p.bin" := list_byte_of_string "short" ]})
    as (_ & Hshort & _).
  - reflexivity.
  - reflexivity.
  - discriminate.
  - discriminate.
  - discriminate.
  - discriminate.
  - apply (Hshort (list_byte_of_string "short")).
    + reflexivity.
    + discriminate.
Defined.
